(** * symNMF: [symnmf.c] and [symnmfmodule.c], embedded and verified

    The C functions of [symnmf.c] and of [symnmfmodule.c] are embedded as
    computations in a small state monad over an explicit store, one
    definition per function, with the loops, the early returns and the
    calls to [malloc], [calloc] and [free] where the source has them.

    - A [double] is a primitive binary64 float ([PrimFloat.float]):
      [+ - * /] and [sqrt] round to nearest even, each operation on its
      own, as the C operators do on IEEE-754 doubles when the compiler
      fuses no multiplication with an addition.
    - [exp] comes from the C mathematical library, which is not part of
      the repository: it is a parameter of the development.
    - [malloc] and [calloc] may fail: an environment [avail] decides each
      allocation request, in the order the requests are made.
    - Dimensions ([int n], [int d], [int k]) are natural numbers: the
      program only uses them as loop bounds and allocation sizes.
    - For the command-line program, a text is a list of characters;
      [fgets] and [strtok] are written out, on the text that is left of
      the file and of the line; [fopen], [atof] and the ["%.4f"]
      conversion of [printf] are parameters; the standard output is the
      text written so far.
    - For the extension module, a Python object is a value (a float, an
      integer, a list of item pointers, [None]) without a reference
      count; the interpreter state is the pending exception and the
      number of objects requested, an environment [py_avail] deciding
      each request.

    The file has four parts: the embedding; the values the functions
    compute, written as functions on lists; the proof that each embedded
    function computes them, in every environment; the properties of the
    specification and of the code, stated on the embedded functions. *)

From Stdlib Require Import Ascii ZArith Floats Lia.
From stdpp Require Import base option list gmap strings.

Set Warnings "-inexact-float".
Local Open Scope float_scope.

(** ** The store *)

(** A [double**] table together with the rows it owns is one store object:
    every row pointer of the program is written into exactly one table, at
    the statement that allocates the row, and is never copied.  A slot of a
    table is [Wild] while it holds an indeterminate pointer (fresh from
    [malloc], or dangling after [free]), [Null] after a failed row
    allocation, and [Row cells] once it points to a row of doubles. *)
Inductive slot : Type :=
  | Wild
  | Null
  | Row (cells : list float).

(** [Cells] is a plain [double*] block ([degree_diag] in [norm]). *)
Inductive obj : Type :=
  | Table (slots : list slot)
  | Cells (cells : list float).

Abbreviation loc := positive (only parsing).

(** [clock] counts the allocation requests made so far. *)
Record state : Type := State { store : gmap loc obj; clock : nat }.

(** A computation either runs to a value and a new state, or has undefined
    behaviour ([None]): an access outside an object, a read through a
    [Wild] or [Null] row pointer, [free] of an indeterminate pointer. *)
Definition M (A : Type) : Type := state -> option (A * state).

Definition ret {A} (a : A) : M A := fun s => Some (a, s).

Definition bind {A B} (m : M A) (k : A -> M B) : M B :=
  fun s => match m s with
           | Some (a, s') => k a s'
           | None => None
           end.

#[global] Instance M_ret : MRet M := @ret.
#[global] Instance M_bind : MBind M := fun A B k m => bind m k.

(** ** Control flow *)

(** [for (i = lo; i < lo + cnt; i++) body(i)] *)
Fixpoint for_ (i cnt : nat) (body : nat -> M unit) : M unit :=
  match cnt with
  | O => ret tt
  | S c => body i ;; for_ (S i) c body
  end.

(** The same loop threading a local variable (an accumulator). *)
Fixpoint for_acc {A} (i cnt : nat) (body : nat -> A -> M A) (a : A) : M A :=
  match cnt with
  | O => ret a
  | S c => a' ← body i a; for_acc (S i) c body a'
  end.

(** What a loop body asks for: the next iteration, [break], or [return r]
    from the enclosing function. *)
Inductive ctl (R : Type) : Type :=
  | Next
  | Break
  | Return (r : R).
Arguments Next {R}.
Arguments Break {R}.
Arguments Return {R} r.

(** A loop whose body may [break] or [return]; the result is [Some r] when
    the body returned [r], [None] when the loop ended or was broken. *)
Fixpoint for_ctl {R} (i cnt : nat) (body : nat -> M (ctl R)) : M (option R) :=
  match cnt with
  | O => ret None
  | S c =>
      x ← body i;
      match x with
      | Next => for_ctl (S i) c body
      | Break => ret None
      | Return r => ret (Some r)
      end
  end.

(** ** Memory primitives *)

(** [a[i][j]] as an rvalue. *)
Definition get2 (a : loc) (i j : nat) : M float :=
  fun s =>
    match store s !! a with
    | Some (Table t) =>
        match t !! i with
        | Some (Row r) =>
            match r !! j with
            | Some v => Some (v, s)
            | None => None
            end
        | _ => None
        end
    | _ => None
    end.

(** [a[i][j] = v] *)
Definition set2 (a : loc) (i j : nat) (v : float) : M unit :=
  fun s =>
    match store s !! a with
    | Some (Table t) =>
        match t !! i with
        | Some (Row r) =>
            if decide (j < length r)
            then Some (tt, State (<[a := Table (<[i := Row (<[j := v]> r)]> t)]> (store s))
                                 (clock s))
            else None
        | _ => None
        end
    | _ => None
    end.

(** [a[i]] as an rvalue, [a] a [double*]. *)
Definition get1 (a : loc) (i : nat) : M float :=
  fun s =>
    match store s !! a with
    | Some (Cells r) =>
        match r !! i with
        | Some v => Some (v, s)
        | None => None
        end
    | _ => None
    end.

(** [a[i] = v], [a] a [double*]. *)
Definition set1 (a : loc) (i : nat) (v : float) : M unit :=
  fun s =>
    match store s !! a with
    | Some (Cells r) =>
        if decide (i < length r)
        then Some (tt, State (<[a := Cells (<[i := v]> r)]> (store s)) (clock s))
        else None
    | _ => None
    end.

(** [free(a[i])] guarded by [if (a[i])], as in [free_c_array]. *)
Definition free_row (a : loc) (i : nat) : M unit :=
  fun s =>
    match store s !! a with
    | Some (Table t) =>
        match t !! i with
        | Some (Row _) =>
            Some (tt, State (<[a := Table (<[i := Wild]> t)]> (store s)) (clock s))
        | Some Null => Some (tt, s)
        | _ => None
        end
    | _ => None
    end.

(** [free(a)] of a live block. *)
Definition free_block (a : loc) : M unit :=
  fun s =>
    match store s !! a with
    | Some _ => Some (tt, State (delete a (store s)) (clock s))
    | None => None
    end.

(** [symnmf.c], [free_c_array]: a null [array] is skipped, otherwise the
    first [n] rows are freed and then the table. *)
Definition free_c_array (array : option loc) (n : nat) : M unit :=
  match array with
  | Some a => for_ 0 n (fun i => free_row a i) ;; free_block a
  | None => ret tt
  end.

Section Program.

(** The environment: [avail t] tells whether the [t]-th allocation request
    of the run is granted; [junk t i] is what the [i]-th double of the block
    handed out by the [t]-th request happens to contain; [exp] is the
    library's exponential. *)
Variable avail : nat -> bool.
Variable junk : nat -> nat -> float.
Variable exp : float -> float.

(** [(double** )malloc(n * sizeof(double* ))]: on success a fresh table of
    [n] indeterminate row pointers. *)
Definition malloc_table (n : nat) : M (option loc) :=
  fun s =>
    if avail (clock s)
    then let l := fresh (dom (store s)) in
         Some (Some l, State (<[l := Table (replicate n Wild)]> (store s)) (S (clock s)))
    else Some (None, State (store s) (S (clock s))).

(** Storing a row pointer into slot [i] of table [a]. *)
Definition set_slot (a : loc) (i : nat) (x : slot) (c : nat) : M unit :=
  fun s =>
    match store s !! a with
    | Some (Table t) =>
        if decide (i < length t)
        then Some (tt, State (<[a := Table (<[i := x]> t)]> (store s)) c)
        else None
    | _ => None
    end.

(** [a[i] = (double* )malloc(k * sizeof(double))]; the result tells whether
    [a[i]] is non-null. *)
Definition malloc_row (a : loc) (i k : nat) : M bool :=
  fun s =>
    let t := clock s in
    if avail t
    then (set_slot a i (Row (map (junk t) (seq 0 k))) (S t) ;; ret true) s
    else (set_slot a i Null (S t) ;; ret false) s.

(** [a[i] = (double* )calloc(k, sizeof(double))] *)
Definition calloc_row (a : loc) (i k : nat) : M bool :=
  fun s =>
    let t := clock s in
    if avail t
    then (set_slot a i (Row (replicate k 0)) (S t) ;; ret true) s
    else (set_slot a i Null (S t) ;; ret false) s.

(** [(double* )calloc(n, sizeof(double))] *)
Definition calloc_cells (n : nat) : M (option loc) :=
  fun s =>
    if avail (clock s)
    then let l := fresh (dom (store s)) in
         Some (Some l, State (<[l := Cells (replicate n 0)]> (store s)) (S (clock s)))
    else Some (None, State (store s) (S (clock s))).

(** ** The functions of [symnmf.c] *)

Definition MAX_ITER : nat := 300.
Definition EPSILON : float := 1e-4.

(** [symnmf.c], [matrix_multiply] *)
Definition matrix_multiply (A B : loc) (n m p : nat) : M (option loc) :=
  C ← malloc_table n;
  match C with
  | None => ret None
  | Some C =>
      r ← for_ctl 0 n (fun i =>
             ok ← calloc_row C i p;
             if negb ok
             then free_c_array (Some C) i ;; ret (Return None)
             else
               for_ 0 p (fun j =>
                 set2 C i j 0.0 ;;
                 for_ 0 m (fun k =>
                   c ← get2 C i j;
                   a ← get2 A i k;
                   b ← get2 B k j;
                   set2 C i j (c + a * b))) ;;
               ret Next);
      match r with
      | Some v => ret v
      | None => ret (Some C)
      end
  end.

(** [symnmf.c], [transpose_matrix] *)
Definition transpose_matrix (A : loc) (n m : nat) : M (option loc) :=
  result ← malloc_table m;
  match result with
  | None => ret None
  | Some result =>
      r ← for_ctl 0 m (fun i =>
             ok ← malloc_row result i n;
             if negb ok
             then free_c_array (Some result) i ;; ret (Return None)
             else
               for_ 0 n (fun j =>
                 a ← get2 A j i;
                 set2 result i j a) ;;
               ret Next);
      match r with
      | Some v => ret v
      | None => ret (Some result)
      end
  end.

(** [symnmf.c], [calculate_frobenius_norm] *)
Definition calculate_frobenius_norm (A B : loc) (n k : nat) : M float :=
  for_acc 0 n (fun i sum =>
    for_acc 0 k (fun j sum =>
      a ← get2 A i j;
      b ← get2 B i j;
      let diff := a - b in
      ret (sum + diff * diff)) sum) 0.0.

(** [symnmf.c], [copy_matrix] *)
Definition copy_matrix (dest src : loc) (n k : nat) : M unit :=
  for_ 0 n (fun i =>
    for_ 0 k (fun j =>
      v ← get2 src i j;
      set2 dest i j v)).

(** [symnmf.c], [update_H]; the result is the C function's [int]: [false]
    for 0 (failure), [true] for 1. *)
Definition update_H (W H : loc) (n k : nat) : M bool :=
  let beta := 0.5 in
  WH ← matrix_multiply W H n n k;
  match WH with
  | None => ret false
  | Some WH =>
  Ht ← transpose_matrix H n k;
  match Ht with
  | None => free_c_array (Some WH) n ;; ret false
  | Some Ht =>
  HHt ← matrix_multiply H Ht n k n;
  match HHt with
  | None => free_c_array (Some WH) n ;; free_c_array (Some Ht) k ;; ret false
  | Some HHt =>
  HHtH ← matrix_multiply HHt H n n k;
  match HHtH with
  | None =>
      free_c_array (Some WH) n ;; free_c_array (Some Ht) k ;;
      free_c_array (Some HHt) n ;; ret false
  | Some HHtH =>
      for_ 0 n (fun i =>
        for_ 0 k (fun j =>
          h ← get2 H i j;
          wh ← get2 WH i j;
          hhth ← get2 HHtH i j;
          set2 H i j (h * ((1 - beta) + beta * (wh / hhth))))) ;;
      free_c_array (Some WH) n ;; free_c_array (Some Ht) k ;;
      free_c_array (Some HHt) n ;; free_c_array (Some HHtH) n ;;
      ret true
  end end end end.

(** [symnmf.c], [sym] *)
Definition sym (points : loc) (n d : nat) : M (option loc) :=
  similarity ← malloc_table n;
  match similarity with
  | None => ret None
  | Some similarity =>
      r ← for_ctl 0 n (fun i =>
             ok ← malloc_row similarity i n;
             if negb ok
             then free_c_array (Some similarity) i ;; ret (Return None)
             else
               for_ 0 n (fun j =>
                 if decide (i = j)
                 then set2 similarity i j 0.0
                 else
                   sum ← for_acc 0 d (fun k sum =>
                            a ← get2 points i k;
                            b ← get2 points j k;
                            let diff := a - b in
                            ret (sum + diff * diff)) 0.0;
                   set2 similarity i j (exp ((- sum) / 2.0))) ;;
               ret Next);
      match r with
      | Some v => ret v
      | None => ret (Some similarity)
      end
  end.

(** [symnmf.c], [ddg] *)
Definition ddg (points : loc) (n d : nat) : M (option loc) :=
  similarity ← sym points n d;
  match similarity with
  | None => ret None
  | Some similarity =>
  degree ← malloc_table n;
  match degree with
  | None => free_c_array (Some similarity) n ;; ret None
  | Some degree =>
      r ← for_ctl 0 n (fun i =>
             ok ← calloc_row degree i n;
             if negb ok
             then
               free_c_array (Some similarity) n ;;
               free_c_array (Some degree) i ;;
               ret (Return None)
             else
               for_ 0 n (fun j =>
                 acc ← get2 degree i i;
                 a ← get2 similarity i j;
                 set2 degree i i (acc + a)) ;;
               ret Next);
      match r with
      | Some v => ret v
      | None => free_c_array (Some similarity) n ;; ret (Some degree)
      end
  end end.

(** [symnmf.c], [norm] *)
Definition norm (points : loc) (n d : nat) : M (option loc) :=
  similarity ← sym points n d;
  match similarity with
  | None => ret None
  | Some similarity =>
  degree_diag ← calloc_cells n;
  match degree_diag with
  | None => free_c_array (Some similarity) n ;; ret None
  | Some degree_diag =>
  for_ 0 n (fun i =>
    for_ 0 n (fun j =>
      acc ← get1 degree_diag i;
      a ← get2 similarity i j;
      set1 degree_diag i (acc + a))) ;;
  normalized ← malloc_table n;
  match normalized with
  | None =>
      free_block degree_diag ;; free_c_array (Some similarity) n ;; ret None
  | Some normalized =>
      r ← for_ctl 0 n (fun i =>
             ok ← malloc_row normalized i n;
             if negb ok
             then
               free_block degree_diag ;;
               free_c_array (Some similarity) n ;;
               free_c_array (Some normalized) i ;;
               ret (Return None)
             else
               for_ 0 n (fun j =>
                 a ← get2 similarity i j;
                 di ← get1 degree_diag i;
                 dj ← get1 degree_diag j;
                 set2 normalized i j (a / sqrt (di * dj))) ;;
               ret Next);
      match r with
      | Some v => ret v
      | None =>
          free_block degree_diag ;; free_c_array (Some similarity) n ;;
          ret (Some normalized)
      end
  end end end.

(** [symnmf.c], [symnmf] *)
Definition symnmf (W H : loc) (n k : nat) : M (option loc) :=
  H_prev ← malloc_table n;
  match H_prev with
  | None => ret None
  | Some H_prev =>
  result ← malloc_table n;
  match result with
  | None => free_c_array (Some H_prev) n ;; ret None
  | Some result =>
  r ← for_ctl 0 n (fun i =>
         ok ← malloc_row H_prev i k;
         if negb ok
         then
           free_c_array (Some H_prev) i ;; free_c_array (Some result) i ;;
           ret (Return None)
         else
           ok' ← malloc_row result i k;
           if negb ok'
           then
             free_c_array (Some H_prev) (i + 1) ;; free_c_array (Some result) i ;;
             ret (Return None)
           else ret Next);
  match r with
  | Some v => ret v
  | None =>
      copy_matrix result H n k ;;
      r ← for_ctl 0 MAX_ITER (fun iter =>
             copy_matrix H_prev result n k ;;
             ok ← update_H W result n k;
             if negb ok
             then
               free_c_array (Some H_prev) n ;; free_c_array (Some result) n ;;
               ret (Return None)
             else
               delta ← calculate_frobenius_norm result H_prev n k;
               if delta <? EPSILON then ret Break else ret Next);
      match r with
      | Some v => ret v
      | None => free_c_array (Some H_prev) n ;; ret (Some result)
      end
  end end end.

End Program.

Local Close Scope float_scope.

(** ** The C library, as far as the command-line program uses it *)

(** Text is a list of characters; a C string is the text in front of the
    first NUL of its buffer. *)
Abbreviation text := (list ascii).

Definition NUL : ascii := "000"%char.
Definition LF : ascii := "010"%char.
Definition COMMA : ascii := ","%char.

(** A string literal of the source. *)
Definition lit (s : string) : text := String.list_ascii_of_string s.

Fixpoint c_string (buf : text) : text :=
  match buf with
  | [] => []
  | ch :: buf' => if decide (ch = NUL) then [] else ch :: c_string buf'
  end.

(** The characters [fgets] stores when there is [room] for that many and
    [rest] is the unread part of the stream: it stops behind a newline, at
    the end of the file, or when the room is used up.  The second
    component is the part of the stream left unread. *)
Fixpoint fgets_chars (room : nat) (rest : text) : text * text :=
  match room, rest with
  | S room', ch :: rest' =>
      if decide (ch = LF) then ([ch], rest')
      else let '(l, r) := fgets_chars room' rest' in (ch :: l, r)
  | _, _ => ([], rest)
  end.

(** [fgets(line, size, file)]: the null pointer at the end of the file,
    otherwise at most [size - 1] characters. *)
Definition fgets (size : nat) (rest : text) : option (text * text) :=
  match rest with
  | [] => None
  | _ => Some (fgets_chars (size - 1) rest)
  end.

(** [strtok] with the delimiter string [","].  [skip_delims] moves over the
    delimiters in front of a token; [token_span] cuts the token at the next
    delimiter and gives the text behind that delimiter, where the next
    call resumes. *)
Fixpoint skip_delims (s : text) : text :=
  match s with
  | ch :: s' => if decide (ch = COMMA) then skip_delims s' else s
  | [] => []
  end.

Fixpoint token_span (s : text) : text * text :=
  match s with
  | [] => ([], [])
  | ch :: s' =>
      if decide (ch = COMMA) then ([], s')
      else let '(t, r) := token_span s' in (ch :: t, r)
  end.

(** One call of [strtok] on the text [s] still to be searched: the null
    pointer when only delimiters are left, otherwise the token and the
    text that the next call [strtok(NULL, ",")] will search. *)
Definition strtok (s : text) : option (text * text) :=
  match skip_delims s with
  | [] => None
  | s1 => Some (token_span s1)
  end.

(** [token = strtok(NULL, ",")] after a call that returned [token]: a null
    result stays null. *)
Definition strtok_next (token : option (text * text)) : option (text * text) :=
  match token with
  | Some (_, saved) => strtok saved
  | None => None
  end.

(** A computation with undefined behaviour. *)
Definition undefined {A} : M A := fun _ => None.

(** A [for] loop that threads a local variable and whose body may
    [return]: [inl a] carries the variable on, [inr r] returns [r]. *)
Fixpoint for_ret {A R} (i cnt : nat) (body : nat -> A -> M (A + R)) (a : A)
    : M (A + R) :=
  match cnt with
  | O => ret (inl a)
  | S c =>
      x ← body i a;
      match x with
      | inl a' => for_ret (S i) c body a'
      | inr r => ret (inr r)
      end
  end.

Section Driver.

(** The environment of the program: [avail], [junk] and [exp] as before;
    [fopen name] is the content of the file that [fopen(name, "r")] opens,
    if it opens one; [atof] and [fmt] are the library's conversions, [fmt]
    being [printf]'s ["%.4f"]. *)
Variable avail : nat -> bool.
Variable junk : nat -> nat -> float.
Variable exp : float -> float.
Variable fopen : text -> option text.
Variable atof : text -> float.
Variable fmt : float -> text.

Definition MAX_LINE_LENGTH : nat := 1024.

(** [symnmf.c], [read_data_from_file], the inner loop of the first pass:
    [while (token) { ( *d)++; token = strtok(NULL, ","); }].  The loop ends
    within [fuel] rounds when [fuel] is the length of the line. *)
Fixpoint count_tokens (fuel : nat) (token : option (text * text)) (d : nat) : nat :=
  match fuel, token with
  | S fuel', Some (_, saved) => count_tokens fuel' (strtok saved) (S d)
  | _, _ => d
  end.

(** [symnmf.c], [read_data_from_file], the first pass:
    [while (fgets(line, MAX_LINE_LENGTH, file)) ...], counting the lines in
    [n] and, until it is non-zero, the tokens of the line in [d].  The
    loop ends within [fuel] rounds when [fuel] is the length of the
    file. *)
Fixpoint count_dimensions (fuel : nat) (rest : text) (n d : nat) : nat * nat :=
  match fuel with
  | O => (n, d)
  | S fuel' =>
      match fgets MAX_LINE_LENGTH rest with
      | None => (n, d)
      | Some (line, rest') =>
          let n := S n in
          let d :=
            if decide (d = 0)
            then count_tokens (length line) (strtok (c_string line)) d
            else d in
          count_dimensions fuel' rest' n d
      end
  end.

(** [symnmf.c], [read_data_from_file].  The result is [None] when [fopen]
    fails (the function returns the null pointer and leaves [*n] and [*d]
    alone); otherwise it is the pointer returned together with the final
    [*n] and [*d]. *)
Definition read_data_from_file (filename : text)
    : M (option (option loc * nat * nat)) :=
  match fopen filename with
  | None => ret None
  | Some content =>
      let '(n, d) := count_dimensions (length content) content 0 0 in
      (* rewind(file) *)
      data ← malloc_table avail n;
      r ← for_ret 0 n (fun i rest =>
             ok ← match data with
                  | Some data => malloc_row avail junk data i d
                  | None => undefined
                  end;
             if negb ok
             then free_c_array data i ;; ret (inr None)
             else
               match fgets MAX_LINE_LENGTH rest with
               | None => free_c_array data (i + 1) ;; ret (inr None)
               | Some (line, rest') =>
                   for_acc 0 d (fun j token =>
                     match data, token with
                     | Some data, Some (tok, _) =>
                         set2 data i j (atof tok) ;;
                         ret (strtok_next token)
                     | _, _ => undefined
                     end) (strtok (c_string line)) ;;
                   ret (inl rest')
               end) content;
      match r with
      | inr v => ret (Some (v, n, d))
      | inl _ => ret (Some (data, n, d))
      end
  end.

(** [symnmf.c], [print_matrix]; [out] is what has been written to the
    standard output so far, the result what has been written afterwards. *)
Definition print_matrix (matrix : loc) (n m : nat) (out : text) : M text :=
  for_acc 0 n (fun i out =>
    out ← for_acc 0 m (fun j out =>
             v ← get2 matrix i j;
             let out := out ++ fmt v in
             ret (if decide (j < m - 1) then out ++ [COMMA] else out)) out;
    ret (out ++ [LF])) out.



End Driver.

(** ** The Python C API, as far as [symnmfmodule.c] uses it *)

(** Python objects are values: a float, an integer, a list, [None].  The
    items of a list are pointers, null until they are set.  Objects have
    no identity and no reference count here, so that [Py_DECREF] has no
    counterpart: the module only drops objects it has just built. *)
#[warnings="-register-all"]
Inductive pyobj : Type :=
  | PyFloat (v : float)
  | PyLong (z : Z)
  | PyList (items : list (option pyobj))
  | PyNone.

(** What the module can change in the interpreter: whether an exception
    is pending, and the number of objects requested so far. *)
Record pystate : Type := PyState { pending : bool; py_clock : nat }.

(** An API function fails: the exception is set. *)
Definition raised (ps : pystate) : pystate := PyState true (py_clock ps).

(** [PyList_Size]: the length of a list, -1 with an exception for another
    object; a null argument is dereferenced. *)
Definition PyList_Size (op : option pyobj) (ps : pystate) : M (Z * pystate) :=
  match op with
  | None => undefined
  | Some (PyList items) => ret (Z.of_nat (length items), ps)
  | Some _ => ret ((-1)%Z, raised ps)
  end.

(** [PyList_GetItem]: the item, a borrowed pointer; null with an
    exception when the index is out of range or the object is not a
    list; a null argument is dereferenced. *)
Definition PyList_GetItem (op : option pyobj) (i : Z) (ps : pystate)
    : M (option pyobj * pystate) :=
  match op with
  | None => undefined
  | Some (PyList items) =>
      if decide (0 <= i < Z.of_nat (length items))%Z
      then ret (nth (Z.to_nat i) items None, ps)
      else ret (None, raised ps)
  | Some _ => ret (None, raised ps)
  end.

(** [PyList_SET_ITEM(list, i, item)] on a list under construction. *)
Definition PyList_SET_ITEM (list : pyobj) (i : nat) (item : pyobj) : pyobj :=
  match list with
  | PyList items => PyList (<[i := Some item]> items)
  | _ => list
  end.

Section Module.

(** The environment of the module: [avail], [junk] and [exp] as before;
    [py_avail t] tells whether the interpreter can allocate the [t]-th
    object requested; [long_as_double z] is the double [PyFloat_AsDouble]
    makes of the integer [z], if it does not overflow. *)
Variable avail : nat -> bool.
Variable junk : nat -> nat -> float.
Variable exp : float -> float.
Variable py_avail : nat -> bool.
Variable long_as_double : Z -> option float.

(** [PyFloat_AsDouble]: the value of a float, the conversion of an
    integer, and -1.0 with an exception for a null pointer, a list or
    [None]. *)
Definition PyFloat_AsDouble (op : option pyobj) (ps : pystate) : float * pystate :=
  match op with
  | Some (PyFloat v) => (v, ps)
  | Some (PyLong z) =>
      match long_as_double z with
      | Some v => (v, ps)
      | None => ((-1)%float, raised ps)
      end
  | _ => ((-1)%float, raised ps)
  end.

(** The interpreter is asked for an object. *)
Definition py_alloc (ps : pystate) : bool * pystate :=
  let t := py_clock ps in
  if py_avail t
  then (true, PyState (pending ps) (S t))
  else (false, PyState true (S t)).

(** [PyList_New(n)]: a list of [n] null items; null with an exception
    when there is no memory, or [n] is negative. *)
Definition PyList_New (n : Z) (ps : pystate) : option pyobj * pystate :=
  if decide (n < 0)%Z
  then (None, raised ps)
  else
    let '(ok, ps) := py_alloc ps in
    if ok then (Some (PyList (replicate (Z.to_nat n) None)), ps) else (None, ps).

(** [PyFloat_FromDouble] *)
Definition PyFloat_FromDouble (v : float) (ps : pystate) : option pyobj * pystate :=
  let '(ok, ps) := py_alloc ps in
  if ok then (Some (PyFloat v), ps) else (None, ps).

(** [malloc(n * sizeof(...))] for an [int n]: a negative [n] turns into a
    size that no allocation can have, and the request fails. *)
Definition refuse {A} : M (option A) :=
  fun s => Some (None, State (store s) (S (clock s))).

Definition malloc_table_int (n : Z) : M (option loc) :=
  if decide (n < 0)%Z then refuse else malloc_table avail (Z.to_nat n).

Definition malloc_row_int (a : loc) (i : nat) (d : Z) : M bool :=
  if decide (d < 0)%Z
  then (fun s => (set_slot a i Null (S (clock s)) ;; ret false) s)
  else malloc_row avail junk a i (Z.to_nat d).

(** ** The functions of [symnmfmodule.c] *)

(** [symnmfmodule.c], [py_list_to_c_array] *)
Definition py_list_to_c_array (py_list : pyobj) (n d : Z) (ps : pystate)
    : M (option loc * pystate) :=
  array ← malloc_table_int n;
  match array with
  | None => ret (None, ps)
  | Some array =>
      r ← for_ret 0 (Z.to_nat n) (fun i ps =>
             ok ← malloc_row_int array i d;
             if negb ok
             then free_c_array (Some array) i ;; ret (inr ps)
             else
               '(py_row, ps) ← PyList_GetItem (Some py_list) (Z.of_nat i) ps;
               ps ← for_acc 0 (Z.to_nat d) (fun j ps =>
                      '(item, ps) ← PyList_GetItem py_row (Z.of_nat j) ps;
                      let '(v, ps) := PyFloat_AsDouble item ps in
                      set2 array i j v ;;
                      ret ps) ps;
               ret (inl ps)) ps;
      match r with
      | inr ps => ret (None, ps)
      | inl ps => ret (Some array, ps)
      end
  end.

(** [symnmfmodule.c], [c_array_to_py_list] *)
Definition c_array_to_py_list (array : loc) (n d : Z) (ps : pystate)
    : M (option pyobj * pystate) :=
  let '(py_list, ps) := PyList_New n ps in
  match py_list with
  | None => ret (None, ps)
  | Some py_list =>
      r ← for_ret 0 (Z.to_nat n) (fun i '(py_list, ps) =>
             let '(py_row, ps) := PyList_New d ps in
             match py_row with
             | None => ret (inr ps)
             | Some py_row =>
                 r ← for_ret 0 (Z.to_nat d) (fun j '(py_row, ps) =>
                        v ← get2 array i j;
                        let '(py_float, ps) := PyFloat_FromDouble v ps in
                        match py_float with
                        | None => ret (inr ps)
                        | Some py_float =>
                            ret (inl (PyList_SET_ITEM py_row j py_float, ps))
                        end) (py_row, ps);
                 match r with
                 | inr ps => ret (inr ps)
                 | inl (py_row, ps) =>
                     ret (inl (PyList_SET_ITEM py_list i py_row, ps))
                 end
             end) (py_list, ps);
      match r with
      | inr ps => ret (None, ps)
      | inl (py_list, ps) => ret (Some py_list, ps)
      end
  end.

(** [symnmfmodule.c], [py_sym]; [args] are the items of the argument
    tuple, [PyArg_ParseTuple(args, "O", ...)] succeeding when there is
    exactly one.  The result is the pointer returned, null for an
    exception.  Where [sym] is called, [n] is positive and [d] is not
    negative. *)
Definition py_sym (args : list pyobj) (ps : pystate) : M (option pyobj * pystate) :=
  match args with
  | [py_points] =>
      '(n, ps) ← PyList_Size (Some py_points) ps;
      '(row, ps) ← PyList_GetItem (Some py_points) 0 ps;
      '(d, ps) ← PyList_Size row ps;
      '(points, ps) ← py_list_to_c_array py_points n d ps;
      match points with
      | None => ret (Some PyNone, ps)
      | Some points =>
          result ← sym avail junk exp points (Z.to_nat n) (Z.to_nat d);
          match result with
          | None =>
              free_c_array (Some points) (Z.to_nat n) ;;
              ret (Some PyNone, ps)
          | Some result =>
              '(py_result, ps) ← c_array_to_py_list result n n ps;
              free_c_array (Some points) (Z.to_nat n) ;;
              free_c_array (Some result) (Z.to_nat n) ;;
              match py_result with
              | None => ret (Some PyNone, ps)
              | Some py_result => ret (Some py_result, ps)
              end
          end
      end
  | _ => ret (None, raised ps)
  end.

(** [symnmfmodule.c], [py_ddg] *)
Definition py_ddg (args : list pyobj) (ps : pystate) : M (option pyobj * pystate) :=
  match args with
  | [py_points] =>
      '(n, ps) ← PyList_Size (Some py_points) ps;
      '(row, ps) ← PyList_GetItem (Some py_points) 0 ps;
      '(d, ps) ← PyList_Size row ps;
      '(points, ps) ← py_list_to_c_array py_points n d ps;
      match points with
      | None => ret (Some PyNone, ps)
      | Some points =>
          result ← ddg avail junk exp points (Z.to_nat n) (Z.to_nat d);
          match result with
          | None =>
              free_c_array (Some points) (Z.to_nat n) ;;
              ret (Some PyNone, ps)
          | Some result =>
              '(py_result, ps) ← c_array_to_py_list result n n ps;
              free_c_array (Some points) (Z.to_nat n) ;;
              free_c_array (Some result) (Z.to_nat n) ;;
              match py_result with
              | None => ret (Some PyNone, ps)
              | Some py_result => ret (Some py_result, ps)
              end
          end
      end
  | _ => ret (None, raised ps)
  end.

(** [symnmfmodule.c], [py_norm] *)
Definition py_norm (args : list pyobj) (ps : pystate) : M (option pyobj * pystate) :=
  match args with
  | [py_points] =>
      '(n, ps) ← PyList_Size (Some py_points) ps;
      '(row, ps) ← PyList_GetItem (Some py_points) 0 ps;
      '(d, ps) ← PyList_Size row ps;
      '(points, ps) ← py_list_to_c_array py_points n d ps;
      match points with
      | None => ret (Some PyNone, ps)
      | Some points =>
          result ← norm avail junk exp points (Z.to_nat n) (Z.to_nat d);
          match result with
          | None =>
              free_c_array (Some points) (Z.to_nat n) ;;
              ret (Some PyNone, ps)
          | Some result =>
              '(py_result, ps) ← c_array_to_py_list result n n ps;
              free_c_array (Some points) (Z.to_nat n) ;;
              free_c_array (Some result) (Z.to_nat n) ;;
              match py_result with
              | None => ret (Some PyNone, ps)
              | Some py_result => ret (Some py_result, ps)
              end
          end
      end
  | _ => ret (None, raised ps)
  end.


End Module.

Section Specs.

Variable avail : nat -> bool.
Variable junk : nat -> nat -> float.
Variable exp : float -> float.

(** A lemma depends on the environment only as far as its statement
    does. *)
Set Default Proof Using "Type".

(** * Matrices as values *)

(** A matrix is the list of its rows. *)
Abbreviation matrix := (list (list float)).

(** The store object of a fully built [double**] matrix. *)
Definition mat (X : matrix) : obj := Table (map Row X).

(** [X[i][j]]; the default is never read inside the matrix. *)
Definition entry (X : matrix) (i j : nat) : float :=
  nth j (nth i X []) 0%float.

(** [[f 0; ...; f (n - 1)]], and the [n]×[k] matrix with entries [f i j]. *)
Definition tab {A} (n : nat) (f : nat -> A) : list A := map f (seq 0 n).

Definition tab2 (n k : nat) (f : nat -> nat -> float) : matrix :=
  tab n (fun i => tab k (f i)).

(** [n] rows of [k] entries each. *)
Definition shaped (n k : nat) (X : matrix) : Prop :=
  length X = n /\ Forall (fun r => length r = k) X.

(** [holds σ a n k X]: in store [σ], [a] points to the [n]×[k] matrix [X]. *)
Definition holds (σ : gmap loc obj) (a : loc) (n k : nat) (X : matrix) : Prop :=
  σ !! a = Some (mat X) /\ shaped n k X.

(** * What the functions compute *)

(** The value [matrix_multiply] leaves in [C[i][j]]: the products are
    accumulated from [k = 0] upwards, starting from [0.0]. *)
Definition dot (m : nat) (A B : matrix) (i j : nat) : float :=
  fold_left (fun acc k => (acc + entry A i k * entry B k j)%float) (seq 0 m) 0%float.

(** The matrices [matrix_multiply] and [transpose_matrix] build. *)
Definition mmul (n m p : nat) (A B : matrix) : matrix := tab2 n p (dot m A B).

Definition transpose (n m : nat) (A : matrix) : matrix :=
  tab2 m n (fun i j => entry A j i).

(** The value [calculate_frobenius_norm] returns: the squared differences
    are accumulated row by row, left to right, starting from [0.0]. *)
Definition frob_row (k : nat) (A B : matrix) (i : nat) (sum : float) : float :=
  fold_left (fun sum j =>
               let diff := (entry A i j - entry B i j)%float in
               (sum + diff * diff)%float) (seq 0 k) sum.

Definition frob (n k : nat) (A B : matrix) : float :=
  fold_left (fun sum i => frob_row k A B i sum) (seq 0 n) 0%float.

(** The multiplicative update of [update_H], entry by entry. *)
Definition update_rule (n k : nat) (W H : matrix) : matrix :=
  let WH := mmul n n k W H in
  let Ht := transpose n k H in
  let HHt := mmul n k n H Ht in
  let HHtH := mmul n n k HHt H in
  tab2 n k (fun i j =>
    (entry H i j * ((1 - 0.5) + 0.5 * (entry WH i j / entry HHtH i j)))%float).

(** The factor by which [update_H] multiplies [H[i][j]]. *)
Definition multiplier (n k : nat) (W H : matrix) (i j : nat) : float :=
  ((1 - 0.5) + 0.5 * (entry (mmul n n k W H) i j /
                      entry (mmul n n k (mmul n k n H (transpose n k H)) H) i j))%float.

(** The squared Euclidean distance [sym] accumulates in its local [sum]. *)
Definition sqdist (d : nat) (X : matrix) (i j : nat) : float :=
  fold_left (fun sum k =>
               let diff := (entry X i k - entry X j k)%float in
               (sum + diff * diff)%float) (seq 0 d) 0%float.

(** The matrix [sym] builds. *)
Definition similarity (n d : nat) (X : matrix) : matrix :=
  tab2 n n (fun i j =>
    if decide (i = j) then 0%float else exp (- sqdist d X i j / 2)%float).

(** A row sum as [ddg] and [norm] accumulate it: from [0.0] (the block
    comes from [calloc]), adding the entries left to right. *)
Definition rowsum (n : nat) (A : matrix) (i : nat) : float :=
  fold_left (fun acc j => (acc + entry A i j)%float) (seq 0 n) 0%float.

(** The matrix [ddg] builds. *)
Definition degree (n d : nat) (X : matrix) : matrix :=
  let A := similarity n d X in
  tab2 n n (fun i j => if decide (i = j) then rowsum n A i else 0%float).

(** The matrix [norm] builds. *)
Definition normalized (n d : nat) (X : matrix) : matrix :=
  let A := similarity n d X in
  tab2 n n (fun i j => (entry A i j / sqrt (rowsum n A i * rowsum n A j))%float).

(** [H] after [t] updates. *)
Definition iterate (n k : nat) (W H0 : matrix) (t : nat) : matrix :=
  Nat.iter t (update_rule n k W) H0.

(** The test [calculate_frobenius_norm(result, H_prev) < EPSILON] of the
    iteration numbered [t] (from 0), i.e. after [t + 1] updates. *)
Definition converged (n k : nat) (W H0 : matrix) (t : nat) : bool :=
  (frob n k (iterate n k W H0 (S t)) (iterate n k W H0 t) <? EPSILON)%float.

(** [symnmf] leaves its loop after [t] updates: no earlier test succeeded,
    and the last one did unless the cap was reached. *)
Definition stops_at (n k : nat) (W H0 : matrix) (t : nat) : Prop :=
  1 <= t <= MAX_ITER /\
  (forall s, S s < t -> converged n k W H0 s = false) /\
  (converged n k W H0 (t - 1) = true \/ t = MAX_ITER).

(** * How a call ends *)

(** [wp m s Q]: from state [s], [m] has defined behaviour and ends with a
    value and a state that satisfy [Q]. *)
Definition wp {A} (m : M A) (s : state) (Q : A -> state -> Prop) : Prop :=
  match m s with
  | Some (a, s') => Q a s'
  | None => False
  end.

(** Allocation requests of one successful [update_H]. *)
Definition update_ticks (n k : nat) : nat := S n + S k + S n + S n.

(** Allocation requests of a [symnmf] run that performs [t] updates. *)
Definition symnmf_ticks (n k t : nat) : nat := 2 + 2 * n + t * update_ticks n k.

(** How a function that returns a freshly allocated matrix ends, when
    called in store [σ] at clock [c]: either with a pointer to a new object
    holding [R], after [ticks] granted requests, or with the null pointer,
    the store as it was, and a refused request. *)
Definition alloc_result (σ : gmap loc obj) (c ticks : nat) (R : matrix)
    (r : option loc) (s' : state) : Prop :=
  match r with
  | Some l =>
      σ !! l = None /\ s' = State (<[l := mat R]> σ) (c + ticks) /\
      forall t, c <= t < c + ticks -> avail t = true
  | None =>
      exists t, c <= t < c + ticks /\ s' = State σ (S t) /\ avail t = false /\
                forall u, c <= u < t -> avail u = true
  end.

(** How [update_H] ends: with 1 and [H] updated in place, every temporary
    released; or with 0, the store as it was, and a refused request. *)
Definition update_result (σ : gmap loc obj) (c n k : nat) (H : loc) (R : matrix)
    (ok : bool) (s' : state) : Prop :=
  if ok
  then s' = State (<[H := mat R]> σ) (c + update_ticks n k) /\
       forall t, c <= t < c + update_ticks n k -> avail t = true
  else exists t, c <= t < c + update_ticks n k /\ s' = State σ (S t) /\
                 avail t = false /\ forall u, c <= u < t -> avail u = true.

(** How [symnmf] ends when its behaviour is defined. *)
Definition symnmf_result (σ : gmap loc obj) (c n k : nat) (W H0 : matrix)
    (r : option loc) (s' : state) : Prop :=
  match r with
  | Some l =>
      σ !! l = None /\
      exists t, stops_at n k W H0 t /\
        s' = State (<[l := mat (iterate n k W H0 t)]> σ) (c + symnmf_ticks n k t) /\
        forall u, c <= u < c + symnmf_ticks n k t -> avail u = true
  | None =>
      exists t, c <= t < c + symnmf_ticks n k MAX_ITER /\ s' = State σ (S t) /\
                avail t = false /\ forall u, c <= u < t -> avail u = true
  end.

(** * Values of binary64 *)

(** The value of a double: a sign and a magnitude, or NaN. *)
Definition signed (sx : bool) (x : spec_float) : Prop :=
  match x with
  | S754_zero s | S754_infinity s | S754_finite s _ _ => s = sx
  | S754_nan => False
  end.

(** Zero or finite: neither NaN nor infinite. *)
Definition bounded_value (x : spec_float) : Prop :=
  match x with
  | S754_zero _ | S754_finite _ _ _ => True
  | _ => False
  end.

(** Sign bit clear and not NaN. *)
Definition fnonneg (x : float) : Prop := signed false (Prim2SF x).

(** * How two calls compare *)

(** Two calls that return a pointer end alike: both undefined; or both
    with the null pointer, in the same state; or both with a pointer to
    an object of the same contents, after the same number of requests,
    the rest of memory being the same. *)
Definition same_outcome (x y : option (option loc * state)) : Prop :=
  match x, y with
  | None, None => True
  | Some (None, s1), Some (None, s2) => s1 = s2
  | Some (Some l1, s1), Some (Some l2, s2) =>
      clock s1 = clock s2 /\
      store s1 !! l1 = store s2 !! l2 /\
      delete l1 (store s1) = delete l2 (store s2)
  | _, _ => False
  end.

(** * What the command-line program reads and writes *)

(** The rest of the environment: the files, and the library's conversions
    between text and doubles. *)
Variable fopen : text -> option text.
Variable atof : text -> float.
Variable fmt : float -> text.

(** The lines that successive calls of [fgets] deliver from a stream,
    until it returns the null pointer. *)
Fixpoint lines_of (fuel : nat) (rest : text) : list text :=
  match fuel with
  | O => []
  | S fuel' =>
      match fgets MAX_LINE_LENGTH rest with
      | None => []
      | Some (line, rest') => line :: lines_of fuel' rest'
      end
  end.

Definition file_lines (content : text) : list text :=
  lines_of (length content) content.

(** The tokens that successive calls of [strtok] deliver from a C string,
    until it returns the null pointer. *)
Fixpoint tokens_of (fuel : nat) (s : text) : list text :=
  match fuel with
  | O => []
  | S fuel' =>
      match strtok s with
      | None => []
      | Some (tok, saved) => tok :: tokens_of fuel' saved
      end
  end.

Definition tokens (s : text) : list text := tokens_of (length s) s.

(** The tokens of a line as [read_data_from_file] sees them. *)
Definition fields (line : text) : list text := tokens (c_string line).

(** The number of columns [read_data_from_file] settles on: the number of
    tokens of the first line that has any. *)
Definition columns (ls : list text) : nat :=
  fold_left (fun d line => if decide (d = 0) then length (fields line) else d) ls 0.

(** The matrix [read_data_from_file] builds from the lines [ls] when it
    reads [d] tokens of each. *)
Definition parsed (ls : list text) (d : nat) : matrix :=
  tab2 (length ls) d (fun i j => atof (nth j (fields (nth i ls [])) [])).

(** The text [print_matrix] writes for one row, and for a matrix. *)
Fixpoint join (fs : list text) : text :=
  match fs with
  | [] => []
  | [f] => f
  | f :: fs' => f ++ COMMA :: join fs'
  end.

Definition csv_line (row : list text) : text := join row ++ [LF].

Definition csv (F : list (list text)) : text := concat (map csv_line F).

Definition printed (X : matrix) : text := csv (map (map fmt) X).

(** A field that [strtok] and [fgets] leave in one piece, and a table of
    [d] such fields per row whose lines fit the line buffer. *)
Definition clean (f : text) : Prop :=
  f <> [] /\ (COMMA ∉ f) /\ (LF ∉ f) /\ (NUL ∉ f).

Definition tidy (d : nat) (F : list (list text)) : Prop :=
  Forall (fun row =>
            length row = d /\ Forall clean row /\
            length (csv_line row) < MAX_LINE_LENGTH) F.

(** The tokens of the line written for a row: the newline stays with the
    last field. *)
Fixpoint line_fields (row : list text) : list text :=
  match row with
  | [] => []
  | [f] => [f ++ [LF]]
  | f :: fs => f :: line_fields fs
  end.

(** How [read_data_from_file] ends on a file that [fopen] opens, with
    lines [ls]: with a new matrix of the parsed doubles; or with the null
    pointer, memory as it was, after a refused request; [*n] and [*d] are
    set in both cases. *)
Definition read_result (σ : gmap loc obj) (c : nat) (ls : list text)
    (r : option (option loc * nat * nat)) (s' : state) : Prop :=
  let n := length ls in
  let d := columns ls in
  match r with
  | Some (Some l, n', d') =>
      n' = n /\ d' = d /\ σ !! l = None /\
      s' = State (<[l := mat (parsed ls d)]> σ) (c + S n) /\
      (forall t, c <= t < c + S n -> avail t = true) /\
      forall i, i < n -> d <= length (fields (nth i ls []))
  | Some (None, n', d') =>
      n' = n /\ d' = d /\
      exists t, c <= t < c + S n /\ s' = State σ (S t) /\ avail t = false /\
                (forall u, c <= u < t -> avail u = true) /\
                (t = c -> n = 0) /\
                forall i, c + S i < t -> d <= length (fields (nth i ls []))
  | None => False
  end.

(** The body of the second loop of [read_data_from_file], for the table
    [data] and [d] columns: row [i] is allocated and filled from the next
    line of the stream. *)
Definition read_row (data : option loc) (d i : nat) (rest : text)
    : M (text + option loc) :=
  ok ← match data with
       | Some data => malloc_row avail junk data i d
       | None => undefined
       end;
  if negb ok
  then free_c_array data i ;; ret (inr None)
  else
    match fgets MAX_LINE_LENGTH rest with
    | None => free_c_array data (i + 1) ;; ret (inr None)
    | Some (line, rest') =>
        for_acc 0 d (fun j token =>
          match data, token with
          | Some data, Some (tok, _) =>
              set2 data i j (atof tok) ;;
              ret (strtok_next token)
          | _, _ => undefined
          end) (strtok (c_string line)) ;;
        ret (inl rest')
    end.





(** * Matrices as Python objects *)

(** The rest of the environment: the interpreter's allocator, and its
    conversion of integers. *)
Variable py_avail : nat -> bool.
Variable long_as_double : Z -> option float.

(** A list of floats, and a list of such lists. *)
Definition py_row (row : list float) : pyobj :=
  PyList (map (fun v => Some (PyFloat v)) row).

Definition py_matrix (X : matrix) : pyobj :=
  PyList (map (fun row => Some (py_row row)) X).

(** The matrix [py_list_to_c_array] makes of a list of lists of floats
    when it reads [d] items of each: an item that is missing reads as
    -1.0.  [short d X] tells whether an item is missing. *)
Definition padded (d : nat) (X : matrix) : matrix :=
  tab2 (length X) d (fun i j => nth j (nth i X []) (-1)%float).

Definition short (d : nat) (X : matrix) : bool :=
  existsb (fun row => length row <? d) X.

(** Object requests of a successful [c_array_to_py_list]: the list, and
    for each row its list and its floats. *)
Definition py_ticks (n d : nat) : nat := 1 + n * (1 + d).

(** How [py_list_to_c_array] ends on a list of lists of floats. *)
Definition to_c_result (σ : gmap loc obj) (c d : nat) (X : matrix) (ps : pystate)
    (r : option loc * pystate) (s' : state) : Prop :=
  py_clock (snd r) = py_clock ps /\
  match fst r with
  | Some a =>
      σ !! a = None /\
      s' = State (<[a := mat (padded d X)]> σ) (c + S (length X)) /\
      (forall t, c <= t < c + S (length X) -> avail t = true) /\
      pending (snd r) = pending ps || short d X
  | None =>
      exists t, c <= t < c + S (length X) /\ s' = State σ (S t) /\
                avail t = false /\ forall u, c <= u < t -> avail u = true
  end.

(** How [c_array_to_py_list] ends on an n×d matrix: memory is as it was;
    the result is the list of lists of floats, or null with an exception
    after a refused object. *)
Definition to_py_result (s : state) (n d : nat) (X : matrix) (ps : pystate)
    (r : option pyobj * pystate) (s' : state) : Prop :=
  s' = s /\
  match fst r with
  | Some v =>
      v = py_matrix X /\
      snd r = PyState (pending ps) (py_clock ps + py_ticks n d) /\
      forall t, py_clock ps <= t < py_clock ps + py_ticks n d -> py_avail t = true
  | None =>
      exists t, py_clock ps <= t < py_clock ps + py_ticks n d /\
                snd r = PyState true (S t) /\ py_avail t = false /\
                forall u, py_clock ps <= u < t -> py_avail u = true
  end.


(** How a function of the module ends on lists of lists of floats of the
    right shape: whatever it allocated with [malloc] is released; it
    returns the matrix [R] as a list of lists when no request was refused,
    and [None] when a request for memory or for an object was. *)
Definition py_result (σ : gmap loc obj) (c : nat) (ps : pystate) (R : matrix)
    (r : option pyobj * pystate) (s' : state) : Prop :=
  store s' = σ /\
  ((fst r = Some (py_matrix R) /\ pending (snd r) = pending ps /\
    (forall t, c <= t < clock s' -> avail t = true) /\
    (forall t, py_clock ps <= t < py_clock (snd r) -> py_avail t = true)) \/
   (fst r = Some PyNone /\
    ((exists t, c <= t < clock s' /\ avail t = false) \/
     (exists t, py_clock ps <= t < py_clock (snd r) /\ py_avail t = false)))).

(** * Concrete inputs *)

(** An environment that grants every request, and one that refuses
    exactly the request numbered [t]. *)
Definition granted : nat -> bool := fun _ => true.

Definition refused_at (t : nat) : nat -> bool := fun u => negb (Nat.eqb u t).

(** Fresh memory that happens to hold NaN everywhere. *)
Definition stale : nat -> nat -> float := fun _ _ => nan.

(** The regression input of the update rule, with [W] at address 1 and
    [H] at address 2. *)
Definition W_ex : matrix := [[0; 1]; [1; 0]]%float.

Definition H_ex : matrix := [[1; 0]; [0; 1]]%float.

Definition store_ex : gmap loc obj :=
  <[2%positive := mat H_ex]> (<[1%positive := mat W_ex]> ∅).

(** One point: [n = 1], [d = 1]. *)
Definition point_store : gmap loc obj := <[1%positive := mat [[0%float]]]> ∅.

(** Two points of [R^1] far apart, and two close together. *)
Definition far_points : matrix := [[0]; [1e200]]%float.

Definition far_store : gmap loc obj := <[1%positive := mat far_points]> ∅.

Definition near_points : matrix := [[0]; [1e-200]]%float.

Definition near_store : gmap loc obj := <[1%positive := mat near_points]> ∅.

(** A stand-in for the library's [exp] with the values the C standard
    fixes (Annex F: [exp(±0) = 1], [exp(-inf) = +0]) and a crude step in
    between. *)
Definition step_exp (x : float) : float :=
  if (x <=? 0)%float
  then (if is_zero x then 1 else if is_infinity x then 0 else 0.5)%float
  else 2%float.

(** The end-to-end scenario: three points of [R^2], two of them equal. *)
Definition points_ex : matrix := [[0; 0]; [0; 0]; [10; 10]]%float.

Definition points_store : gmap loc obj := <[1%positive := mat points_ex]> ∅.

(** Fresh memory that happens to hold zero everywhere. *)
Definition blank : nat -> nat -> float := fun _ _ => 0%float.

(** A fixed point of the update rule: [W] all ones (2×2) at address 1,
    [H] all ones (2×1) at address 2. *)
Definition W_ones : matrix := [[1; 1]; [1; 1]]%float.

Definition H_ones : matrix := [[1]; [1]]%float.

Definition ones_store : gmap loc obj :=
  <[2%positive := mat H_ones]> (<[1%positive := mat W_ones]> ∅).

(** Stand-ins for the library's conversions: [atof_digit] reads one
    leading decimal digit, as [atof] does on a one-digit number;
    [fmt_unit] writes 0, 1 and 0.5 as ["%.4f"] does. *)
Definition atof_digit (s : text) : float :=
  match s with
  | "0"%char :: _ => 0
  | "1"%char :: _ => 1
  | "2"%char :: _ => 2
  | "3"%char :: _ => 3
  | "4"%char :: _ => 4
  | "5"%char :: _ => 5
  | "6"%char :: _ => 6
  | "7"%char :: _ => 7
  | "8"%char :: _ => 8
  | "9"%char :: _ => 9
  | _ => 0
  end%float.

Definition fmt_unit (x : float) : text :=
  if (x =? 0)%float then lit "0.0000"
  else if (x =? 1)%float then lit "1.0000"
  else lit "0.5000".

(** Three files: three points of [R^2], two of them equal; a file whose
    second line is short; what [print_matrix] writes for [W_ex]. *)
Definition points_fields : list (list text) :=
  [[lit "0"; lit "0"]; [lit "0"; lit "0"]; [lit "3"; lit "4"]].

Definition ragged_fields : list (list text) := [[lit "0"; lit "0"]; [lit "1"]].

Definition disk (name : text) : option text :=
  if decide (name = lit "points.txt") then Some (csv points_fields)
  else if decide (name = lit "ragged.txt") then Some (csv ragged_fields)
  else if decide (name = lit "w.txt") then Some (csv (map (map fmt_unit) W_ex))
  else None.



(** An interpreter whose integers never convert to a double: the
    examples pass floats only. *)
Definition no_longs : Z -> option float := fun _ => None.

(** The interpreter before the call: no exception pending. *)
Definition py_start : pystate := PyState false 0.

(** Two stores built by inserts and deletes at distinct addresses agree. *)
Ltac store_eq :=
  apply map_eq; intros ?;
  repeat (rewrite lookup_delete || rewrite lookup_insert);
  repeat case_decide; first [congruence | reflexivity].

(** * Facts of binary64 arithmetic *)

Lemma shr_1_nonneg mrs : (0 <= shr_m mrs)%Z -> (0 <= shr_m (shr_1 mrs))%Z.
Proof.
  destruct mrs as [m r s]. simpl.
  destruct m as [|p|p]; [simpl; lia | | lia].
  destruct p; simpl; lia.
Qed.

Lemma iter_shr_1_nonneg p : forall mrs,
  (0 <= shr_m mrs)%Z -> (0 <= shr_m (SpecFloat.iter_pos shr_1 p mrs))%Z.
Proof.
  induction p as [p IH | p IH |]; intros mrs H; simpl.
  - apply IH, IH, shr_1_nonneg, H.
  - apply IH, IH, H.
  - apply shr_1_nonneg, H.
Qed.

Lemma shr_nonneg mrs e n :
  (0 <= shr_m mrs)%Z -> (0 <= shr_m (fst (shr mrs e n)))%Z.
Proof.
  intros H. unfold shr. destruct n; simpl; [exact H | | exact H].
  apply iter_shr_1_nonneg, H.
Qed.

Lemma shr_fexp_nonneg prec emax m e l :
  (0 <= m)%Z -> (0 <= shr_m (fst (shr_fexp prec emax m e l)))%Z.
Proof.
  intros H. unfold shr_fexp. apply shr_nonneg.
  destruct l as [|[| |]]; simpl; exact H.
Qed.

Lemma round_nearest_even_nonneg m l :
  (0 <= m)%Z -> (0 <= round_nearest_even m l)%Z.
Proof.
  intros H. unfold round_nearest_even.
  destruct l as [|[| |]]; [lia | | lia | lia].
  destruct (Z.even m); lia.
Qed.

(** Rounding keeps the sign and never produces NaN. *)
Lemma binary_round_aux_signed prec emax sx mx ex lx :
  (0 <= mx)%Z -> signed sx (binary_round_aux prec emax sx mx ex lx).
Proof.
  intros H. unfold binary_round_aux.
  pose proof (shr_fexp_nonneg prec emax mx ex lx H) as H1.
  destruct (shr_fexp prec emax mx ex lx) as [mrs' e']. simpl in H1.
  pose proof (shr_fexp_nonneg prec emax
                (round_nearest_even (shr_m mrs') (loc_of_shr_record mrs')) e' loc_Exact
                (round_nearest_even_nonneg _ _ H1)) as H2.
  destruct (shr_fexp prec emax _ e' loc_Exact) as [mrs'' e'']. simpl in H2.
  destruct (shr_m mrs'') as [|p|p]; [reflexivity | | lia].
  destruct (Z.leb e'' (emax - prec)); reflexivity.
Qed.

Lemma binary_round_signed prec emax sx mx ex :
  signed sx (binary_round prec emax sx mx ex).
Proof.
  unfold binary_round. destruct (shl_align mx ex _) as [mz ez].
  apply binary_round_aux_signed. lia.
Qed.

Lemma binary_round_aux_opp prec emax sx mx ex lx :
  binary_round_aux prec emax (negb sx) mx ex lx =
  SFopp (binary_round_aux prec emax sx mx ex lx).
Proof.
  unfold binary_round_aux.
  destruct (shr_fexp prec emax mx ex lx) as [mrs' e'].
  destruct (shr_fexp prec emax _ e' loc_Exact) as [mrs'' e''].
  destruct (shr_m mrs'') as [|p|p]; [reflexivity | | reflexivity].
  destruct (Z.leb e'' (emax - prec)); reflexivity.
Qed.

Lemma binary_normalize_opp prec emax m e :
  m <> 0%Z ->
  binary_normalize prec emax (- m) e false =
  SFopp (binary_normalize prec emax m e false).
Proof.
  intros Hm. destruct m as [|p|p]; [congruence | |]; simpl;
    unfold binary_round; destruct (shl_align p e _) as [mz ez].
  - apply (binary_round_aux_opp prec emax false).
  - apply (binary_round_aux_opp prec emax true).
Qed.

Lemma SFmul_opp_opp prec emax x :
  SFmul prec emax (SFopp x) (SFopp x) = SFmul prec emax x x.
Proof. destruct x as [s|s| |s m e]; simpl; try reflexivity; now destruct s. Qed.

(** [(x - y)²] and [(y - x)²] are the same double. *)
Lemma SFsub_square_sym prec emax x y :
  SFmul prec emax (SFsub prec emax x y) (SFsub prec emax x y) =
  SFmul prec emax (SFsub prec emax y x) (SFsub prec emax y x).
Proof.
  destruct x as [sx|sx| |sx mx ex], y as [sy|sy| |sy my ey]; simpl;
    try reflexivity;
    try (destruct sx, sy; reflexivity);
    try (destruct sx; reflexivity); try (destruct sy; reflexivity).
  rewrite (Z.min_comm ey ex).
  set (a := cond_Zopp sx (Zpos (fst (shl_align mx ex (Z.min ex ey))))).
  set (b := cond_Zopp sy (Zpos (fst (shl_align my ey (Z.min ex ey))))).
  destruct (Z.eq_dec (a - b)%Z 0%Z) as [E | E].
  - replace (b - a)%Z with 0%Z by lia. now rewrite E.
  - replace (b - a)%Z with (- (a - b))%Z by lia.
    rewrite binary_normalize_opp by exact E. symmetry. apply SFmul_opp_opp.
Qed.

Lemma SFmul_comm prec emax x y : SFmul prec emax x y = SFmul prec emax y x.
Proof.
  destruct x as [sx|sx| |sx mx ex], y as [sy|sy| |sy my ey]; simpl;
    try reflexivity; try (now rewrite xorb_comm).
  now rewrite xorb_comm, Pos.mul_comm, Z.add_comm.
Qed.

(** A square is never negative, and NaN only for NaN. *)
Lemma SFmul_self_signed prec emax x :
  x <> S754_nan -> signed false (SFmul prec emax x x).
Proof.
  destruct x as [s|s| |s m e]; intros Hx; simpl; try (now destruct s); [congruence |].
  rewrite xorb_nilpotent. apply binary_round_aux_signed. lia.
Qed.

Lemma SFadd_signed_false prec emax x y :
  signed false x -> signed false y -> signed false (SFadd prec emax x y).
Proof.
  destruct x as [sx|sx| |sx mx ex], y as [sy|sy| |sy my ey]; simpl;
    intros Hx Hy; subst; try reflexivity; try contradiction.
  set (a := fst (shl_align mx ex (Z.min ex ey))).
  set (b := fst (shl_align my ey (Z.min ex ey))).
  simpl. apply binary_round_signed.
Qed.

Lemma SFsub_bounded prec emax x y :
  bounded_value x -> bounded_value y -> SFsub prec emax x y <> S754_nan.
Proof.
  destruct x as [sx|sx| |sx mx ex], y as [sy|sy| |sy my ey]; simpl;
    intros Hx Hy; try contradiction; try discriminate.
  - destruct sx, sy; discriminate.
  - set (m := (cond_Zopp sx _ - cond_Zopp sy _)%Z).
    destruct m as [|p|p]; simpl; [discriminate | |].
    + pose proof (binary_round_signed prec emax false p (Z.min ex ey)) as H.
      intros E. now rewrite E in H.
    + pose proof (binary_round_signed prec emax true p (Z.min ex ey)) as H.
      intros E. now rewrite E in H.
Qed.

Lemma SFopp_signed s x : signed s x -> signed (negb s) (SFopp x).
Proof. destruct x; simpl; intros H; subst; auto. Qed.

Lemma SFdiv_signed prec emax sx x sy my ey :
  signed sx x ->
  signed (xorb sx sy) (SFdiv prec emax x (S754_finite sy my ey)).
Proof.
  destruct x as [s|s| |s mx ex]; simpl; intros Hx; subst; try reflexivity;
    [contradiction |].
  unfold SFdiv_core_binary.
  set (m' := match (ex - ey - _)%Z with Z0 => _ | Zpos _ => _ | Zneg _ => _ end).
  assert (Hm' : (0 <= m')%Z).
  { unfold m'. destruct (ex - ey - _)%Z; [lia | | lia].
    rewrite Z.shiftl_mul_pow2 by lia. apply Z.mul_nonneg_nonneg; [lia |].
    apply Z.pow_nonneg. lia. }
  pose proof (Z_div_mod m' (Zpos my) ltac:(lia)) as Hdiv.
  destruct (Z.div_eucl m' (Zpos my)) as [q r].
  apply binary_round_aux_signed. nia.
Qed.

Lemma SFleb_signed_true x : signed true x -> SFleb x (S754_zero false) = true.
Proof. destruct x; simpl; intros H; subst; try reflexivity; contradiction. Qed.

Lemma SFcompare_refl x : x <> S754_nan -> SFcompare x x = Some Eq.
Proof.
  destruct x as [s|s| |s m e]; intros H; simpl; try reflexivity;
    [now destruct s | congruence |].
  destruct s; rewrite Z.compare_refl;
    change (Pos.compare_cont Eq m m) with (Pos.compare m m);
    now rewrite Pos.compare_refl.
Qed.

(** ** The same facts on primitive floats *)

Lemma Prim2SF_zero : Prim2SF 0%float = S754_zero false.
Proof. reflexivity. Qed.

Lemma fmul_comm (x y : float) : (x * y)%float = (y * x)%float.
Proof. apply Prim2SF_inj. rewrite !FloatAxioms.mul_spec. apply SFmul_comm. Qed.

Lemma fsub_square_sym (a b : float) :
  ((a - b) * (a - b))%float = ((b - a) * (b - a))%float.
Proof.
  apply Prim2SF_inj. rewrite !FloatAxioms.mul_spec, !FloatAxioms.sub_spec.
  apply SFsub_square_sym.
Qed.

Lemma is_nan_spec (x : float) : is_nan x = true <-> Prim2SF x = S754_nan.
Proof.
  unfold is_nan. rewrite FloatAxioms.eqb_spec. unfold SFeqb.
  destruct (Prim2SF x) as [s|s| |s m e] eqn:E.
  - rewrite SFcompare_refl by discriminate. simpl. split; discriminate.
  - rewrite SFcompare_refl by discriminate. simpl. split; discriminate.
  - simpl. split; reflexivity.
  - rewrite SFcompare_refl by discriminate. simpl. split; discriminate.
Qed.

Lemma is_nan_false (x : float) : is_nan x = false <-> Prim2SF x <> S754_nan.
Proof.
  rewrite <- is_nan_spec. destruct (is_nan x); split; congruence.
Qed.

Lemma is_zero_spec (x : float) :
  is_zero x = true <-> exists s, Prim2SF x = S754_zero s.
Proof.
  unfold is_zero. rewrite FloatAxioms.eqb_spec.
  change (Prim2SF zero) with (S754_zero false). unfold SFeqb.
  destruct (Prim2SF x) as [s|s| |s m e]; simpl.
  - split; eauto.
  - destruct s; split; try discriminate; intros [? ?]; discriminate.
  - split; try discriminate; intros [? ?]; discriminate.
  - destruct s; split; try discriminate; intros [? ?]; discriminate.
Qed.

Lemma is_finite_spec (x : float) :
  is_finite x = true <-> bounded_value (Prim2SF x).
Proof.
  unfold is_finite, is_infinity.
  assert (Hnan := is_nan_spec x).
  rewrite FloatAxioms.eqb_spec, FloatAxioms.abs_spec.
  change (Prim2SF infinity) with (S754_infinity false).
  destruct (Prim2SF x) as [s|s| |s m e]; simpl in *.
  - destruct (is_nan x); [destruct Hnan as [H _]; discriminate (H eq_refl) |].
    simpl. split; auto.
  - destruct (is_nan x); simpl; split; try discriminate; contradiction.
  - destruct Hnan as [_ ->]; [| reflexivity]. simpl. split; [discriminate | contradiction].
  - destruct (is_nan x); [destruct Hnan as [H _]; discriminate (H eq_refl) |].
    simpl. split; auto.
Qed.

(** Zero times a finite double is zero. *)
Lemma zero_mul_finite (h f : float) :
  is_zero h = true -> is_finite f = true -> is_zero (h * f)%float = true.
Proof.
  rewrite !is_zero_spec, is_finite_spec, FloatAxioms.mul_spec. intros [s ->].
  destruct (Prim2SF f) as [sf|sf| |sf m e]; simpl; intros Hf; try contradiction; eauto.
Qed.

(** Zero times an infinity or NaN is NaN. *)
Lemma zero_mul_not_finite (h f : float) :
  is_zero h = true -> is_finite f = false -> is_nan (h * f)%float = true.
Proof.
  intros Hh Hf. apply is_zero_spec in Hh as [s Hs].
  rewrite is_nan_spec, FloatAxioms.mul_spec, Hs.
  assert (Hb : ~ bounded_value (Prim2SF f)).
  { rewrite <- is_finite_spec. congruence. }
  destruct (Prim2SF f) as [sf|sf| |sf m e]; simpl in *; try reflexivity;
    exfalso; apply Hb; exact I.
Qed.

(** [0.0 / x] is [0.0] for a positive [x] or [+inf], and NaN when [x] is
    zero or NaN. *)
Lemma zero_div_positive (x : float) :
  signed false (Prim2SF x) -> is_zero x = false -> (0 / x)%float = 0%float.
Proof.
  intros Hs Hz. apply Prim2SF_inj. rewrite FloatAxioms.div_spec, Prim2SF_zero.
  assert (Hnz : ~ exists s, Prim2SF x = S754_zero s).
  { rewrite <- is_zero_spec. congruence. }
  destruct (Prim2SF x) as [s|s| |s m e]; simpl in *; subst; try reflexivity.
  - exfalso. eauto.
  - contradiction.
Qed.

Lemma zero_div_zero (x : float) :
  is_zero x = true -> is_nan (0 / x)%float = true.
Proof.
  intros [s Hs]%is_zero_spec.
  now rewrite is_nan_spec, FloatAxioms.div_spec, Prim2SF_zero, Hs.
Qed.

(** [sqrt] of a number that is not negative keeps it so. *)
Lemma sqrt_signed (x : float) :
  signed false (Prim2SF x) -> signed false (Prim2SF (sqrt x)).
Proof.
  rewrite FloatAxioms.sqrt_spec. destruct (Prim2SF x) as [s|s| |s m e]; simpl; intros H;
    subst; try reflexivity; try contradiction.
  unfold SF64sqrt, SFsqrt.
  destruct (SFsqrt_core_binary prec emax (Z.pos m) e) as [[mz ez] lz] eqn:E.
  apply binary_round_aux_signed.
  unfold SFsqrt_core_binary in E.
  set (m' := match (e - 2 * _)%Z with Z0 => _ | Zpos _ => _ | Zneg _ => _ end) in E.
  pose proof (Z.sqrtrem_spec m') as Hs.
  destruct (Z.sqrtrem m') as [q r]. injection E as <- _ _.
  assert (Hm' : (0 <= m')%Z).
  { unfold m'. destruct (e - 2 * _)%Z; [lia | | lia].
    rewrite Z.shiftl_mul_pow2 by lia. apply Z.mul_nonneg_nonneg; [lia |].
    apply Z.pow_nonneg. lia. }
  specialize (Hs Hm'). lia.
Qed.

Lemma fnonneg_zero : fnonneg 0%float.
Proof. reflexivity. Qed.

Lemma fnonneg_square (d : float) : is_nan d = false -> fnonneg (d * d)%float.
Proof.
  intros Hd. unfold fnonneg. rewrite FloatAxioms.mul_spec.
  apply SFmul_self_signed. now apply is_nan_false.
Qed.

Lemma fnonneg_add (s q : float) : fnonneg s -> fnonneg q -> fnonneg (s + q)%float.
Proof. unfold fnonneg. rewrite FloatAxioms.add_spec. apply SFadd_signed_false. Qed.

Lemma fsub_finite (a b : float) :
  is_finite a = true -> is_finite b = true -> is_nan (a - b)%float = false.
Proof.
  rewrite !is_finite_spec, is_nan_false, FloatAxioms.sub_spec. apply SFsub_bounded.
Qed.

(** [- s / 2.0] for a [s] that is not negative: at most zero, not NaN. *)
Lemma neg_half_nonpos (s : float) : fnonneg s -> (- s / 2 <=? 0)%float = true.
Proof.
  intros H.
  rewrite FloatAxioms.leb_spec, Prim2SF_zero, FloatAxioms.div_spec, FloatAxioms.opp_spec.
  apply SFleb_signed_true.
  change (Prim2SF 2%float) with (S754_finite false 4503599627370496 (-51)).
  apply (SFdiv_signed prec emax true _ false), (SFopp_signed false), H.
Qed.

(** A finite double minus itself is [+0]. *)
Lemma fsub_diag (a : float) : is_finite a = true -> (a - a)%float = 0%float.
Proof.
  rewrite is_finite_spec. intros H. apply Prim2SF_inj.
  rewrite FloatAxioms.sub_spec, Prim2SF_zero.
  destruct (Prim2SF a) as [s|s| |s m e]; simpl in *; try contradiction.
  - now destruct s.
  - now rewrite Z.min_id, Z.sub_diag.
Qed.

(** * Reasoning about computations *)

Lemma wp_run {A} (m : M A) s Q :
  wp m s Q <-> exists a s', m s = Some (a, s') /\ Q a s'.
Proof.
  unfold wp. destruct (m s) as [[a s']|].
  - split; [eauto | intros (a' & s'' & E & HQ); congruence].
  - split; [tauto | intros (a' & s'' & E & _); discriminate].
Qed.

Lemma wp_ret {A} (a : A) s (Q : A -> state -> Prop) :
  Q a s -> wp (mret a) s Q.
Proof. exact (fun H => H). Qed.

Lemma wp_bind {A B} (m : M A) (k : A -> M B) s Q :
  wp m s (fun a s' => wp (k a) s' Q) -> wp (m ≫= k) s Q.
Proof.
  unfold wp, mbind, M_bind, bind. destruct (m s) as [[a s']|]; auto.
Qed.

Lemma wp_wand {A} (m : M A) s (P Q : A -> state -> Prop) :
  wp m s P -> (forall a s', P a s' -> Q a s') -> wp m s Q.
Proof.
  unfold wp. destruct (m s) as [[a s']|]; auto.
Qed.

(** Loop rules: an invariant [I j] holds before iteration [j]. *)
Lemma wp_for_ (I : nat -> state -> Prop) body cnt : forall i s,
  I i s ->
  (forall j s', i <= j < i + cnt -> I j s' ->
     wp (body j) s' (fun _ s'' => I (S j) s'')) ->
  wp (for_ i cnt body) s (fun _ s' => I (i + cnt) s').
Proof.
  induction cnt as [|cnt IH]; intros i s Hi Hbody; simpl.
  - apply wp_ret. now rewrite Nat.add_0_r.
  - apply wp_bind. eapply wp_wand; [apply Hbody; [lia | exact Hi] |].
    intros [] s' Hs'. simpl in Hs'.
    replace (i + S cnt) with (S i + cnt) by lia.
    apply IH; [exact Hs' |]. intros j s'' Hj; apply Hbody; lia.
Qed.

Lemma wp_for_acc {A} (I : nat -> A -> state -> Prop) body cnt : forall i (a : A) s,
  I i a s ->
  (forall j b s', i <= j < i + cnt -> I j b s' ->
     wp (body j b) s' (fun b' s'' => I (S j) b' s'')) ->
  wp (for_acc i cnt body a) s (fun b s' => I (i + cnt) b s').
Proof.
  induction cnt as [|cnt IH]; intros i a s Hi Hbody; simpl.
  - apply wp_ret. now rewrite Nat.add_0_r.
  - apply wp_bind. eapply wp_wand; [apply Hbody; [lia | exact Hi] |].
    intros b s' Hs'. simpl in Hs'.
    replace (i + S cnt) with (S i + cnt) by lia.
    apply IH; [exact Hs' |]. intros j b' s'' Hj; apply Hbody; lia.
Qed.

(** For a loop that may leave early: [I j] holds before iteration [j],
    [B] after a [break], [Q r] after a [return r]. *)
Lemma wp_for_ctl {R} (I : nat -> state -> Prop) (B : state -> Prop)
    (Q : R -> state -> Prop) body cnt : forall i s,
  I i s ->
  (forall j s', i <= j < i + cnt -> I j s' ->
     wp (body j) s' (fun x s'' =>
       match x with
       | Next => I (S j) s''
       | Break => B s''
       | Return r => Q r s''
       end)) ->
  wp (for_ctl i cnt body) s (fun x s' =>
    match x with
    | None => I (i + cnt) s' \/ B s'
    | Some r => Q r s'
    end).
Proof.
  induction cnt as [|cnt IH]; intros i s Hi Hbody; simpl.
  - apply wp_ret. left. now rewrite Nat.add_0_r.
  - apply wp_bind. eapply wp_wand; [apply Hbody; [lia | exact Hi] |].
    intros [| |r] s' Hs'; simpl in Hs'.
    + replace (i + S cnt) with (S i + cnt) by lia.
      apply IH; [exact Hs' |]. intros j s'' Hj; apply Hbody; lia.
    + apply wp_ret. now right.
    + apply wp_ret. exact Hs'.
Qed.

(** Rules for the memory primitives. *)
Lemma wp_get2 a i j σ c t r v (Q : float -> state -> Prop) :
  σ !! a = Some (Table t) -> t !! i = Some (Row r) -> r !! j = Some v ->
  Q v (State σ c) -> wp (get2 a i j) (State σ c) Q.
Proof.
  intros Ha Hi Hj HQ. unfold wp, get2; simpl. now rewrite Ha, Hi, Hj.
Qed.

Lemma wp_set2 a i j v σ c t r (Q : unit -> state -> Prop) :
  σ !! a = Some (Table t) -> t !! i = Some (Row r) -> j < length r ->
  Q tt (State (<[a := Table (<[i := Row (<[j := v]> r)]> t)]> σ) c) ->
  wp (set2 a i j v) (State σ c) Q.
Proof.
  intros Ha Hi Hj HQ. unfold wp, set2; simpl. rewrite Ha, Hi.
  now rewrite decide_True by exact Hj.
Qed.

Lemma wp_get1 a i σ c r v (Q : float -> state -> Prop) :
  σ !! a = Some (Cells r) -> r !! i = Some v ->
  Q v (State σ c) -> wp (get1 a i) (State σ c) Q.
Proof.
  intros Ha Hi HQ. unfold wp, get1; simpl. now rewrite Ha, Hi.
Qed.

Lemma wp_set1 a i v σ c r (Q : unit -> state -> Prop) :
  σ !! a = Some (Cells r) -> i < length r ->
  Q tt (State (<[a := Cells (<[i := v]> r)]> σ) c) ->
  wp (set1 a i v) (State σ c) Q.
Proof.
  intros Ha Hi HQ. unfold wp, set1; simpl. rewrite Ha.
  now rewrite decide_True by exact Hi.
Qed.

Lemma wp_free_block a σ c x (Q : unit -> state -> Prop) :
  σ !! a = Some x -> Q tt (State (delete a σ) c) ->
  wp (free_block a) (State σ c) Q.
Proof.
  intros Ha HQ. unfold wp, free_block; simpl. now rewrite Ha.
Qed.

(** [free_c_array(a, cnt)] is defined as soon as the first [cnt] slots of
    [a] were initialised (to a row or to null); it removes the table. *)
Lemma wp_free_c_array a cnt σ c t (Q : unit -> state -> Prop) :
  σ !! a = Some (Table t) ->
  (forall j, j < cnt -> exists x, t !! j = Some x /\ x <> Wild) ->
  Q tt (State (delete a σ) c) ->
  wp (free_c_array (Some a) cnt) (State σ c) Q.
Proof.
  intros Ha Hinit HQ. unfold free_c_array. apply wp_bind.
  eapply wp_wand.
  - apply (wp_for_ (fun j s' => exists t',
             s' = State (<[a := Table t']> σ) c /\
             forall i, j <= i -> t' !! i = t !! i)).
    + exists t. split; [now rewrite insert_id | auto].
    + intros j s' Hj (t' & -> & Hsame). simpl in Hj.
      destruct (Hinit j) as (x & Hx & Hnw); [lia |].
      unfold wp, free_row; simpl. rewrite lookup_insert_eq, Hsame, Hx by lia.
      destruct x as [| |r]; [congruence | |].
      * exists t'. split; [reflexivity | intros i Hi; apply Hsame; lia].
      * exists (<[j := Wild]> t'). split; [now rewrite insert_insert_eq |].
        intros i Hi. rewrite list_lookup_insert_ne by lia. apply Hsame; lia.
  - intros [] s' (t' & -> & _). simpl.
    eapply wp_free_block; [apply lookup_insert_eq |].
    now rewrite delete_insert_eq.
Qed.

(** * Lists and tables *)

Lemma length_tab {A} n (f : nat -> A) : length (tab n f) = n.
Proof. unfold tab. now rewrite length_map, length_seq. Qed.

Lemma tab_S {A} n (f : nat -> A) : tab (S n) f = tab n f ++ [f n].
Proof. unfold tab. now rewrite seq_S, map_app. Qed.

Lemma lookup_tab {A} n (f : nat -> A) i : i < n -> tab n f !! i = Some (f i).
Proof.
  intros Hi. unfold tab. rewrite list_lookup_fmap.
  now rewrite lookup_seq_lt by exact Hi.
Qed.

Lemma nth_tab {A} n (f : nat -> A) i d : i < n -> nth i (tab n f) d = f i.
Proof.
  intros Hi. apply nth_lookup_Some with (d := d). now apply lookup_tab.
Qed.

Lemma entry_tab2 n k f i j : i < n -> j < k -> entry (tab2 n k f) i j = f i j.
Proof.
  intros Hi Hj. unfold entry, tab2. now rewrite nth_tab, nth_tab.
Qed.

Lemma shaped_tab2 n k f : shaped n k (tab2 n k f).
Proof.
  split; [apply length_tab |]. unfold tab2, tab.
  apply Forall_forall. intros r Hr. apply list_elem_of_fmap in Hr as (i & -> & _).
  apply length_tab.
Qed.

Lemma shaped_row n k X i :
  shaped n k X -> i < n -> X !! i = Some (nth i X []) /\ length (nth i X []) = k.
Proof.
  intros [Hn Hk] Hi.
  assert (Hl : X !! i = Some (nth i X [])).
  { destruct (nth_lookup_or_length X i []) as [H|H]; [exact H | lia]. }
  split; [exact Hl |].
  rewrite Forall_forall in Hk. apply Hk. eapply list_elem_of_lookup_2, Hl.
Qed.

(** ** Tables under construction *)

Lemma cursor_lookup {A} (pre post : list A) x i :
  length pre = i -> (pre ++ x :: post) !! i = Some x.
Proof. intros <-. apply list_lookup_middle. reflexivity. Qed.

Lemma cursor_insert {A} (pre post : list A) x y i :
  length pre = i -> <[i := y]> (pre ++ x :: post) = pre ++ y :: post.
Proof.
  intros <-. rewrite insert_app_r_alt by lia. now rewrite Nat.sub_diag.
Qed.

Lemma cursor_length {A} (pre post : list A) x i :
  length pre = i -> i < length (pre ++ x :: post).
Proof. intros <-. rewrite length_app. simpl. lia. Qed.

Lemma rows_lookup (X : matrix) rest i :
  i < length X -> (map Row X ++ rest) !! i = Some (Row (nth i X [])).
Proof.
  intros Hi. rewrite lookup_app_l by now rewrite length_map.
  rewrite list_lookup_fmap.
  destruct (nth_lookup_or_length X i []) as [-> | ?]; [reflexivity | lia].
Qed.

Lemma rows_init (X : matrix) rest cnt :
  cnt <= length X ->
  forall j, j < cnt -> exists x, (map Row X ++ rest) !! j = Some x /\ x <> Wild.
Proof.
  intros Hc j Hj. eexists. split; [apply rows_lookup; lia | discriminate].
Qed.

Lemma mat_init (X : matrix) n k :
  shaped n k X ->
  forall j, j < n -> exists x, map Row X !! j = Some x /\ x <> Wild.
Proof.
  intros [Hn _] j Hj. rewrite <- (app_nil_r (map Row X)).
  apply rows_init with (cnt := n); lia.
Qed.

Lemma fill_step (f : nat -> float) (r0 : list float) j :
  j < length r0 ->
  <[j := f j]> (tab j f ++ drop j r0) = tab (S j) f ++ drop (S j) r0.
Proof.
  intros Hj. destruct (lookup_lt_is_Some_2 r0 j Hj) as [x Hx].
  rewrite (drop_S r0 x j Hx).
  rewrite (cursor_insert (tab j f) (drop (S j) r0) x (f j) j (length_tab j f)).
  rewrite tab_S, <- app_assoc. reflexivity.
Qed.

(** ** Rules for allocation *)

Lemma wp_malloc_table n σ c (Q : option loc -> state -> Prop) :
  (avail c = true -> forall l, σ !! l = None ->
     Q (Some l) (State (<[l := Table (replicate n Wild)]> σ) (S c))) ->
  (avail c = false -> Q None (State σ (S c))) ->
  wp (malloc_table avail n) (State σ c) Q.
Proof.
  intros Hok Hfail. unfold wp, malloc_table; simpl.
  destruct (avail c) eqn:E; [| now apply Hfail].
  apply Hok; [reflexivity |]. apply not_elem_of_dom, is_fresh.
Qed.

Lemma wp_calloc_cells n σ c (Q : option loc -> state -> Prop) :
  (avail c = true -> forall l, σ !! l = None ->
     Q (Some l) (State (<[l := Cells (replicate n 0%float)]> σ) (S c))) ->
  (avail c = false -> Q None (State σ (S c))) ->
  wp (calloc_cells avail n) (State σ c) Q.
Proof.
  intros Hok Hfail. unfold wp, calloc_cells; simpl.
  destruct (avail c) eqn:E; [| now apply Hfail].
  apply Hok; [reflexivity |]. apply not_elem_of_dom, is_fresh.
Qed.

Lemma wp_calloc_row a pre post i k σ c (Q : bool -> state -> Prop) :
  length pre = i ->
  (avail c = true ->
     Q true (State (<[a := Table (pre ++ Row (replicate k 0%float) :: post)]> σ) (S c))) ->
  (avail c = false ->
     Q false (State (<[a := Table (pre ++ Null :: post)]> σ) (S c))) ->
  wp (calloc_row avail a i k) (State (<[a := Table (pre ++ Wild :: post)]> σ) c) Q.
Proof.
  intros Hi Hok Hfail. unfold wp, calloc_row, set_slot, mbind, M_bind, bind; simpl.
  destruct (avail c) eqn:E; rewrite lookup_insert_eq;
    rewrite decide_True by (now apply cursor_length);
    simpl; rewrite insert_insert_eq, (cursor_insert _ _ _ _ _ Hi); auto.
Qed.

Lemma wp_malloc_row a pre post i k σ c (Q : bool -> state -> Prop) :
  length pre = i ->
  (avail c = true -> forall r0, length r0 = k ->
     Q true (State (<[a := Table (pre ++ Row r0 :: post)]> σ) (S c))) ->
  (avail c = false ->
     Q false (State (<[a := Table (pre ++ Null :: post)]> σ) (S c))) ->
  wp (malloc_row avail junk a i k) (State (<[a := Table (pre ++ Wild :: post)]> σ) c) Q.
Proof.
  intros Hi Hok Hfail. unfold wp, malloc_row, set_slot, mbind, M_bind, bind; simpl.
  destruct (avail c) eqn:E; rewrite lookup_insert_eq;
    rewrite decide_True by (now apply cursor_length);
    simpl; rewrite insert_insert_eq, (cursor_insert _ _ _ _ _ Hi); auto.
  apply Hok; [reflexivity |]. now rewrite length_map, length_seq.
Qed.

(** ** Reading and writing the row under the cursor *)

Lemma wp_get2_cur a pre post r i j v σ c (Q : float -> state -> Prop) :
  length pre = i -> r !! j = Some v ->
  Q v (State (<[a := Table (pre ++ Row r :: post)]> σ) c) ->
  wp (get2 a i j) (State (<[a := Table (pre ++ Row r :: post)]> σ) c) Q.
Proof.
  intros Hi Hj HQ.
  eapply wp_get2; [apply lookup_insert_eq | now apply cursor_lookup | exact Hj | exact HQ].
Qed.

Lemma wp_set2_cur a pre post r i j v σ c (Q : unit -> state -> Prop) :
  length pre = i -> j < length r ->
  Q tt (State (<[a := Table (pre ++ Row (<[j := v]> r) :: post)]> σ) c) ->
  wp (set2 a i j v) (State (<[a := Table (pre ++ Row r :: post)]> σ) c) Q.
Proof.
  intros Hi Hj HQ.
  eapply wp_set2; [apply lookup_insert_eq | now apply cursor_lookup | exact Hj |].
  now rewrite insert_insert_eq, (cursor_insert _ _ _ _ _ Hi).
Qed.

(** Reading a matrix that the store holds. *)
Lemma wp_get2_holds a n k X i j σ c (Q : float -> state -> Prop) :
  holds σ a n k X -> i < n -> j < k ->
  Q (entry X i j) (State σ c) -> wp (get2 a i j) (State σ c) Q.
Proof.
  intros [Ha Hsh] Hi Hj HQ. destruct (shaped_row n k X i Hsh Hi) as [Hr Hl].
  eapply wp_get2; [exact Ha | | | exact HQ].
  - rewrite list_lookup_fmap, Hr. reflexivity.
  - unfold entry.
    destruct (nth_lookup_or_length (nth i X []) j 0%float) as [-> | ?];
      [reflexivity | lia].
Qed.

Lemma holds_insert_ne σ a b x n k X :
  a <> b -> holds σ a n k X -> holds (<[b := x]> σ) a n k X.
Proof.
  intros Hne [Ha Hsh]. split; [| exact Hsh]. now rewrite lookup_insert_ne.
Qed.

Lemma holds_fresh σ a l n k X : holds σ a n k X -> σ !! l = None -> a <> l.
Proof. intros [Ha _] Hl ->. congruence. Qed.

(** ** Filling a row, building a table *)

(** A loop that stores [f j] into cell [j] of the row under the cursor,
    for [j] from 0 to [k - 1], leaves the row equal to [tab k f]. *)
Lemma wp_fill a k (f : nat -> float) (body : nat -> M unit) pre post r0 σ c :
  length r0 = k ->
  (forall j r, j < k -> length r = k ->
     r = tab j f ++ drop j r0 ->
     wp (body j) (State (<[a := Table (pre ++ Row r :: post)]> σ) c)
        (fun _ s' => s' = State (<[a := Table (pre ++ Row (<[j := f j]> r) :: post)]> σ) c)) ->
  wp (for_ 0 k body) (State (<[a := Table (pre ++ Row r0 :: post)]> σ) c)
     (fun _ s' => s' = State (<[a := Table (pre ++ Row (tab k f) :: post)]> σ) c).
Proof.
  intros Hr0 Hbody. eapply wp_wand.
  - apply (wp_for_ (fun j s' =>
      s' = State (<[a := Table (pre ++ Row (tab j f ++ drop j r0) :: post)]> σ) c)).
    + reflexivity.
    + intros j s' Hj ->. simpl in Hj.
      eapply wp_wand; [apply Hbody; [lia | | reflexivity] |].
      * rewrite length_app, length_tab, length_drop. lia.
      * intros [] s'' ->. now rewrite fill_step by lia.
  - intros [] s' ->. simpl.
    now rewrite drop_ge, app_nil_r by lia.
Qed.

(** A loop that completes one row of a fresh table per iteration, or
    returns null after releasing everything when the row cannot be
    allocated.  Iteration [i] makes the [c + i]-th allocation request. *)
Lemma wp_build a n (g : nat -> list float) (body : nat -> M (ctl (option loc)))
    σ σf c :
  (forall i, i < n ->
     wp (body i)
        (State (<[a := Table (map Row (tab i g) ++ Wild :: replicate (n - S i) Wild)]> σ)
               (c + i))
        (fun x s' =>
           match x with
           | Next =>
               avail (c + i) = true /\
               s' = State (<[a := Table (map Row (tab i g) ++ Row (g i)
                                          :: replicate (n - S i) Wild)]> σ) (S (c + i))
           | Return r => r = None /\ avail (c + i) = false /\ s' = State σf (S (c + i))
           | Break => False
           end)) ->
  wp (for_ctl 0 n body) (State (<[a := Table (replicate n Wild)]> σ) c)
     (fun x s' =>
        match x with
        | None =>
            s' = State (<[a := mat (tab n g)]> σ) (c + n) /\
            forall t, c <= t < c + n -> avail t = true
        | Some r =>
            r = None /\
            exists i, i < n /\ s' = State σf (S (c + i)) /\ avail (c + i) = false /\
                      forall t, c <= t < c + i -> avail t = true
        end).
Proof.
  intros Hbody. eapply wp_wand.
  - apply (wp_for_ctl
      (fun i s' =>
         i <= n /\
         s' = State (<[a := Table (map Row (tab i g) ++ replicate (n - i) Wild)]> σ) (c + i) /\
         forall t, c <= t < c + i -> avail t = true)
      (fun _ => False)
      (fun r s' =>
         r = None /\
         exists i, i < n /\ s' = State σf (S (c + i)) /\ avail (c + i) = false /\
                   forall t, c <= t < c + i -> avail t = true)).
    + split; [lia |]. split; [| intros t Ht; lia].
      now rewrite Nat.sub_0_r, Nat.add_0_r.
    + intros i s' Hi (_ & -> & Hav). simpl in Hi.
      replace (n - i) with (S (n - S i)) by lia. simpl replicate.
      eapply wp_wand; [apply Hbody; lia |].
      intros [| |r] s'' Hs''; [| exact Hs'' |].
      * destruct Hs'' as (Hok & ->). split; [lia |]. split.
        -- rewrite tab_S, map_app, <- app_assoc, Nat.add_succ_r. reflexivity.
        -- intros t Ht. destruct (decide (t = c + i)) as [-> | Hne];
             [exact Hok | apply Hav; lia].
      * destruct Hs'' as (-> & Hno & ->). split; [reflexivity |].
        exists i. repeat split; [lia | exact Hno | exact Hav].
  - intros [r|] s' Hs'; simpl in Hs'.
    + exact Hs'.
    + destruct Hs' as [(_ & -> & Hav) | []].
      rewrite Nat.sub_diag, app_nil_r. simpl. split; [reflexivity | exact Hav].
Qed.

(** * The functions of [symnmf.c] meet their descriptions *)

Lemma alloc_result_build σ c n R l (x : option (option loc)) s' :
  σ !! l = None -> avail c = true ->
  match x with
  | None =>
      s' = State (<[l := mat R]> σ) (S c + n) /\
      forall t, S c <= t < S c + n -> avail t = true
  | Some r =>
      r = None /\
      exists i, i < n /\ s' = State σ (S (S c + i)) /\ avail (S c + i) = false /\
                forall t, S c <= t < S c + i -> avail t = true
  end ->
  alloc_result σ c (S n) R (match x with Some v => v | None => Some l end) s'.
Proof.
  intros Hl Hc. destruct x as [r|].
  - intros (-> & i & Hi & -> & Hno & Hav). exists (S c + i).
    repeat split; [lia | lia | exact Hno |].
    intros u Hu. destruct (decide (u = c)) as [-> | ?]; [exact Hc | apply Hav; lia].
  - intros (-> & Hav). split; [exact Hl |]. split; [f_equal; lia |].
    intros t Ht. destruct (decide (t = c)) as [-> | ?]; [exact Hc | apply Hav; lia].
Qed.

Lemma alloc_result_refused σ c n R :
  avail c = false -> alloc_result σ c (S n) R None (State σ (S c)).
Proof.
  intros Hc. exists c. repeat split; [lia | lia | exact Hc | intros u Hu; lia].
Qed.

Lemma dot_step m A B i j :
  dot (S m) A B i j = (dot m A B i j + entry A i m * entry B m j)%float.
Proof. unfold dot. now rewrite seq_S, fold_left_app. Qed.

Lemma matrix_multiply_spec A B n m p XA XB σ c :
  holds σ A n m XA -> holds σ B m p XB ->
  wp (matrix_multiply avail A B n m p) (State σ c)
     (alloc_result σ c (S n) (mmul n m p XA XB)).
Proof.
  intros HA HB. unfold matrix_multiply.
  apply wp_bind, wp_malloc_table; [intros Hc C HC | intros Hc].
  2: { apply wp_ret, alloc_result_refused, Hc. }
  assert (HAC := holds_fresh _ _ _ _ _ _ HA HC).
  assert (HBC := holds_fresh _ _ _ _ _ _ HB HC).
  apply wp_bind. eapply wp_wand.
  - apply wp_build with (g := fun i => tab p (dot m XA XB i)) (σf := σ).
    intros i Hi.
    set (pre := map Row (tab i (fun i => tab p (dot m XA XB i)))).
    set (post := replicate (n - S i) Wild).
    assert (Hpre : length pre = i) by (unfold pre; now rewrite length_map, length_tab).
    apply wp_bind, wp_calloc_row; [exact Hpre | intros Hok | intros Hno]; simpl negb; cbv iota.
    + apply wp_bind. eapply wp_wand.
      * apply wp_fill with (f := dot m XA XB i); [apply length_replicate |].
        intros j r Hj Hr _.
        apply wp_bind, wp_set2_cur; [exact Hpre | lia |].
        eapply wp_wand.
        -- apply (wp_for_ (fun kk s' => s' =
             State (<[C := Table (pre ++ Row (<[j := dot kk XA XB i j]> r) :: post)]> σ) (S (S c + i)))).
           ++ reflexivity.
           ++ intros kk s' Hkk ->. simpl in Hkk.
              apply wp_bind. eapply wp_get2_cur;
                [exact Hpre | apply list_lookup_insert_eq; lia |].
              apply wp_bind. eapply wp_get2_holds;
                [apply holds_insert_ne, HA; exact HAC | lia | lia |].
              apply wp_bind. eapply wp_get2_holds;
                [apply holds_insert_ne, HB; exact HBC | lia | lia |].
              apply wp_set2_cur; [exact Hpre | rewrite length_insert; lia |].
              now rewrite list_insert_insert_eq, dot_step.
        -- intros [] s' ->. reflexivity.
      * intros [] s' ->. apply wp_ret. split; [exact Hok | reflexivity].
    + apply wp_bind. eapply wp_free_c_array;
        [apply lookup_insert_eq | unfold pre; apply rows_init; rewrite length_tab; lia |].
      apply wp_ret. repeat split; [exact Hno |].
      now rewrite delete_insert_id.
  - intros x s' Hx. apply (alloc_result_build σ c n _ C x s' HC Hc) in Hx.
    destruct x as [v|]; apply wp_ret; exact Hx.
Qed.

Lemma transpose_matrix_spec A n m X σ c :
  holds σ A n m X ->
  wp (transpose_matrix avail junk A n m) (State σ c)
     (alloc_result σ c (S m) (transpose n m X)).
Proof.
  intros HA. unfold transpose_matrix.
  apply wp_bind, wp_malloc_table; [intros Hc C HC | intros Hc].
  2: { apply wp_ret, alloc_result_refused, Hc. }
  assert (HAC := holds_fresh _ _ _ _ _ _ HA HC).
  apply wp_bind. eapply wp_wand.
  - apply wp_build with (g := fun i => tab n (fun j => entry X j i)) (σf := σ).
    intros i Hi.
    set (pre := map Row (tab i (fun i => tab n (fun j => entry X j i)))).
    set (post := replicate (m - S i) Wild).
    assert (Hpre : length pre = i) by (unfold pre; now rewrite length_map, length_tab).
    apply wp_bind, wp_malloc_row; [exact Hpre | intros Hok r0 Hr0 | intros Hno];
      simpl negb; cbv iota.
    + apply wp_bind. eapply wp_wand.
      * apply wp_fill with (f := fun j => entry X j i); [exact Hr0 |].
        intros j r Hj Hr _.
        apply wp_bind. eapply wp_get2_holds;
          [apply holds_insert_ne, HA; exact HAC | lia | lia |].
        apply wp_set2_cur; [exact Hpre | lia | reflexivity].
      * intros [] s' ->. apply wp_ret. split; [exact Hok | reflexivity].
    + apply wp_bind. eapply wp_free_c_array;
        [apply lookup_insert_eq | unfold pre; apply rows_init; rewrite length_tab; lia |].
      apply wp_ret. repeat split; [exact Hno |].
      now rewrite delete_insert_id.
  - intros x s' Hx. apply (alloc_result_build σ c m _ C x s' HC Hc) in Hx.
    destruct x as [v|]; apply wp_ret; exact Hx.
Qed.

Lemma calculate_frobenius_norm_spec A B n k XA XB σ c :
  holds σ A n k XA -> holds σ B n k XB ->
  wp (calculate_frobenius_norm A B n k) (State σ c)
     (fun v s' => v = frob n k XA XB /\ s' = State σ c).
Proof.
  intros HA HB. unfold calculate_frobenius_norm. eapply wp_wand.
  - apply (wp_for_acc (fun i sum s' =>
      sum = fold_left (fun sum i => frob_row k XA XB i sum) (seq 0 i) 0%float /\
      s' = State σ c)).
    + split; reflexivity.
    + intros i sum s' Hi [-> ->]. simpl in Hi. eapply wp_wand.
      * apply (wp_for_acc (fun j acc s' =>
          acc = fold_left (fun sum j =>
                   let diff := (entry XA i j - entry XB i j)%float in
                   (sum + diff * diff)%float) (seq 0 j)
                  (fold_left (fun sum i => frob_row k XA XB i sum) (seq 0 i) 0%float) /\
          s' = State σ c)).
        -- split; reflexivity.
        -- intros j acc s' Hj [-> ->]. simpl in Hj.
           apply wp_bind. eapply wp_get2_holds; [exact HA | lia | lia |].
           apply wp_bind. eapply wp_get2_holds; [exact HB | lia | lia |].
           apply wp_ret. split; [| reflexivity].
           now rewrite seq_S, fold_left_app.
      * intros acc s' [-> ->]. split; [| reflexivity].
        now rewrite seq_S, fold_left_app.
  - intros v s' [-> ->]. split; reflexivity.
Qed.

(** A loop that rewrites one row of an existing table per iteration. *)
Lemma wp_rows a n (g : nat -> list float) (body : nat -> M unit) (Y : matrix) σ c :
  length Y = n ->
  (forall i, i < n ->
     wp (body i)
        (State (<[a := Table (map Row (tab i g) ++ Row (nth i Y [])
                                :: map Row (drop (S i) Y))]> σ) c)
        (fun _ s' =>
           s' = State (<[a := Table (map Row (tab i g) ++ Row (g i)
                                      :: map Row (drop (S i) Y))]> σ) c)) ->
  wp (for_ 0 n body) (State (<[a := mat Y]> σ) c)
     (fun _ s' => s' = State (<[a := mat (tab n g)]> σ) c).
Proof.
  intros HY Hbody. eapply wp_wand.
  - apply (wp_for_ (fun i s' =>
      s' = State (<[a := Table (map Row (tab i g) ++ map Row (drop i Y))]> σ) c)).
    + reflexivity.
    + intros i s' Hi ->. simpl in Hi.
      destruct (nth_lookup_or_length Y i []) as [Hl | ?]; [| lia].
      rewrite (drop_S Y _ i Hl), map_cons.
      eapply wp_wand; [apply Hbody; lia |].
      intros [] s'' ->. cbv beta. now rewrite tab_S, map_app, <- app_assoc.
  - intros [] s' ->. simpl. now rewrite drop_ge, app_nil_r by lia.
Qed.

Lemma tab2_entry n k X : shaped n k X -> tab2 n k (entry X) = X.
Proof.
  intros Hsh. apply list_eq. intros i. destruct (decide (i < n)) as [Hi | Hi].
  - unfold tab2. rewrite lookup_tab by exact Hi.
    destruct (shaped_row n k X i Hsh Hi) as [-> Hl]. f_equal.
    apply list_eq. intros j. destruct (decide (j < k)) as [Hj | Hj].
    + rewrite lookup_tab by exact Hj. unfold entry.
      destruct (nth_lookup_or_length (nth i X []) j 0%float) as [-> | ?];
        [reflexivity | lia].
    + rewrite !lookup_ge_None_2; [reflexivity | lia | rewrite length_tab; lia].
  - destruct Hsh as [Hn _].
    rewrite !lookup_ge_None_2; [reflexivity | lia | unfold tab2; rewrite length_tab; lia].
Qed.

Lemma shaped_nth n k X i : shaped n k X -> i < n -> length (nth i X []) = k.
Proof. intros Hsh Hi. now destruct (shaped_row n k X i Hsh Hi). Qed.

Lemma copy_matrix_spec dest src n k X Y σ c :
  holds σ src n k X -> dest <> src -> shaped n k Y ->
  wp (copy_matrix dest src n k) (State (<[dest := mat Y]> σ) c)
     (fun _ s' => s' = State (<[dest := mat X]> σ) c).
Proof.
  intros HX Hne HY. unfold copy_matrix. eapply wp_wand.
  - apply wp_rows with (g := fun i => tab k (entry X i)); [apply HY |].
    intros i Hi.
    set (pre := map Row (tab i (fun i => tab k (entry X i)))).
    set (post := map Row (drop (S i) Y)).
    assert (Hpre : length pre = i) by (unfold pre; now rewrite length_map, length_tab).
    apply wp_fill with (f := entry X i); [now apply shaped_nth with (n := n) |].
    intros j r Hj Hr _.
    apply wp_bind. eapply wp_get2_holds;
      [apply holds_insert_ne, HX; congruence | lia | lia |].
    apply wp_set2_cur; [exact Hpre | lia | reflexivity].
  - intros [] s' ->. f_equal. f_equal. f_equal.
    apply (tab2_entry n k X), HX.
Qed.

Lemma wp_free_mat a n k X σ c (Q : unit -> state -> Prop) :
  σ !! a = Some (mat X) -> shaped n k X ->
  Q tt (State (delete a σ) c) ->
  wp (free_c_array (Some a) n) (State σ c) Q.
Proof.
  intros Ha Hsh HQ.
  eapply wp_free_c_array; [exact Ha | eapply mat_init, Hsh | exact HQ].
Qed.

Lemma holds_new σ l n k f : holds (<[l := mat (tab2 n k f)]> σ) l n k (tab2 n k f).
Proof. split; [apply lookup_insert_eq | apply shaped_tab2]. Qed.

Lemma update_H_spec W H n k XW XH σ c :
  holds σ W n n XW -> holds σ H n k XH ->
  wp (update_H avail junk W H n k) (State σ c)
     (update_result σ c n k H (update_rule n k XW XH)).
Proof.
  intros HW HH. unfold update_H, update_result, update_rule, update_ticks.
  set (WH := mmul n n k XW XH).
  set (Ht := transpose n k XH).
  set (HHt := mmul n k n XH Ht).
  set (HHtH := mmul n n k HHt XH).
  (* WH *)
  apply wp_bind. eapply wp_wand; [apply (matrix_multiply_spec _ _ _ _ _ _ _ _ _ HW HH) |].
  fold WH. intros [l1|] s1 H1; simpl in H1.
  2: { destruct H1 as (t & Ht1 & -> & Hno & Hav). apply wp_ret.
       exists t. repeat split; [lia | lia | exact Hno | exact Hav]. }
  destruct H1 as (Hl1 & -> & Hav1).
  assert (HW1 := holds_insert_ne _ _ l1 (mat WH) _ _ _ (holds_fresh _ _ _ _ _ _ HW Hl1) HW).
  assert (HH1 := holds_insert_ne _ _ l1 (mat WH) _ _ _ (holds_fresh _ _ _ _ _ _ HH Hl1) HH).
  (* Ht *)
  apply wp_bind. eapply wp_wand; [apply (transpose_matrix_spec _ _ _ _ _ _ HH1) |].
  fold Ht. intros [l2|] s2 H2; simpl in H2.
  2: { destruct H2 as (t & Ht2 & -> & Hno & Hav).
       apply wp_bind. eapply wp_free_mat; [apply lookup_insert_eq | apply shaped_tab2 |].
       apply wp_ret. exists t. repeat split; [lia | lia | | exact Hno |].
       - f_equal. now rewrite delete_insert_id.
       - intros u Hu. destruct (decide (u < c + S n)); [apply Hav1 | apply Hav]; lia. }
  destruct H2 as (Hl2 & -> & Hav2).
  assert (Hne21 : l2 <> l1) by (intros ->; now rewrite lookup_insert_eq in Hl2).
  assert (Hl2' : σ !! l2 = None) by now rewrite lookup_insert_ne in Hl2.
  assert (HHt2 := holds_new (<[l1 := mat WH]> σ) l2 k n (fun i j => entry XH j i)).
  fold (transpose n k XH) in HHt2. fold Ht in HHt2.
  assert (HH2 := holds_insert_ne _ _ l2 (mat Ht) _ _ _ (holds_fresh _ _ _ _ _ _ HH1 Hl2) HH1).
  (* HHt *)
  apply wp_bind. eapply wp_wand; [apply (matrix_multiply_spec _ _ _ _ _ _ _ _ _ HH2 HHt2) |].
  fold HHt. intros [l3|] s3 H3; simpl in H3.
  2: { destruct H3 as (t & Ht3 & -> & Hno & Hav).
       apply wp_bind. eapply wp_free_mat;
         [rewrite lookup_insert_ne by congruence; apply lookup_insert_eq
         | apply shaped_tab2 |].
       apply wp_bind. eapply wp_free_mat;
         [rewrite lookup_delete_ne by congruence; apply lookup_insert_eq
         | apply shaped_tab2 |].
       apply wp_ret. exists t. repeat split; [lia | lia | | exact Hno |].
       - f_equal. store_eq.
       - intros u Hu. destruct (decide (u < c + S n)); [apply Hav1; lia |].
         destruct (decide (u < c + S n + S k)); [apply Hav2 | apply Hav]; lia. }
  destruct H3 as (Hl3 & -> & Hav3).
  assert (Hne32 : l3 <> l2) by (intros ->; now rewrite lookup_insert_eq in Hl3).
  rewrite lookup_insert_ne in Hl3 by congruence.
  assert (Hne31 : l3 <> l1) by (intros ->; now rewrite lookup_insert_eq in Hl3).
  assert (Hl3' : σ !! l3 = None) by now rewrite lookup_insert_ne in Hl3.
  set (σ3 := <[l3 := mat HHt]> (<[l2 := mat Ht]> (<[l1 := mat WH]> σ))).
  assert (HHHt3 : holds σ3 l3 n n HHt) by apply holds_new.
  assert (HH3 : holds σ3 H n k XH).
  { apply holds_insert_ne, HH2. apply (holds_fresh _ _ _ _ _ _ HH). exact Hl3'. }
  (* HHtH *)
  apply wp_bind. eapply wp_wand; [apply (matrix_multiply_spec _ _ _ _ _ _ _ _ _ HHHt3 HH3) |].
  fold HHtH. intros [l4|] s4 H4; simpl in H4.
  2: { destruct H4 as (t & Ht4 & -> & Hno & Hav). unfold σ3.
       apply wp_bind. eapply wp_free_mat;
         [rewrite !lookup_insert_ne by congruence; apply lookup_insert_eq
         | apply shaped_tab2 |].
       apply wp_bind. eapply wp_free_mat;
         [rewrite lookup_delete_ne, lookup_insert_ne by congruence; apply lookup_insert_eq
         | apply shaped_tab2 |].
       apply wp_bind. eapply wp_free_mat;
         [rewrite !lookup_delete_ne by congruence; apply lookup_insert_eq
         | apply shaped_tab2 |].
       apply wp_ret. exists t. repeat split; [lia | lia | | exact Hno |].
       - f_equal. store_eq.
       - intros u Hu. destruct (decide (u < c + S n)); [apply Hav1; lia |].
         destruct (decide (u < c + S n + S k)); [apply Hav2; lia |].
         destruct (decide (u < c + S n + S k + S n)); [apply Hav3 | apply Hav]; lia. }
  destruct H4 as (Hl4 & -> & Hav4).
  assert (Hne43 : l4 <> l3) by (intros ->; unfold σ3 in Hl4; now rewrite lookup_insert_eq in Hl4).
  assert (Hne42 : l4 <> l2).
  { intros ->. unfold σ3 in Hl4.
    now rewrite lookup_insert_ne, lookup_insert_eq in Hl4 by congruence. }
  assert (Hne41 : l4 <> l1).
  { intros ->. unfold σ3 in Hl4.
    now rewrite !lookup_insert_ne, lookup_insert_eq in Hl4 by congruence. }
  assert (Hl4' : σ !! l4 = None).
  { unfold σ3 in Hl4. now rewrite !lookup_insert_ne in Hl4 by congruence. }
  assert (HneH1 : H <> l1) by apply (holds_fresh _ _ _ _ _ _ HH Hl1).
  assert (HneH2 : H <> l2) by apply (holds_fresh _ _ _ _ _ _ HH Hl2').
  assert (HneH3 : H <> l3) by apply (holds_fresh _ _ _ _ _ _ HH Hl3').
  assert (HneH4 : H <> l4) by apply (holds_fresh _ _ _ _ _ _ HH Hl4').
  set (σ4 := <[l4 := mat HHtH]> σ3).
  assert (HWH4 : holds σ4 l1 n k WH).
  { split; [| apply shaped_tab2]. unfold σ4, σ3.
    rewrite !lookup_insert_ne by congruence. apply lookup_insert_eq. }
  assert (HHHtH4 : holds σ4 l4 n k HHtH) by apply holds_new.
  assert (HH4 : σ4 !! H = Some (mat XH)).
  { unfold σ4, σ3. rewrite !lookup_insert_ne by congruence. apply HH. }
  (* the update proper *)
  rewrite <- (insert_id σ4 H (mat XH) HH4).
  apply wp_bind. eapply wp_wand.
  - apply wp_rows with
      (g := fun i => tab k (fun j =>
         (entry XH i j * ((1 - 0.5) + 0.5 * (entry WH i j / entry HHtH i j)))%float));
      [apply HH |].
    intros i Hi.
    set (pre := map Row (tab i _)).
    set (post := map Row (drop (S i) XH)).
    assert (Hpre : length pre = i) by (unfold pre; now rewrite length_map, length_tab).
    apply wp_fill with
      (f := fun j =>
         (entry XH i j * ((1 - 0.5) + 0.5 * (entry WH i j / entry HHtH i j)))%float);
      [apply (shaped_nth n k XH i (proj2 HH) Hi) |].
    intros j r Hj Hr Hrj.
    assert (Hcell : r !! j = Some (entry XH i j)).
    { rewrite Hrj, lookup_app_r by (rewrite length_tab; lia).
      rewrite length_tab, Nat.sub_diag, lookup_drop, Nat.add_0_r. unfold entry.
      destruct (nth_lookup_or_length (nth i XH []) j 0%float) as [-> | Hge];
        [reflexivity |].
      rewrite (shaped_nth n k XH i (proj2 HH) Hi) in Hge. lia. }
    apply wp_bind. eapply wp_get2_cur; [exact Hpre | exact Hcell |].
    apply wp_bind. eapply wp_get2_holds;
      [apply holds_insert_ne, HWH4; congruence | lia | lia |].
    apply wp_bind. eapply wp_get2_holds;
      [apply holds_insert_ne, HHHtH4; congruence | lia | lia |].
    apply wp_set2_cur; [exact Hpre | lia | reflexivity].
  - intros [] s' ->. fold (tab2 n k (fun i j =>
      (entry XH i j * ((1 - 0.5) + 0.5 * (entry WH i j / entry HHtH i j)))%float)).
    set (R := tab2 n k _). unfold σ4, σ3.
    apply wp_bind. eapply wp_free_mat;
      [rewrite !lookup_insert_ne by congruence; apply lookup_insert_eq
      | apply shaped_tab2 |].
    apply wp_bind. eapply wp_free_mat;
      [rewrite lookup_delete_ne, !lookup_insert_ne by congruence; apply lookup_insert_eq
      | apply shaped_tab2 |].
    apply wp_bind. eapply wp_free_mat;
      [rewrite !lookup_delete_ne, !lookup_insert_ne by congruence; apply lookup_insert_eq
      | apply shaped_tab2 |].
    apply wp_bind. eapply wp_free_mat;
      [rewrite !lookup_delete_ne, !lookup_insert_ne by congruence; apply lookup_insert_eq
      | apply shaped_tab2 |].
    apply wp_ret. split.
    + f_equal; [store_eq | lia].
    + intros u Hu. destruct (decide (u < c + S n)); [apply Hav1; lia |].
      destruct (decide (u < c + S n + S k)); [apply Hav2; lia |].
      destruct (decide (u < c + S n + S k + S n)); [apply Hav3 | apply Hav4]; lia.
Qed.

Lemma sym_spec P n d X σ c :
  holds σ P n d X ->
  wp (sym avail junk exp P n d) (State σ c) (alloc_result σ c (S n) (similarity n d X)).
Proof.
  intros HP. unfold sym.
  apply wp_bind, wp_malloc_table; [intros Hc C HC | intros Hc].
  2: { apply wp_ret, alloc_result_refused, Hc. }
  assert (HPC := holds_fresh _ _ _ _ _ _ HP HC).
  set (f := fun i j =>
    if decide (i = j) then 0%float else exp (- sqdist d X i j / 2)%float).
  apply wp_bind. eapply wp_wand.
  - apply wp_build with (g := fun i => tab n (f i)) (σf := σ).
    intros i Hi.
    set (pre := map Row (tab i (fun i => tab n (f i)))).
    set (post := replicate (n - S i) Wild).
    assert (Hpre : length pre = i) by (unfold pre; now rewrite length_map, length_tab).
    apply wp_bind, wp_malloc_row; [exact Hpre | intros Hok r0 Hr0 | intros Hno];
      simpl negb; cbv iota.
    + apply wp_bind. eapply wp_wand.
      * apply wp_fill with (f := f i); [exact Hr0 |].
        intros j r Hj Hr _. unfold f. destruct (decide (i = j)) as [Hij | Hij].
        -- apply wp_set2_cur; [exact Hpre | lia | reflexivity].
        -- apply wp_bind. eapply wp_wand.
           ++ apply (wp_for_acc (fun kk sum s' =>
                sum = sqdist kk X i j /\
                s' = State (<[C := Table (pre ++ Row r :: post)]> σ) (S (S c + i)))).
              ** split; reflexivity.
              ** intros kk sum s' Hkk [-> ->]. simpl in Hkk.
                 apply wp_bind. eapply wp_get2_holds;
                   [apply holds_insert_ne, HP; exact HPC | lia | lia |].
                 apply wp_bind. eapply wp_get2_holds;
                   [apply holds_insert_ne, HP; exact HPC | lia | lia |].
                 apply wp_ret. split; [| reflexivity].
                 unfold sqdist. now rewrite seq_S, fold_left_app.
           ++ intros sum s' [-> ->].
              apply wp_set2_cur; [exact Hpre | lia | reflexivity].
      * intros [] s' ->. apply wp_ret. split; [exact Hok | reflexivity].
    + apply wp_bind. eapply wp_free_c_array;
        [apply lookup_insert_eq | unfold pre; apply rows_init; rewrite length_tab; lia |].
      apply wp_ret. repeat split; [exact Hno |].
      now rewrite delete_insert_id.
  - intros x s' Hx. apply (alloc_result_build σ c n _ C x s' HC Hc) in Hx.
    destruct x as [v|]; apply wp_ret; exact Hx.
Qed.

Lemma diag_row n i (v : float) :
  i < n ->
  <[i := v]> (replicate n 0%float) =
  tab n (fun j => if decide (i = j) then v else 0%float).
Proof.
  intros Hi. apply list_eq. intros j.
  destruct (decide (j < n)) as [Hj | Hj].
  - rewrite lookup_tab by exact Hj. destruct (decide (i = j)) as [-> | Hne].
    + apply list_lookup_insert_eq. now rewrite length_replicate.
    + rewrite list_lookup_insert_ne by exact Hne. now apply lookup_replicate_2.
  - rewrite !lookup_ge_None_2; [reflexivity | |];
      rewrite ?length_insert, ?length_replicate, ?length_tab; lia.
Qed.

Lemma rowsum_step m A i :
  rowsum (S m) A i = (rowsum m A i + entry A i m)%float.
Proof. unfold rowsum. now rewrite seq_S, fold_left_app. Qed.

Lemma ddg_spec P n d X σ c :
  holds σ P n d X ->
  wp (ddg avail junk exp P n d) (State σ c)
     (alloc_result σ c (S n + S n) (degree n d X)).
Proof.
  intros HP. unfold ddg, degree. set (A := similarity n d X).
  apply wp_bind. eapply wp_wand; [apply (sym_spec _ _ _ _ _ _ HP) |].
  fold A. intros [l1|] s1 H1; simpl in H1.
  2: { destruct H1 as (t & Ht1 & -> & Hno & Hav). apply wp_ret.
       exists t. repeat split; [lia | lia | exact Hno | exact Hav]. }
  destruct H1 as (Hl1 & -> & Hav1).
  assert (HA : holds (<[l1 := mat A]> σ) l1 n n A) by apply holds_new.
  apply wp_bind, wp_malloc_table; [intros Hc l2 Hl2 | intros Hc].
  2: { apply wp_bind. eapply wp_free_mat; [apply lookup_insert_eq | apply shaped_tab2 |].
       apply wp_ret. exists (c + S n). repeat split; [lia | lia | | exact Hc | exact Hav1].
       f_equal. now rewrite delete_insert_id. }
  assert (Hne21 : l2 <> l1) by (intros ->; now rewrite lookup_insert_eq in Hl2).
  assert (Hl2' : σ !! l2 = None) by now rewrite lookup_insert_ne in Hl2.
  set (g := fun i => tab n (fun j => if decide (i = j) then rowsum n A i else 0%float)).
  apply wp_bind. eapply wp_wand.
  - apply wp_build with (g := g) (σf := σ).
    intros i Hi.
    set (pre := map Row (tab i g)).
    set (post := replicate (n - S i) Wild).
    assert (Hpre : length pre = i) by (unfold pre; now rewrite length_map, length_tab).
    apply wp_bind, wp_calloc_row; [exact Hpre | intros Hok | intros Hno];
      simpl negb; cbv iota.
    + apply wp_bind. eapply wp_wand.
      * apply (wp_for_ (fun j s' => s' =
          State (<[l2 := Table (pre ++ Row (<[i := rowsum j A i]> (replicate n 0%float))
                                  :: post)]> (<[l1 := mat A]> σ)) (S (S (c + S n) + i)))).
        -- cbv beta.
           rewrite (list_insert_id (replicate n 0%float) i (rowsum 0 A i))
             by now apply lookup_replicate_2.
           reflexivity.
        -- intros j s' Hj ->. simpl in Hj.
           apply wp_bind. eapply wp_get2_cur;
             [exact Hpre | apply list_lookup_insert_eq; rewrite length_replicate; lia |].
           apply wp_bind. eapply wp_get2_holds;
             [apply holds_insert_ne, HA; congruence | lia | lia |].
           apply wp_set2_cur;
             [exact Hpre | rewrite length_insert, length_replicate; lia |].
           now rewrite list_insert_insert_eq, rowsum_step.
      * intros [] s' ->. apply wp_ret. split; [exact Hok |].
        simpl. now rewrite diag_row by exact Hi.
    + apply wp_bind. eapply wp_free_mat;
        [rewrite lookup_insert_ne by congruence; apply lookup_insert_eq
        | apply shaped_tab2 |].
      apply wp_bind. eapply wp_free_c_array;
        [rewrite lookup_delete_ne by congruence; apply lookup_insert_eq
        | unfold pre; apply rows_init; rewrite length_tab; lia |].
      apply wp_ret. repeat split; [exact Hno |]. f_equal. store_eq.
  - intros [v|] s' Hx; simpl in Hx.
    + destruct Hx as (-> & i & Hi & -> & Hno & Hav). apply wp_ret.
      exists (S (c + S n) + i). repeat split; [lia | lia | exact Hno |].
      intros u Hu. destruct (decide (u < c + S n)); [apply Hav1; lia |].
      destruct (decide (u = c + S n)) as [-> | ?]; [exact Hc | apply Hav; lia].
    + destruct Hx as (-> & Hav).
      apply wp_bind. eapply wp_free_mat;
        [rewrite lookup_insert_ne by congruence; apply lookup_insert_eq
        | apply shaped_tab2 |].
      apply wp_ret. split; [exact Hl2' |]. split.
      * f_equal; [store_eq | lia].
      * intros u Hu. destruct (decide (u < c + S n)); [apply Hav1; lia |].
        destruct (decide (u = c + S n)) as [-> | ?]; [exact Hc | apply Hav; lia].
Qed.

Lemma degs_step n (f : nat -> float) i :
  i < n ->
  <[i := f i]> (tab i f ++ replicate (n - i) 0%float) =
  tab (S i) f ++ replicate (n - S i) 0%float.
Proof.
  intros Hi. replace (n - i) with (S (n - S i)) by lia. simpl replicate.
  rewrite (cursor_insert (tab i f) _ _ (f i) i (length_tab i f)).
  now rewrite tab_S, <- app_assoc.
Qed.

Lemma norm_spec P n d X σ c :
  holds σ P n d X ->
  wp (norm avail junk exp P n d) (State σ c)
     (alloc_result σ c (S n + S (S n)) (normalized n d X)).
Proof.
  intros HP. unfold norm, normalized. set (A := similarity n d X).
  apply wp_bind. eapply wp_wand; [apply (sym_spec _ _ _ _ _ _ HP) |].
  fold A. intros [l1|] s1 H1; simpl in H1.
  2: { destruct H1 as (t & Ht1 & -> & Hno & Hav). apply wp_ret.
       exists t. repeat split; [lia | lia | exact Hno | exact Hav]. }
  destruct H1 as (Hl1 & -> & Hav1).
  assert (HA : holds (<[l1 := mat A]> σ) l1 n n A) by apply holds_new.
  (* degree_diag *)
  apply wp_bind, wp_calloc_cells; [intros Hc2 l2 Hl2 | intros Hc2].
  2: { apply wp_bind. eapply wp_free_mat; [apply lookup_insert_eq | apply shaped_tab2 |].
       apply wp_ret. exists (c + S n). repeat split; [lia | lia | | exact Hc2 | exact Hav1].
       f_equal. now rewrite delete_insert_id. }
  assert (Hne21 : l2 <> l1) by (intros ->; now rewrite lookup_insert_eq in Hl2).
  assert (Hl2' : σ !! l2 = None) by now rewrite lookup_insert_ne in Hl2.
  set (σ1 := <[l1 := mat A]> σ) in *.
  apply wp_bind. eapply wp_wand.
  { apply (wp_for_ (fun i s' => s' =
      State (<[l2 := Cells (tab i (rowsum n A) ++ replicate (n - i) 0%float)]> σ1)
            (S (c + S n)))).
    - cbv beta. now rewrite Nat.sub_0_r.
    - intros i s' Hi ->. simpl in Hi. eapply wp_wand.
      + apply (wp_for_ (fun j s' => s' =
          State (<[l2 := Cells (<[i := rowsum j A i]>
                                  (tab i (rowsum n A) ++ replicate (n - i) 0%float))]> σ1)
                (S (c + S n)))).
        * cbv beta. rewrite list_insert_id; [reflexivity |].
          rewrite lookup_app_r by (rewrite length_tab; lia).
          rewrite length_tab, Nat.sub_diag. apply lookup_replicate_2. lia.
        * intros j s'' Hj ->. simpl in Hj.
          assert (Hlen : i < length (tab i (rowsum n A) ++ replicate (n - i) 0%float))
            by (rewrite length_app, length_tab, length_replicate; lia).
          apply wp_bind. eapply wp_get1;
            [apply lookup_insert_eq | apply list_lookup_insert_eq; exact Hlen |].
          apply wp_bind. eapply wp_get2_holds;
            [apply holds_insert_ne, HA; congruence | lia | lia |].
          eapply wp_set1;
            [apply lookup_insert_eq | rewrite length_insert; exact Hlen |].
          now rewrite insert_insert_eq, list_insert_insert_eq, rowsum_step.
      + intros [] s'' ->. simpl. now rewrite degs_step by lia. }
  intros [] s' ->. simpl. rewrite Nat.sub_diag, app_nil_r.
  set (σ2 := <[l2 := Cells (tab n (rowsum n A))]> σ1).
  assert (HA2 : holds σ2 l1 n n A) by (apply holds_insert_ne, HA; congruence).
  assert (HD2 : σ2 !! l2 = Some (Cells (tab n (rowsum n A)))) by apply lookup_insert_eq.
  (* normalized *)
  apply wp_bind, wp_malloc_table; [intros Hc3 l3 Hl3 | intros Hc3].
  2: { apply wp_bind. eapply wp_free_block; [exact HD2 |].
       apply wp_bind. eapply wp_free_mat;
         [unfold σ2, σ1; rewrite lookup_delete_ne by congruence;
          rewrite lookup_insert_ne by congruence; apply lookup_insert_eq
         | apply shaped_tab2 |].
       apply wp_ret. exists (S (c + S n)). repeat split; [lia | lia | | exact Hc3 |].
       - f_equal. unfold σ2, σ1. store_eq.
       - intros u Hu. destruct (decide (u = c + S n)) as [-> | ?];
           [exact Hc2 | apply Hav1; lia]. }
  assert (Hne32 : l3 <> l2) by (intros ->; congruence).
  assert (Hne31 : l3 <> l1) by (intros ->; destruct HA2 as [HA2 _]; congruence).
  assert (Hl3' : σ !! l3 = None).
  { unfold σ2, σ1 in Hl3. now rewrite !lookup_insert_ne in Hl3 by congruence. }
  set (f := fun i j => (entry A i j / sqrt (rowsum n A i * rowsum n A j))%float).
  apply wp_bind. eapply wp_wand.
  - apply wp_build with (g := fun i => tab n (f i)) (σf := σ).
    intros i Hi.
    set (pre := map Row (tab i (fun i => tab n (f i)))).
    set (post := replicate (n - S i) Wild).
    assert (Hpre : length pre = i) by (unfold pre; now rewrite length_map, length_tab).
    apply wp_bind, wp_malloc_row; [exact Hpre | intros Hok r0 Hr0 | intros Hno];
      simpl negb; cbv iota.
    + apply wp_bind. eapply wp_wand.
      * apply wp_fill with (f := f i); [exact Hr0 |].
        intros j r Hj Hr _.
        apply wp_bind. eapply wp_get2_holds;
          [apply holds_insert_ne, HA2; congruence | lia | lia |].
        apply wp_bind. eapply wp_get1;
          [rewrite lookup_insert_ne by congruence; exact HD2 | apply lookup_tab; lia |].
        apply wp_bind. eapply wp_get1;
          [rewrite lookup_insert_ne by congruence; exact HD2 | apply lookup_tab; lia |].
        apply wp_set2_cur; [exact Hpre | lia | reflexivity].
      * intros [] s' ->. apply wp_ret. split; [exact Hok | reflexivity].
    + apply wp_bind. eapply wp_free_block;
        [rewrite lookup_insert_ne by congruence; exact HD2 |].
      apply wp_bind. eapply wp_free_mat;
        [unfold σ2, σ1; rewrite lookup_delete_ne by congruence;
         rewrite !lookup_insert_ne by congruence; apply lookup_insert_eq
        | apply shaped_tab2 |].
      apply wp_bind. eapply wp_free_c_array;
        [rewrite !lookup_delete_ne by congruence; apply lookup_insert_eq
        | unfold pre; apply rows_init; rewrite length_tab; lia |].
      apply wp_ret. repeat split; [exact Hno |]. f_equal. unfold σ2, σ1. store_eq.
  - intros [v|] s' Hx; simpl in Hx.
    + destruct Hx as (-> & i & Hi & -> & Hno & Hav). apply wp_ret.
      exists (S (S (c + S n)) + i). repeat split; [lia | lia | exact Hno |].
      intros u Hu. destruct (decide (u < c + S n)); [apply Hav1; lia |].
      destruct (decide (u = c + S n)) as [-> | ?]; [exact Hc2 |].
      destruct (decide (u = S (c + S n))) as [-> | ?]; [exact Hc3 | apply Hav; lia].
    + destruct Hx as (-> & Hav).
      apply wp_bind. eapply wp_free_block;
        [rewrite lookup_insert_ne by congruence; exact HD2 |].
      apply wp_bind. eapply wp_free_mat;
        [unfold σ2, σ1; rewrite lookup_delete_ne by congruence;
         rewrite !lookup_insert_ne by congruence; apply lookup_insert_eq
        | apply shaped_tab2 |].
      apply wp_ret. split; [exact Hl3' |]. split.
      * f_equal; [unfold σ2, σ1; store_eq | lia].
      * intros u Hu. destruct (decide (u < c + S n)); [apply Hav1; lia |].
        destruct (decide (u = c + S n)) as [-> | ?]; [exact Hc2 |].
        destruct (decide (u = S (c + S n))) as [-> | ?]; [exact Hc3 | apply Hav; lia].
Qed.

(** ** The factorization loop *)

Lemma iterate_shaped n k W H0 t : shaped n k H0 -> shaped n k (iterate n k W H0 t).
Proof.
  intros Hsh. destruct t as [|t]; [exact Hsh |]. simpl. apply shaped_tab2.
Qed.

Lemma shaped_snoc i k (X : matrix) r :
  shaped i k X -> length r = k -> shaped (S i) k (X ++ [r]).
Proof.
  intros [Hn Hk] Hr. split.
  - rewrite length_app. simpl. lia.
  - apply Forall_app. split; [exact Hk | repeat constructor; exact Hr].
Qed.

(** The row-allocation loop of [symnmf]: on success both tables hold
    [n] rows of [k] doubles each. *)
Lemma symnmf_rows lp lr n k σ c :
  σ !! lp = None -> σ !! lr = None -> lp <> lr ->
  wp (for_ctl 0 n (fun i =>
        ok ← malloc_row avail junk lp i k;
        if negb ok
        then free_c_array (Some lp) i ;; free_c_array (Some lr) i ;;
             ret (Return (None : option loc))
        else
          ok' ← malloc_row avail junk lr i k;
          if negb ok'
          then free_c_array (Some lp) (i + 1) ;; free_c_array (Some lr) i ;;
               ret (Return None)
          else ret Next))
     (State (<[lr := Table (replicate n Wild)]> (<[lp := Table (replicate n Wild)]> σ)) c)
     (fun x s' =>
        match x with
        | None =>
            exists Yp Yr, shaped n k Yp /\ shaped n k Yr /\
              s' = State (<[lr := mat Yr]> (<[lp := mat Yp]> σ)) (c + 2 * n) /\
              forall u, c <= u < c + 2 * n -> avail u = true
        | Some r =>
            r = None /\
            exists t, c <= t < c + 2 * n /\ s' = State σ (S t) /\ avail t = false /\
                      forall u, c <= u < t -> avail u = true
        end).
Proof.
  intros Hlp Hlr Hne. eapply wp_wand.
  - apply (wp_for_ctl
      (fun i s' =>
         i <= n /\ exists Yp Yr, shaped i k Yp /\ shaped i k Yr /\
           s' = State (<[lr := Table (map Row Yr ++ replicate (n - i) Wild)]>
                        (<[lp := Table (map Row Yp ++ replicate (n - i) Wild)]> σ))
                      (c + 2 * i) /\
           forall u, c <= u < c + 2 * i -> avail u = true)
      (fun _ => False)
      (fun r s' =>
         r = None /\
         exists t, c <= t < c + 2 * n /\ s' = State σ (S t) /\ avail t = false /\
                   forall u, c <= u < t -> avail u = true)).
    + split; [lia |]. exists [], []. repeat split; try constructor.
      * now rewrite Nat.sub_0_r, Nat.mul_0_r, Nat.add_0_r.
      * intros u Hu. lia.
    + intros i s' Hi (_ & Yp & Yr & HYp & HYr & -> & Hav). simpl in Hi.
      replace (n - i) with (S (n - S i)) by lia. simpl replicate.
      set (post := replicate (n - S i) Wild).
      assert (Hpp : length (map Row Yp) = i) by (rewrite length_map; apply HYp).
      assert (Hpr : length (map Row Yr) = i) by (rewrite length_map; apply HYr).
      rewrite insert_insert_ne by congruence.
      apply wp_bind, wp_malloc_row; [exact Hpp | intros Hok rp Hrp | intros Hno];
        simpl negb; cbv iota.
      * rewrite insert_insert_ne by congruence.
        apply wp_bind, wp_malloc_row; [exact Hpr | intros Hok' rr Hrr | intros Hno];
          simpl negb; cbv iota.
        -- apply wp_ret. split; [lia |].
           exists (Yp ++ [rp]), (Yr ++ [rr]).
           split; [now apply shaped_snoc |]. split; [now apply shaped_snoc |]. split.
           ++ rewrite !map_app, <- !app_assoc. simpl. f_equal. lia.
           ++ intros u Hu. destruct (decide (u < c + 2 * i)); [apply Hav; lia |].
              destruct (decide (u = c + 2 * i)) as [-> | ?]; [exact Hok |].
              replace u with (S (c + 2 * i)) by lia. exact Hok'.
        -- apply wp_bind. eapply wp_free_c_array.
           { rewrite lookup_insert_ne by congruence. apply lookup_insert_eq. }
           { intros j Hj. destruct (decide (j = i)) as [-> | Hji].
             - exists (Row rp). split; [now apply cursor_lookup | discriminate].
             - apply rows_init with (cnt := i); [rewrite length_map in Hpp; lia | lia]. }
           apply wp_bind. eapply wp_free_c_array.
           { rewrite lookup_delete_ne by congruence. apply lookup_insert_eq. }
           { apply rows_init. rewrite length_map in Hpr. lia. }
           apply wp_ret. split; [reflexivity |]. exists (S (c + 2 * i)).
           repeat split; [lia | lia | | exact Hno |].
           ++ f_equal. store_eq.
           ++ intros u Hu. destruct (decide (u = c + 2 * i)) as [-> | ?];
                [exact Hok | apply Hav; lia].
      * apply wp_bind. eapply wp_free_c_array.
        { apply lookup_insert_eq. }
        { apply rows_init. rewrite length_map in Hpp. lia. }
        apply wp_bind. eapply wp_free_c_array.
        { rewrite lookup_delete_ne, lookup_insert_ne by congruence.
          apply lookup_insert_eq. }
        { apply rows_init. rewrite length_map in Hpr. lia. }
        apply wp_ret. split; [reflexivity |]. exists (c + 2 * i).
        repeat split; [lia | lia | | exact Hno | exact Hav].
        f_equal. store_eq.
  - intros [r|] s' Hs'; simpl in Hs'; [exact Hs' |].
    destruct Hs' as [(_ & Yp & Yr & HYp & HYr & -> & Hav) | []].
    exists Yp, Yr. rewrite Nat.sub_diag, !app_nil_r. simpl.
    repeat split; try apply HYp; try apply HYr; exact Hav.
Qed.

Lemma iterate_S n k W H0 t :
  iterate n k W H0 (S t) = update_rule n k W (iterate n k W H0 t).
Proof. reflexivity. Qed.

(** The main loop of [symnmf]. *)
Lemma symnmf_loop W lp lr n k XW XH Yp σ c :
  holds σ W n n XW -> shaped n k XH -> shaped n k Yp ->
  σ !! lp = None -> σ !! lr = None -> lp <> lr ->
  wp (for_ctl 0 MAX_ITER (fun iter =>
        copy_matrix lp lr n k ;;
        ok ← update_H avail junk W lr n k;
        if negb ok
        then free_c_array (Some lp) n ;; free_c_array (Some lr) n ;;
             ret (Return (None : option loc))
        else
          delta ← calculate_frobenius_norm lr lp n k;
          if (delta <? EPSILON)%float then ret Break else ret Next))
     (State (<[lr := mat XH]> (<[lp := mat Yp]> σ)) c)
     (fun x s' =>
        match x with
        | None =>
            exists t Y, stops_at n k XW XH t /\ shaped n k Y /\
              s' = State (<[lr := mat (iterate n k XW XH t)]> (<[lp := mat Y]> σ))
                         (c + t * update_ticks n k) /\
              forall u, c <= u < c + t * update_ticks n k -> avail u = true
        | Some r =>
            r = None /\
            exists t, c <= t < c + MAX_ITER * update_ticks n k /\
                      s' = State σ (S t) /\ avail t = false /\
                      forall u, c <= u < t -> avail u = true
        end).
Proof.
  intros HW HXH HYp Hlp Hlr Hne.
  assert (HWp : W <> lp) by apply (holds_fresh _ _ _ _ _ _ HW Hlp).
  assert (HWr : W <> lr) by apply (holds_fresh _ _ _ _ _ _ HW Hlr).
  set (T := update_ticks n k).
  set (Hk := iterate n k XW XH).
  eapply wp_wand.
  - apply (wp_for_ctl
      (fun i s' =>
         i <= MAX_ITER /\ exists Y, shaped n k Y /\
           s' = State (<[lr := mat (Hk i)]> (<[lp := mat Y]> σ)) (c + i * T) /\
           (forall u, c <= u < c + i * T -> avail u = true) /\
           forall s, s < i -> converged n k XW XH s = false)
      (fun s' =>
         exists t, t < MAX_ITER /\ converged n k XW XH t = true /\
           (forall s, s < t -> converged n k XW XH s = false) /\
           s' = State (<[lr := mat (Hk (S t))]> (<[lp := mat (Hk t)]> σ)) (c + S t * T) /\
           forall u, c <= u < c + S t * T -> avail u = true)
      (fun r s' =>
         r = None /\
         exists t, c <= t < c + MAX_ITER * T /\ s' = State σ (S t) /\ avail t = false /\
                   forall u, c <= u < t -> avail u = true)).
    + split; [lia |]. exists Yp. repeat split.
      * apply HYp.
      * apply HYp.
      * now rewrite Nat.add_0_r.
      * intros u Hu. lia.
      * intros s Hs. lia.
    + intros i s' Hi (_ & Y & HY & -> & Hav & Hconv). rewrite Nat.add_0_l in Hi.
      assert (Hshk : shaped n k (Hk i)) by now apply iterate_shaped.
      (* H_prev := result *)
      rewrite insert_insert_ne by congruence.
      apply wp_bind. eapply wp_wand.
      { apply copy_matrix_spec with (X := Hk i); [| congruence | exact HY].
        split; [apply lookup_insert_eq | exact Hshk]. }
      intros [] s' ->.
      set (σ' := <[lp := mat (Hk i)]> (<[lr := mat (Hk i)]> σ)).
      assert (HW' : holds σ' W n n XW).
      { unfold σ'. now apply holds_insert_ne, holds_insert_ne. }
      assert (Hr' : holds σ' lr n k (Hk i)).
      { split; [| exact Hshk]. unfold σ'.
        rewrite lookup_insert_ne by congruence. apply lookup_insert_eq. }
      (* the update *)
      apply wp_bind. eapply wp_wand; [apply (update_H_spec _ _ _ _ _ _ _ _ HW' Hr') |].
      intros [|] s' Hs'; unfold update_result in Hs'; simpl negb; cbv iota.
      * destruct Hs' as (-> & Hav').
        fold T in Hav'. fold T.
        change (update_rule n k XW (Hk i)) with (Hk (S i)).
        apply wp_bind. eapply wp_wand.
        { apply calculate_frobenius_norm_spec with (XA := Hk (S i)) (XB := Hk i).
          - split; [apply lookup_insert_eq | now apply iterate_shaped].
          - split; [| exact Hshk]. unfold σ'.
            rewrite lookup_insert_ne by congruence. apply lookup_insert_eq. }
        intros delta s' [-> ->].
        assert (Hstore : <[lr := mat (Hk (S i))]> σ' =
                         <[lr := mat (Hk (S i))]> (<[lp := mat (Hk i)]> σ))
          by (unfold σ'; store_eq).
        assert (Hav'' : forall u, c <= u < c + S i * T -> avail u = true).
        { intros u Hu. destruct (decide (u < c + i * T)); [apply Hav; lia |].
          apply Hav'. lia. }
        change (frob n k (Hk (S i)) (Hk i) <? EPSILON)%float
          with (converged n k XW XH i).
        destruct (converged n k XW XH i) eqn:Hci; cbv iota; apply wp_ret.
        -- exists i. repeat split; [lia | exact Hci | exact Hconv | | exact Hav''].
           rewrite Hstore. f_equal. lia.
        -- split; [lia |]. exists (Hk i). repeat split; [apply Hshk | apply Hshk | | exact Hav'' |].
           ++ rewrite Hstore. f_equal. lia.
           ++ intros s Hs. destruct (decide (s = i)) as [-> | ?];
                [exact Hci | apply Hconv; lia].
      * destruct Hs' as (t & Ht & -> & Hno & Hav'). fold T in Ht.
        apply wp_bind. eapply wp_free_mat;
          [unfold σ'; apply lookup_insert_eq | exact Hshk |].
        apply wp_bind. eapply wp_free_mat;
          [unfold σ'; rewrite lookup_delete_ne, lookup_insert_ne by congruence;
           apply lookup_insert_eq | exact Hshk |].
        apply wp_ret. split; [reflexivity |]. exists t. repeat split.
        -- lia.
        -- assert (S i * T <= MAX_ITER * T) by (apply Nat.mul_le_mono_r; lia).
           lia.
        -- f_equal. unfold σ'. store_eq.
        -- exact Hno.
        -- intros u Hu. destruct (decide (u < c + i * T)); [apply Hav; lia |].
           apply Hav'. lia.
  - intros [r|] s' Hs'; cbv beta iota in Hs'; [exact Hs' |].
    destruct Hs' as [(_ & Y & HY & -> & Hav & Hconv) | (t & Ht & Hct & Hconv & -> & Hav)].
    + exists MAX_ITER, Y. repeat split; try apply HY; try exact Hav.
      * unfold MAX_ITER. lia.
      * lia.
      * intros s Hs. apply Hconv. lia.
      * now right.
    + exists (S t), (Hk t). repeat split; try exact Hav.
      * lia.
      * lia.
      * intros s Hs. apply Hconv. lia.
      * left. now rewrite Nat.sub_succ, Nat.sub_0_r.
      * now apply iterate_shaped.
      * now apply iterate_shaped.
Qed.

Lemma bind_step {A B} (m : M A) (k : A -> M B) s a s' :
  m s = Some (a, s') -> (m ≫= k) s = k a s'.
Proof. intros E. unfold mbind, M_bind, bind. now rewrite E. Qed.

Lemma bind_undefined {A B} (m : M A) (k : A -> M B) s :
  m s = None -> (m ≫= k) s = None.
Proof. intros E. unfold mbind, M_bind, bind. now rewrite E. Qed.

(** When the table of [H_prev] is granted and the table of [result] is
    refused, [symnmf] calls [free_c_array(H_prev, n)] on [n] row pointers
    that were never initialised: for [n > 0] the behaviour is undefined. *)
Lemma symnmf_undefined W H n k σ c :
  avail c = true -> avail (S c) = false -> 0 < n ->
  symnmf avail junk W H n k (State σ c) = None.
Proof.
  intros Hc Hc' Hn. destruct n as [|n]; [lia |]. unfold symnmf.
  set (lp := fresh (dom σ)).
  rewrite (bind_step _ _ _ (Some lp)
             (State (<[lp := Table (replicate (S n) Wild)]> σ) (S c)))
    by (unfold malloc_table; simpl; now rewrite Hc).
  cbv beta iota.
  rewrite (bind_step _ _ _ None
             (State (<[lp := Table (replicate (S n) Wild)]> σ) (S (S c))))
    by (unfold malloc_table; simpl; now rewrite Hc').
  cbv beta iota.
  apply bind_undefined. unfold free_c_array. apply bind_undefined.
  simpl for_. apply bind_undefined.
  unfold free_row. simpl. now rewrite lookup_insert_eq.
Qed.

Lemma symnmf_wp W H n k XW XH σ c :
  holds σ W n n XW -> holds σ H n k XH ->
  (avail c = true -> avail (S c) = false -> n = 0) ->
  wp (symnmf avail junk W H n k) (State σ c) (symnmf_result σ c n k XW XH).
Proof.
  intros HW HH Hsafe. unfold symnmf, symnmf_result, symnmf_ticks.
  set (T := update_ticks n k).
  apply wp_bind, wp_malloc_table; [intros Hc lp Hlp | intros Hc].
  2: { apply wp_ret. exists c. repeat split; [lia | lia | exact Hc | intros u Hu; lia]. }
  apply wp_bind, wp_malloc_table; [intros Hc' lr Hlr | intros Hc'].
  2: { rewrite (Hsafe Hc Hc').
       apply wp_bind. eapply wp_free_c_array;
         [apply lookup_insert_eq | intros j Hj; lia |].
       apply wp_ret. exists (S c). repeat split; [lia | lia | | exact Hc' |].
       - f_equal. now rewrite delete_insert_id.
       - intros u Hu. replace u with c by lia. exact Hc. }
  assert (Hne : lp <> lr) by (intros ->; now rewrite lookup_insert_eq in Hlr).
  rewrite lookup_insert_ne in Hlr by exact Hne.
  assert (HWp : W <> lp) by apply (holds_fresh _ _ _ _ _ _ HW Hlp).
  assert (HWr : W <> lr) by apply (holds_fresh _ _ _ _ _ _ HW Hlr).
  assert (HHp : H <> lp) by apply (holds_fresh _ _ _ _ _ _ HH Hlp).
  assert (HHr : H <> lr) by apply (holds_fresh _ _ _ _ _ _ HH Hlr).
  apply wp_bind. eapply wp_wand;
    [apply (symnmf_rows lp lr n k σ (S (S c)) Hlp Hlr Hne) |].
  intros [r|] s1 H1; cbv beta iota in H1.
  { destruct H1 as (-> & t & Ht & -> & Hno & Hav). apply wp_ret.
    exists t. repeat split; [lia | lia | exact Hno |].
    intros u Hu. destruct (decide (u = c)) as [-> | ?]; [exact Hc |].
    destruct (decide (u = S c)) as [-> | ?]; [exact Hc' | apply Hav; lia]. }
  destruct H1 as (Yp & Yr & HYp & HYr & -> & Hav1).
  (* result := H *)
  apply wp_bind. eapply wp_wand.
  { apply copy_matrix_spec with (X := XH); [| congruence | exact HYr].
    apply holds_insert_ne, HH. congruence. }
  intros [] s' ->.
  (* the loop *)
  apply wp_bind. eapply wp_wand.
  { apply (symnmf_loop W lp lr n k XW XH Yp σ (S (S c) + 2 * n));
      [exact HW | apply HH | exact HYp | exact Hlp | exact Hlr | exact Hne]. }
  fold T. intros [r|] s2 H2; cbv beta iota in H2.
  { destruct H2 as (-> & t & Ht & -> & Hno & Hav). apply wp_ret.
    exists t. repeat split; [lia | lia | exact Hno |].
    intros u Hu. destruct (decide (u = c)) as [-> | ?]; [exact Hc |].
    destruct (decide (u = S c)) as [-> | ?]; [exact Hc' |].
    destruct (decide (u < S (S c) + 2 * n)); [apply Hav1 | apply Hav]; lia. }
  destruct H2 as (t & Y & Hstop & HY & -> & Hav2).
  apply wp_bind. eapply wp_free_mat;
    [rewrite lookup_insert_ne by congruence; apply lookup_insert_eq | exact HY |].
  apply wp_ret. split; [exact Hlr |]. exists t. split; [exact Hstop |]. split.
  - f_equal; [store_eq | lia].
  - intros u Hu. destruct (decide (u = c)) as [-> | ?]; [exact Hc |].
    destruct (decide (u = S c)) as [-> | ?]; [exact Hc' |].
    destruct (decide (u < S (S c) + 2 * n)); [apply Hav1 | apply Hav2]; lia.
Qed.

(** [symnmf] on well-formed arguments, in every environment. *)
Lemma symnmf_spec W H n k XW XH σ c :
  holds σ W n n XW -> holds σ H n k XH ->
  match symnmf avail junk W H n k (State σ c) with
  | Some (r, s') => symnmf_result σ c n k XW XH r s'
  | None => avail c = true /\ avail (S c) = false /\ 0 < n
  end.
Proof.
  intros HW HH.
  destruct (decide (avail c = true /\ avail (S c) = false /\ 0 < n))
    as [(Hc & Hc' & Hn) | Hsafe].
  - rewrite (symnmf_undefined W H n k σ c Hc Hc' Hn). auto.
  - assert (Hwp := symnmf_wp W H n k XW XH σ c HW HH).
    unfold wp in Hwp.
    destruct (symnmf avail junk W H n k (State σ c)) as [[r s']|].
    + apply Hwp. intros Hc Hc'. destruct n; [reflexivity |].
      exfalso. apply Hsafe. repeat split; [exact Hc | exact Hc' | lia].
    + exfalso. apply Hwp. intros Hc Hc'. destruct n; [reflexivity |].
      exfalso. apply Hsafe. repeat split; [exact Hc | exact Hc' | lia].
Qed.

(** * The claims *)

Lemma alloc_result_granted (m : M (option loc)) σ c ticks R :
  wp m (State σ c) (alloc_result σ c ticks R) ->
  (forall t, c <= t < c + ticks -> avail t = true) ->
  exists l, m (State σ c) = Some (Some l, State (<[l := mat R]> σ) (c + ticks)) /\
            σ !! l = None.
Proof.
  intros Hwp Hav. apply wp_run in Hwp as ([l|] & s' & Hrun & Hres); simpl in Hres.
  - destruct Hres as (Hl & -> & _). eauto.
  - destruct Hres as (t & Ht & _ & Hno & _). rewrite Hav in Hno by exact Ht. discriminate.
Qed.

Lemma sqdist_sym d X i j : sqdist d X i j = sqdist d X j i.
Proof.
  unfold sqdist. generalize 0%float. induction (seq 0 d) as [|k ks IH]; intros acc.
  - reflexivity.
  - simpl. rewrite (fsub_square_sym (entry X i k) (entry X j k)). apply IH.
Qed.

Lemma similarity_sym n d X i j :
  i < n -> j < n ->
  entry (similarity n d X) i j = entry (similarity n d X) j i.
Proof.
  intros Hi Hj. unfold similarity. rewrite !entry_tab2 by assumption.
  destruct (Nat.eq_dec i j) as [-> | Hne]; [reflexivity |].
  rewrite !decide_False by congruence. now rewrite sqdist_sym.
Qed.

Lemma similarity_diag n d X i : i < n -> entry (similarity n d X) i i = 0%float.
Proof.
  intros Hi. unfold similarity. rewrite entry_tab2 by assumption.
  now rewrite decide_True.
Qed.

Lemma update_H_granted W H n k XW XH σ c :
  holds σ W n n XW -> holds σ H n k XH ->
  (forall t, c <= t < c + update_ticks n k -> avail t = true) ->
  update_H avail junk W H n k (State σ c) =
    Some (true, State (<[H := mat (update_rule n k XW XH)]> σ) (c + update_ticks n k)).
Proof.
  intros HW HH Hav.
  pose proof (update_H_spec W H n k XW XH σ c HW HH) as Hwp.
  apply wp_run in Hwp as ([|] & s' & Hrun & Hres); unfold update_result in Hres.
  - destruct Hres as (-> & _). exact Hrun.
  - destruct Hres as (t & Ht' & _ & Hno & _). rewrite Hav in Hno by exact Ht'. discriminate.
Qed.

(** C1: one call of [update_H] on an n×n [W] and an n×k [H], when its
    allocations are granted, returns 1, releases its four temporaries and
    leaves in [H] the matrix whose entry (i,j) is
    [H[i][j] * ((1 - 0.5) + 0.5 * (WH[i][j] / HHtH[i][j]))], with
    [WH = W·H], [Ht] the transpose of [H], [HHt = H·Ht], [HHtH = HHt·H]; for
    [W = [[0,1],[1,0]]] and [H = [[1,0],[0,1]]] the new [H[0][0]] is
    [1 * (0.5 + 0.5 * (WH[0][0] / HHtH[0][0]))]. *)
Theorem update_H_step W H n k XW XH σ c :
  holds σ W n n XW -> holds σ H n k XH ->
  (forall t, c <= t < c + update_ticks n k -> avail t = true) ->
  let WH := mmul n n k XW XH in
  let Ht := transpose n k XH in
  let HHt := mmul n k n XH Ht in
  let HHtH := mmul n n k HHt XH in
  exists XH',
    update_H avail junk W H n k (State σ c) =
      Some (true, State (<[H := mat XH']> σ) (c + update_ticks n k)) /\
    shaped n k XH' /\
    (forall i j, i < n -> j < k ->
       entry XH' i j =
       (entry XH i j * ((1 - 0.5) + 0.5 * (entry WH i j / entry HHtH i j)))%float) /\
    entry (update_rule 2 2 W_ex H_ex) 0 0 =
      (1 * (0.5 + 0.5 * (entry (mmul 2 2 2 W_ex H_ex) 0 0 /
                         entry (mmul 2 2 2 (mmul 2 2 2 H_ex (transpose 2 2 H_ex)) H_ex) 0 0)))%float.
Proof.
  intros HW HH Hav WH Ht HHt HHtH.
  exists (update_rule n k XW XH).
  split; [now apply update_H_granted |]. split; [apply shaped_tab2 |]. split.
  - intros i j Hi Hj. unfold update_rule. now rewrite entry_tab2.
  - reflexivity.
Qed.

(** C2: when no allocation is refused, [symnmf] returns a non-null matrix
    after [t] updates with [1 <= t <= 300]; no convergence test before the
    last one succeeded, and either the last one did (the squared Frobenius
    distance between the result and its previous iterate is below 1e-4) or
    [t = 300]. *)
Theorem symnmf_terminates W H n k XW XH σ c :
  holds σ W n n XW -> holds σ H n k XH ->
  (forall t, c <= t -> avail t = true) ->
  exists l t,
    symnmf avail junk W H n k (State σ c) =
      Some (Some l, State (<[l := mat (iterate n k XW XH t)]> σ)
                          (c + symnmf_ticks n k t)) /\
    σ !! l = None /\
    1 <= t <= 300 /\
    (forall s, 1 <= s < t ->
       (frob n k (iterate n k XW XH s) (iterate n k XW XH (s - 1)) <? 1e-4)%float = false) /\
    ((frob n k (iterate n k XW XH t) (iterate n k XW XH (t - 1)) <? 1e-4)%float = true \/
     t = 300).
Proof.
  intros HW HH Hav.
  pose proof (symnmf_spec W H n k XW XH σ c HW HH) as Hspec.
  destruct (symnmf avail junk W H n k (State σ c)) as [[[l|] s']|].
  - destruct Hspec as (Hl & t & (Ht & Hbefore & Hlast) & -> & _).
    exists l, t. split; [reflexivity |]. split; [exact Hl |]. split; [exact Ht |]. split.
    + intros s Hs. specialize (Hbefore (s - 1)).
      unfold converged in Hbefore. replace (S (s - 1)) with s in Hbefore by lia.
      apply Hbefore. lia.
    + destruct Hlast as [Hlast | Hlast]; [left | right; exact Hlast].
      unfold converged in Hlast. replace (S (t - 1)) with t in Hlast by lia.
      exact Hlast.
  - destruct Hspec as (t & Ht & _ & Hno & _). rewrite Hav in Hno by lia. discriminate.
  - destruct Hspec as (_ & Hno & _). rewrite Hav in Hno by lia. discriminate.
Qed.

(** C3: [sym] on an n×d point matrix, when its allocations are granted,
    returns the matrix of the naive double loop over all ordered pairs:
    it is symmetric (entries (i,j) and (j,i) are the same double, and
    compare equal with [==] unless they are NaN), its diagonal is [0.0],
    and its entry (i,j), i ≠ j, is [exp(-sqdist(i,j) / 2.0)]. *)
Theorem sym_symmetric_zero_diagonal P n d X σ c :
  holds σ P n d X ->
  (forall t, c <= t < c + S n -> avail t = true) ->
  exists l A,
    sym avail junk exp P n d (State σ c) =
      Some (Some l, State (<[l := mat A]> σ) (c + S n)) /\
    σ !! l = None /\ shaped n n A /\
    A = similarity n d X /\
    (forall i j, i < n -> j < n -> entry A i j = entry A j i) /\
    (forall i j, i < n -> j < n -> is_nan (entry A i j) = false ->
       (entry A i j =? entry A j i)%float = true) /\
    (forall i, i < n -> entry A i i = 0%float) /\
    (forall i j, i < n -> j < n -> i <> j ->
       entry A i j = exp (- sqdist d X i j / 2)%float).
Proof.
  intros HP Hav.
  destruct (alloc_result_granted _ _ _ _ _ (sym_spec P n d X σ c HP) Hav) as (l & Hrun & Hl).
  exists l, (similarity n d X). split; [exact Hrun |]. split; [exact Hl |].
  split; [apply shaped_tab2 |]. split; [reflexivity |]. split; [| split; [| split]].
  - intros i j Hi Hj. now apply similarity_sym.
  - intros i j Hi Hj Hnan. rewrite <- (similarity_sym n d X i j Hi Hj).
    unfold is_nan in Hnan. now apply negb_false_iff in Hnan.
  - intros i Hi. now apply similarity_diag.
  - intros i j Hi Hj Hne. unfold similarity. rewrite entry_tab2 by assumption.
    now rewrite decide_False.
Qed.

(** C5: [ddg] on an n×d point matrix, when its allocations are granted,
    returns a matrix whose off-diagonal entries are exactly [0.0] and whose
    diagonal entry (i,i) is the sum of row i of the matrix [sym] returns on
    the same points; the similarity matrix it built is released. *)
Theorem ddg_diagonal P n d X σ c :
  holds σ P n d X ->
  (forall t, c <= t < c + (S n + S n) -> avail t = true) ->
  exists l D,
    ddg avail junk exp P n d (State σ c) =
      Some (Some l, State (<[l := mat D]> σ) (c + (S n + S n))) /\
    σ !! l = None /\ shaped n n D /\
    (forall i j, i < n -> j < n -> i <> j -> entry D i j = 0%float) /\
    exists ls A,
      sym avail junk exp P n d (State σ c) =
        Some (Some ls, State (<[ls := mat A]> σ) (c + S n)) /\
      forall i, i < n -> entry D i i = rowsum n A i.
Proof.
  intros HP Hav.
  destruct (alloc_result_granted _ _ _ _ _ (ddg_spec P n d X σ c HP) Hav) as (l & Hrun & Hl).
  destruct (alloc_result_granted _ _ _ _ _ (sym_spec P n d X σ c HP)) as (ls & Hsym & _).
  { intros t Ht. apply Hav. lia. }
  exists l, (degree n d X). split; [exact Hrun |]. split; [exact Hl |].
  split; [apply shaped_tab2 |]. split.
  - intros i j Hi Hj Hne. unfold degree. rewrite entry_tab2 by assumption.
    now rewrite decide_False.
  - exists ls, (similarity n d X). split; [exact Hsym |].
    intros i Hi. unfold degree. rewrite entry_tab2 by assumption.
    now rewrite decide_True.
Qed.

(** C9: [symnmf] does not keep the caller's matrices safe on every
    failing path.  When the request for the table of [H_prev] is granted,
    the request for the table of [result] is refused and [n > 0], the call
    hands the [n] uninitialised row pointers of [H_prev] to [free]
    ([symnmf.c], line 260) and has undefined behaviour: nothing is
    guaranteed of [W] and [H] after it.  Every other call returns, with a
    matrix or with the null pointer, and leaves every object of the
    caller's store as it was, [W] and the initial [H] among them; the
    matrix it returns is a new object. *)
Theorem symnmf_frame W H n k XW XH σ c :
  holds σ W n n XW -> holds σ H n k XH ->
  (avail c = true /\ avail (S c) = false /\ 0 < n ->
   symnmf avail junk W H n k (State σ c) = None) /\
  (~ (avail c = true /\ avail (S c) = false /\ 0 < n) ->
   exists r s',
     symnmf avail junk W H n k (State σ c) = Some (r, s') /\
     (forall a, is_Some (σ !! a) -> store s' !! a = σ !! a) /\
     store s' !! W = Some (mat XW) /\
     store s' !! H = Some (mat XH) /\
     match r with
     | Some l => σ !! l = None /\ l <> W /\ l <> H /\
                 forall a, a <> l -> store s' !! a = σ !! a
     | None => store s' = σ
     end).
Proof.
  intros HW HH. split.
  - intros (Hc & Hc' & Hn). now apply symnmf_undefined.
  - intros Hsafe.
    pose proof (symnmf_spec W H n k XW XH σ c HW HH) as Hspec.
    destruct (symnmf avail junk W H n k (State σ c)) as [[[l|] s']|];
      [| | contradiction].
    + destruct Hspec as (Hl & t & _ & -> & _). exists (Some l). eexists.
      split; [reflexivity |]. simpl.
      assert (HlW : l <> W) by (intros ->; destruct HW; congruence).
      assert (HlH : l <> H) by (intros ->; destruct HH; congruence).
      repeat split.
      * intros a [x Ha]. rewrite lookup_insert_ne; [reflexivity | congruence].
      * rewrite lookup_insert_ne by exact HlW. apply HW.
      * rewrite lookup_insert_ne by exact HlH. apply HH.
      * exact Hl.
      * exact HlW.
      * exact HlH.
      * intros a Ha. now rewrite lookup_insert_ne.
    + destruct Hspec as (t & _ & -> & _). exists None. eexists.
      split; [reflexivity |]. simpl.
      repeat split; [apply HW | apply HH].
Qed.

(** C10: [update_H] on well-formed arguments always returns; when it
    returns 0 an allocation request made during the call was refused and
    the store, [H] included, is exactly as before the call; [H] is written
    only when every request of the call was granted. *)
Theorem update_H_failure_atomic W H n k XW XH σ c :
  holds σ W n n XW -> holds σ H n k XH ->
  exists ok s',
    update_H avail junk W H n k (State σ c) = Some (ok, s') /\
    (ok = false ->
       store s' = σ /\ store s' !! H = Some (mat XH) /\
       exists t, c <= t < c + update_ticks n k /\ clock s' = S t /\ avail t = false) /\
    (store s' !! H <> Some (mat XH) ->
       ok = true /\ forall t, c <= t < c + update_ticks n k -> avail t = true).
Proof.
  intros HW HH.
  pose proof (update_H_spec W H n k XW XH σ c HW HH) as Hwp.
  apply wp_run in Hwp as (ok & s' & Hrun & Hres). exists ok, s'.
  split; [exact Hrun |]. unfold update_result in Hres. destruct ok.
  - destruct Hres as (-> & Hav). split; [discriminate |]. intros _. split; [reflexivity | exact Hav].
  - destruct Hres as (t & Ht & -> & Hno & _). split.
    + intros _. simpl. split; [reflexivity |]. split; [apply HH |]. eauto.
    + simpl. intros Hneq. exfalso. apply Hneq, HH.
Qed.

Lemma normalized_sym n d X i j :
  i < n -> j < n ->
  entry (normalized n d X) i j = entry (normalized n d X) j i.
Proof.
  intros Hi Hj. unfold normalized. rewrite !entry_tab2 by assumption.
  rewrite (similarity_sym n d X i j Hi Hj).
  now rewrite (fmul_comm (rowsum n (similarity n d X) i)).
Qed.

(** C4 (amended): [norm] on an n×d point matrix, when its allocations are
    granted, returns [W] with [W[i][j] = A[i][j] / sqrt(deg[i] * deg[j])],
    [A] the similarity matrix and [deg[i]] the sum of its row i; [W] is
    symmetric; its diagonal entry (i,i) is [0.0 / sqrt(deg[i] * deg[i])],
    which is [0.0] when [deg[i]] is not NaN and [sqrt(deg[i] * deg[i])] is
    not zero, and NaN when [sqrt(deg[i] * deg[i])] is zero. *)
Theorem norm_entries P n d X σ c :
  holds σ P n d X ->
  (forall t, c <= t < c + (S n + S (S n)) -> avail t = true) ->
  let A := similarity n d X in
  let deg := rowsum n A in
  exists l W,
    norm avail junk exp P n d (State σ c) =
      Some (Some l, State (<[l := mat W]> σ) (c + (S n + S (S n)))) /\
    σ !! l = None /\ shaped n n W /\
    (forall i j, i < n -> j < n ->
       entry W i j = (entry A i j / sqrt (deg i * deg j))%float) /\
    (forall i j, i < n -> j < n -> entry W i j = entry W j i) /\
    (forall i, i < n ->
       entry W i i = (0 / sqrt (deg i * deg i))%float /\
       (is_nan (deg i) = false -> is_zero (sqrt (deg i * deg i)) = false ->
        entry W i i = 0%float) /\
       (is_zero (sqrt (deg i * deg i)) = true -> is_nan (entry W i i) = true)).
Proof.
  intros HP Hav A deg.
  destruct (alloc_result_granted _ _ _ _ _ (norm_spec P n d X σ c HP) Hav) as (l & Hrun & Hl).
  exists l, (normalized n d X). split; [exact Hrun |]. split; [exact Hl |].
  split; [apply shaped_tab2 |].
  assert (Hent : forall i j, i < n -> j < n ->
            entry (normalized n d X) i j = (entry A i j / sqrt (deg i * deg j))%float).
  { intros i j Hi Hj. unfold normalized. now rewrite entry_tab2. }
  split; [exact Hent |]. split; [intros i j; apply normalized_sym |].
  intros i Hi. rewrite (Hent i i Hi Hi).
  replace (entry A i i) with 0%float by (symmetry; apply similarity_diag, Hi).
  split; [reflexivity |]. split.
  - intros Hnan Hnz. apply zero_div_positive; [| exact Hnz].
    apply sqrt_signed, fnonneg_square, Hnan.
  - apply zero_div_zero.
Qed.

Lemma sqdist_step d X i j :
  sqdist (S d) X i j =
  (sqdist d X i j + (entry X i d - entry X j d) * (entry X i d - entry X j d))%float.
Proof. unfold sqdist. now rewrite seq_S, fold_left_app. Qed.

Lemma sqdist_nonneg d X i j :
  (forall k, k < d -> is_finite (entry X i k) = true /\ is_finite (entry X j k) = true) ->
  fnonneg (sqdist d X i j).
Proof.
  induction d as [|d IH]; intros Hfin; [apply fnonneg_zero |].
  rewrite sqdist_step. apply fnonneg_add.
  - apply IH. intros k Hk. apply Hfin. lia.
  - destruct (Hfin d) as [Hi Hj]; [lia |]. now apply fnonneg_square, fsub_finite.
Qed.

Lemma sqdist_identical d X i j :
  (forall k, k < d -> is_finite (entry X i k) = true /\ entry X i k = entry X j k) ->
  sqdist d X i j = 0%float.
Proof.
  induction d as [|d IH]; intros Hsame; [reflexivity |].
  rewrite sqdist_step, IH by (intros k Hk; apply Hsame; lia).
  destruct (Hsame d) as [Hfin <-]; [lia |]. now rewrite fsub_diag.
Qed.

Lemma leb_not_nan (x y : float) : (x <=? y)%float = true -> is_nan x = false.
Proof.
  rewrite FloatAxioms.leb_spec, is_nan_false. intros Hle E.
  rewrite E in Hle. discriminate.
Qed.

(** C6 (amended): for an n×d point matrix with finite coordinates, every
    off-diagonal entry (i,j) of the matrix [sym] returns is [exp x] for
    [x = -sqdist / 2.0], where [sqdist] is the sum the inner loop
    accumulates for the points i and j; this [x] is at most zero and not
    NaN; so the entry lies in [[0, 1]] whenever [exp] maps the doubles
    [x <= 0] into [[0, 1]]; and two identical points give the entry
    [exp(-0.0)], which is 1 when [exp(-0.0) = 1]. *)
Theorem sym_entries_unit_interval P n d X σ c :
  holds σ P n d X ->
  (forall i k, i < n -> k < d -> is_finite (entry X i k) = true) ->
  (forall t, c <= t < c + S n -> avail t = true) ->
  exists l A,
    sym avail junk exp P n d (State σ c) =
      Some (Some l, State (<[l := mat A]> σ) (c + S n)) /\
    forall i j, i < n -> j < n -> i <> j ->
      entry A i j = exp (- sqdist d X i j / 2)%float /\
      (- sqdist d X i j / 2 <=? 0)%float = true /\
      is_nan (- sqdist d X i j / 2)%float = false /\
      ((forall x, (x <=? 0)%float = true ->
          (0 <=? exp x)%float = true /\ (exp x <=? 1)%float = true) ->
       (0 <=? entry A i j)%float = true /\ (entry A i j <=? 1)%float = true) /\
      ((forall k, k < d -> entry X i k = entry X j k) ->
       entry A i j = exp (-0)%float /\
       (exp (-0)%float = 1%float -> entry A i j = 1%float)).
Proof.
  intros HP Hfin Hav.
  destruct (alloc_result_granted _ _ _ _ _ (sym_spec P n d X σ c HP) Hav) as (l & Hrun & Hl).
  exists l, (similarity n d X). split; [exact Hrun |].
  intros i j Hi Hj Hne.
  assert (Hent : entry (similarity n d X) i j = exp (- sqdist d X i j / 2)%float).
  { unfold similarity. rewrite entry_tab2 by assumption. now rewrite decide_False. }
  assert (Hx : (- sqdist d X i j / 2 <=? 0)%float = true).
  { apply neg_half_nonpos, sqdist_nonneg. intros k Hk. split; apply Hfin; assumption. }
  split; [exact Hent |]. split; [exact Hx |].
  split; [exact (leb_not_nan _ _ Hx) |]. split.
  - intros Hexp. rewrite Hent. split; apply Hexp, Hx.
  - intros Hsame.
    assert (Hzero : entry (similarity n d X) i j = exp (-0)%float).
    { rewrite Hent, sqdist_identical; [reflexivity |].
      intros k Hk. split; [now apply Hfin | now apply Hsame]. }
    split; [exact Hzero | intros H1; now rewrite Hzero].
Qed.

Lemma update_rule_zero n k W H i j :
  i < n -> j < k ->
  entry (update_rule n k W H) i j = (entry H i j * multiplier n k W H i j)%float.
Proof. intros Hi Hj. unfold update_rule, multiplier. now rewrite entry_tab2. Qed.

Lemma iterate_zero n k W H0 i j t :
  i < n -> j < k -> is_zero (entry H0 i j) = true ->
  (forall s, s < t -> is_finite (multiplier n k W (iterate n k W H0 s) i j) = true) ->
  is_zero (entry (iterate n k W H0 t) i j) = true.
Proof.
  intros Hi Hj Hz. induction t as [|t IH]; intros Hfin; [exact Hz |].
  rewrite iterate_S, update_rule_zero by assumption.
  apply zero_mul_finite; [apply IH; intros s Hs; apply Hfin; lia | apply Hfin; lia].
Qed.

(** C8 (amended): if [H[i][j]] is zero before a call of [update_H] whose
    allocations are granted, it is zero after the call when the factor
    [(1 - 0.5) + 0.5 * (WH[i][j] / HHtH[i][j])] of that entry is finite, and
    NaN when the factor is infinite or NaN; and it is zero in the matrix
    [symnmf] returns when the factor of that entry was finite at every
    update of the run. *)
Theorem zero_entry_stays_zero W H n k XW XH σ c i j :
  holds σ W n n XW -> holds σ H n k XH ->
  (forall t, c <= t -> avail t = true) ->
  i < n -> j < k -> is_zero (entry XH i j) = true ->
  (exists XH',
     update_H avail junk W H n k (State σ c) =
       Some (true, State (<[H := mat XH']> σ) (c + update_ticks n k)) /\
     (is_finite (multiplier n k XW XH i j) = true -> is_zero (entry XH' i j) = true) /\
     (is_finite (multiplier n k XW XH i j) = false -> is_nan (entry XH' i j) = true)) /\
  (exists l t,
     symnmf avail junk W H n k (State σ c) =
       Some (Some l, State (<[l := mat (iterate n k XW XH t)]> σ)
                           (c + symnmf_ticks n k t)) /\
     t <= 300 /\
     ((forall s, s < t ->
         is_finite (multiplier n k XW (iterate n k XW XH s) i j) = true) ->
      is_zero (entry (iterate n k XW XH t) i j) = true)).
Proof.
  intros HW HH Hav Hi Hj Hz. split.
  - exists (update_rule n k XW XH).
    split; [apply update_H_granted; [exact HW | exact HH | intros t Ht; apply Hav; lia] |].
    rewrite update_rule_zero by assumption. split.
    + now apply zero_mul_finite.
    + now apply zero_mul_not_finite.
  - pose proof (symnmf_spec W H n k XW XH σ c HW HH) as Hspec.
    destruct (symnmf avail junk W H n k (State σ c)) as [[[l|] s']|].
    + destruct Hspec as (Hl & t & (Ht & _) & -> & _).
      exists l, t. split; [reflexivity |]. split; [apply Ht |].
      now apply iterate_zero.
    + destruct Hspec as (t & Ht & _ & Hno & _). rewrite Hav in Hno by lia. discriminate.
    + destruct Hspec as (_ & Hno & _). rewrite Hav in Hno by lia. discriminate.
Qed.

Lemma alloc_result_null_iff (m : M (option loc)) σ c ticks R :
  wp m (State σ c) (alloc_result σ c ticks R) ->
  exists r s', m (State σ c) = Some (r, s') /\
    (r = None <-> exists t, c <= t < clock s' /\ avail t = false).
Proof.
  intros Hwp. apply wp_run in Hwp as (r & s' & Hrun & Hres).
  exists r, s'. split; [exact Hrun |]. destruct r as [l|]; simpl in Hres.
  - destruct Hres as (_ & -> & Hav). split; [discriminate |].
    intros (t & Ht & Hno). simpl in Ht. rewrite Hav in Hno by exact Ht. discriminate.
  - destruct Hres as (t & Ht & -> & Hno & _). split; [| reflexivity].
    intros _. exists t. simpl. split; [lia | exact Hno].
Qed.

(** X1: each of [sym], [ddg] and [norm], on a well-formed point matrix,
    always returns, and returns the null pointer exactly when an
    allocation request made during the call was refused: no value of the
    points, and no division, makes it fail. *)
Theorem graph_null_iff_refused P n d X σ c :
  holds σ P n d X ->
  forall f,
    f = sym avail junk exp \/ f = ddg avail junk exp \/ f = norm avail junk exp ->
    exists r s', f P n d (State σ c) = Some (r, s') /\
      (r = None <-> exists t, c <= t < clock s' /\ avail t = false).
Proof.
  intros HP f [-> | [-> | ->]].
  - eapply alloc_result_null_iff, sym_spec, HP.
  - eapply alloc_result_null_iff, ddg_spec, HP.
  - eapply alloc_result_null_iff, norm_spec, HP.
Qed.

(** X2: [symnmf] on well-formed matrices either returns, and then returns
    the null pointer exactly when an allocation request made during the
    call was refused, or it is the undefined call of [symnmf_undefined]:
    the table of [H_prev] granted, the table of [result] refused, [n > 0]. *)
Theorem symnmf_null_iff_refused W H n k XW XH σ c :
  holds σ W n n XW -> holds σ H n k XH ->
  match symnmf avail junk W H n k (State σ c) with
  | Some (r, s') => r = None <-> exists t, c <= t < clock s' /\ avail t = false
  | None => avail c = true /\ avail (S c) = false /\ 0 < n
  end.
Proof.
  intros HW HH.
  pose proof (symnmf_spec W H n k XW XH σ c HW HH) as Hspec.
  destruct (symnmf avail junk W H n k (State σ c)) as [[[l|] s']|]; [| | exact Hspec].
  - destruct Hspec as (_ & t & _ & -> & Hav). split; [discriminate |].
    intros (u & Hu & Hno). simpl in Hu. rewrite Hav in Hno by exact Hu. discriminate.
  - destruct Hspec as (t & Ht & -> & Hno & _). split; [| reflexivity].
    intros _. exists t. simpl. split; [lia | exact Hno].
Qed.

Lemma frob_row_self k X i :
  (forall j, j < k -> is_finite (entry X i j) = true) ->
  frob_row k X X i 0%float = 0%float.
Proof.
  unfold frob_row. induction k as [|k IH]; intros Hfin; [reflexivity |].
  rewrite seq_S, fold_left_app, IH by (intros j Hj; apply Hfin; lia).
  simpl. now rewrite fsub_diag by (apply Hfin; lia).
Qed.

Lemma frob_self n k X :
  (forall i j, i < n -> j < k -> is_finite (entry X i j) = true) ->
  frob n k X X = 0%float.
Proof.
  unfold frob. induction n as [|n IH]; intros Hfin; [reflexivity |].
  rewrite seq_S, fold_left_app, IH by (intros i j Hi Hj; apply Hfin; lia).
  simpl. apply frob_row_self. intros j Hj. apply Hfin; lia.
Qed.

(** X3: [calculate_frobenius_norm(A, A, n, k)] returns [0.0] for a matrix
    of finite doubles, and leaves the store as it was. *)
Theorem frobenius_self_zero a n k X σ c :
  holds σ a n k X ->
  (forall i j, i < n -> j < k -> is_finite (entry X i j) = true) ->
  calculate_frobenius_norm a a n k (State σ c) = Some (0%float, State σ c).
Proof.
  intros Ha Hfin.
  pose proof (calculate_frobenius_norm_spec a a n k X X σ c Ha Ha) as Hwp.
  apply wp_run in Hwp as (v & s' & Hrun & -> & ->).
  now rewrite Hrun, frob_self.
Qed.

Lemma transpose_transpose n m X :
  shaped n m X -> transpose m n (transpose n m X) = X.
Proof.
  intros Hsh. rewrite <- (tab2_entry n m X Hsh) at 2.
  unfold transpose at 1. unfold tab2, tab.
  apply map_ext_in. intros i Hi%in_seq. apply map_ext_in. intros j Hj%in_seq.
  unfold transpose. now rewrite entry_tab2 by lia.
Qed.

(** X4: transposing with [transpose_matrix] the matrix that
    [transpose_matrix] returned for an n×m matrix gives a new matrix equal
    to the first one, when the allocations of both calls are granted. *)
Theorem transpose_matrix_twice A n m X σ c :
  holds σ A n m X ->
  (forall t, c <= t < c + S m + S n -> avail t = true) ->
  exists l1 l2,
    transpose_matrix avail junk A n m (State σ c) =
      Some (Some l1, State (<[l1 := mat (transpose n m X)]> σ) (c + S m)) /\
    transpose_matrix avail junk l1 m n
      (State (<[l1 := mat (transpose n m X)]> σ) (c + S m)) =
      Some (Some l2, State (<[l2 := mat X]> (<[l1 := mat (transpose n m X)]> σ))
                           (c + S m + S n)).
Proof.
  intros HA Hav.
  destruct (alloc_result_granted _ _ _ _ _ (transpose_matrix_spec A n m X σ c HA))
    as (l1 & Hrun1 & Hl1); [intros t Ht; apply Hav; lia |].
  assert (H1 : holds (<[l1 := mat (transpose n m X)]> σ) l1 m n (transpose n m X))
    by apply holds_new.
  destruct (alloc_result_granted _ _ _ _ _
              (transpose_matrix_spec l1 m n _ _ (c + S m) H1))
    as (l2 & Hrun2 & Hl2); [intros t Ht; apply Hav; lia |].
  exists l1, l2. split; [exact Hrun1 |].
  rewrite Hrun2. now rewrite (transpose_transpose n m X (proj2 HA)).
Qed.

(** * Further properties of the matrix functions *)

(** ** NaN absorbs, and compares false *)

Lemma fadd_nan_l (x y : float) : is_nan x = true -> is_nan (x + y)%float = true.
Proof. rewrite !is_nan_spec, FloatAxioms.add_spec. now intros ->. Qed.

Lemma fadd_nan_r (x y : float) : is_nan y = true -> is_nan (x + y)%float = true.
Proof.
  rewrite !is_nan_spec, FloatAxioms.add_spec. intros ->. now destruct (Prim2SF x).
Qed.

Lemma fsub_nan_l (x y : float) : is_nan x = true -> is_nan (x - y)%float = true.
Proof. rewrite !is_nan_spec, FloatAxioms.sub_spec. now intros ->. Qed.

Lemma fmul_nan_l (x y : float) : is_nan x = true -> is_nan (x * y)%float = true.
Proof. rewrite !is_nan_spec, FloatAxioms.mul_spec. now intros ->. Qed.

Lemma fltb_nan (x y : float) : is_nan x = true -> (x <? y)%float = false.
Proof. rewrite is_nan_spec, FloatAxioms.ltb_spec. now intros ->. Qed.

Lemma fnonneg_leb (x : float) : fnonneg x -> (0 <=? x)%float = true.
Proof.
  unfold fnonneg. rewrite FloatAxioms.leb_spec, Prim2SF_zero.
  destruct (Prim2SF x) as [s|s| |s m e]; simpl; intros Hs; subst; try reflexivity.
  contradiction.
Qed.

(** ** The squared Frobenius distance *)

Lemma frob_row_S k A B i s :
  frob_row (S k) A B i s =
  (frob_row k A B i s +
   (entry A i k - entry B i k) * (entry A i k - entry B i k))%float.
Proof. unfold frob_row. now rewrite seq_S, fold_left_app. Qed.

Lemma frob_S n k A B : frob (S n) k A B = frob_row k A B n (frob n k A B).
Proof. unfold frob. now rewrite seq_S, fold_left_app. Qed.

Lemma frob_row_sym k A B i s : frob_row k A B i s = frob_row k B A i s.
Proof.
  induction k as [|k IH]; [reflexivity |].
  now rewrite !frob_row_S, IH, (fsub_square_sym (entry A i k)).
Qed.

Lemma frob_sym n k A B : frob n k A B = frob n k B A.
Proof.
  induction n as [|n IH]; [reflexivity |].
  now rewrite !frob_S, IH, frob_row_sym.
Qed.

Lemma frob_row_nonneg k A B i s :
  fnonneg s ->
  (forall j, j < k ->
     is_finite (entry A i j) = true /\ is_finite (entry B i j) = true) ->
  fnonneg (frob_row k A B i s).
Proof.
  intros Hs. induction k as [|k IH]; intros Hfin; [exact Hs |].
  rewrite frob_row_S. apply fnonneg_add.
  - apply IH. intros j Hj. apply Hfin. lia.
  - destruct (Hfin k) as [Ha Hb]; [lia |]. now apply fnonneg_square, fsub_finite.
Qed.

Lemma frob_nonneg n k A B :
  (forall i j, i < n -> j < k ->
     is_finite (entry A i j) = true /\ is_finite (entry B i j) = true) ->
  fnonneg (frob n k A B).
Proof.
  induction n as [|n IH]; intros Hfin; [apply fnonneg_zero |].
  rewrite frob_S. apply frob_row_nonneg.
  - apply IH. intros i j Hi Hj. apply Hfin; lia.
  - intros j Hj. apply Hfin; lia.
Qed.

Lemma frob_row_nan_acc k A B i s :
  is_nan s = true -> is_nan (frob_row k A B i s) = true.
Proof.
  intros Hs. induction k as [|k IH]; [exact Hs |].
  rewrite frob_row_S. now apply fadd_nan_l.
Qed.

Lemma frob_row_nan k A B i j s :
  j < k -> is_nan (entry A i j) = true -> is_nan (frob_row k A B i s) = true.
Proof.
  intros Hj Hnan. induction k as [|k IH]; [lia |].
  rewrite frob_row_S. destruct (Nat.eq_dec j k) as [-> | Hne].
  - now apply fadd_nan_r, fmul_nan_l, fsub_nan_l.
  - apply fadd_nan_l, IH. lia.
Qed.

Lemma frob_nan n k A B i j :
  i < n -> j < k -> is_nan (entry A i j) = true -> is_nan (frob n k A B) = true.
Proof.
  intros Hi Hj Hnan. induction n as [|n IH]; [lia |].
  rewrite frob_S. destruct (Nat.eq_dec i n) as [-> | Hne].
  - now apply frob_row_nan with (j := j).
  - apply frob_row_nan_acc, IH. lia.
Qed.

Lemma frob_empty n k A B : n = 0 \/ k = 0 -> frob n k A B = 0%float.
Proof.
  intros [-> | ->]; [reflexivity |].
  induction n as [|n IH]; [reflexivity |]. now rewrite frob_S, IH.
Qed.



Lemma tab_nth (r : list float) k : length r = k -> tab k (fun j => nth j r 0%float) = r.
Proof.
  intros <-. apply nth_ext with (d := 0%float) (d' := 0%float).
  - apply length_tab.
  - intros j Hj. rewrite length_tab in Hj. now rewrite nth_tab.
Qed.

Lemma copy_matrix_self a n k X σ c :
  holds σ a n k X ->
  wp (copy_matrix a a n k) (State σ c) (fun _ s' => s' = State σ c).
Proof.
  intros [Ha HX]. unfold copy_matrix.
  rewrite <- (insert_id σ a (mat X) Ha) at 1.
  eapply wp_wand.
  - apply wp_rows with (g := fun i => nth i X []); [apply HX |].
    intros i Hi.
    set (pre := map Row (tab i (fun i => nth i X []))).
    set (post := map Row (drop (S i) X)).
    assert (Hpre : length pre = i) by (unfold pre; now rewrite length_map, length_tab).
    assert (Hlen : length (nth i X []) = k) by now apply shaped_nth with (n := n).
    eapply wp_wand.
    + apply wp_fill with (f := fun j => nth j (nth i X []) 0%float); [exact Hlen |].
      intros j r Hj Hr Hshape.
      assert (Hrj : r !! j = Some (nth j (nth i X []) 0%float)).
      { rewrite Hshape, lookup_app_r by (rewrite length_tab; lia).
        rewrite length_tab, Nat.sub_diag, lookup_drop, Nat.add_0_r.
        destruct (nth_lookup_or_length (nth i X []) j 0%float) as [Hl | ?]; [exact Hl | lia]. }
      apply wp_bind. eapply wp_get2_cur; [exact Hpre | exact Hrj |].
      apply wp_set2_cur; [exact Hpre | lia | reflexivity].
    + intros [] s' ->. cbv beta. now rewrite tab_nth.
  - intros [] s' ->.
    assert (E : tab n (fun i => nth i X []) = X).
    { apply nth_ext with (d := []) (d' := []).
      - rewrite length_tab. symmetry. apply HX.
      - intros i Hi. rewrite length_tab in Hi. now rewrite nth_tab. }
    now rewrite E, insert_id.
Qed.

(** X7: [copy_matrix(dest, src, n, k)] on two n×k matrices leaves in
    [dest] the entries of [src] and changes nothing else, [src] included;
    the two may be the same matrix, and then memory is unchanged. *)
Theorem copy_matrix_copies dest src n k X Y σ c :
  holds σ src n k X -> holds σ dest n k Y ->
  copy_matrix dest src n k (State σ c) = Some (tt, State (<[dest := mat X]> σ) c) /\
  (dest <> src -> <[dest := mat X]> σ !! src = Some (mat X)) /\
  (dest = src -> <[dest := mat X]> σ = σ).
Proof.
  intros HX HY. split; [| split].
  - destruct (decide (dest = src)) as [-> | Hne].
    + pose proof (copy_matrix_self src n k X σ c HX) as Hwp.
      apply wp_run in Hwp as ([] & s' & Hrun & ->).
      rewrite Hrun. now rewrite insert_id by apply HX.
    + pose proof (copy_matrix_spec dest src n k X Y σ c HX Hne (proj2 HY)) as Hwp.
      rewrite insert_id in Hwp by apply HY.
      apply wp_run in Hwp as ([] & s' & Hrun & ->). exact Hrun.
  - intros Hne. rewrite lookup_insert_ne by exact Hne. apply HX.
  - intros ->. apply insert_id, HX.
Qed.

(** X8: [calculate_frobenius_norm] reads and never writes; it returns the
    same double for [(A, B)] and for [(B, A)]; and on matrices of finite
    doubles the value is neither negative nor NaN. *)
Theorem frobenius_symmetric_nonneg A B n k XA XB σ c :
  holds σ A n k XA -> holds σ B n k XB ->
  exists v,
    calculate_frobenius_norm A B n k (State σ c) = Some (v, State σ c) /\
    calculate_frobenius_norm B A n k (State σ c) = Some (v, State σ c) /\
    ((forall i j, i < n -> j < k ->
        is_finite (entry XA i j) = true /\ is_finite (entry XB i j) = true) ->
     (0 <=? v)%float = true /\ is_nan v = false).
Proof.
  intros HA HB. exists (frob n k XA XB).
  pose proof (calculate_frobenius_norm_spec A B n k XA XB σ c HA HB) as H1.
  pose proof (calculate_frobenius_norm_spec B A n k XB XA σ c HB HA) as H2.
  apply wp_run in H1 as (v1 & s1 & Hrun1 & -> & ->).
  apply wp_run in H2 as (v2 & s2 & Hrun2 & -> & ->).
  split; [exact Hrun1 |]. split; [now rewrite Hrun2, (frob_sym n k XB XA) |].
  intros Hfin. pose proof (frob_nonneg n k XA XB Hfin) as Hnn.
  split; [now apply fnonneg_leb |].
  apply is_nan_false. unfold fnonneg in Hnn. intros E. now rewrite E in Hnn.
Qed.





(** X11: [norm] composes [sym] and [ddg]: on the same points, with every
    request granted, the entry (i,j) of the matrix [norm] returns is the
    entry (i,j) of the matrix [sym] returns divided by the square root of
    the product of the entries (i,i) and (j,j) of the matrix [ddg]
    returns. *)
Theorem norm_of_sym_and_ddg P n d X σ c :
  holds σ P n d X ->
  (forall t, c <= t -> avail t = true) ->
  exists la A ld D ln W sa sd sn,
    sym avail junk exp P n d (State σ c) = Some (Some la, sa) /\
    store sa !! la = Some (mat A) /\
    ddg avail junk exp P n d (State σ c) = Some (Some ld, sd) /\
    store sd !! ld = Some (mat D) /\
    norm avail junk exp P n d (State σ c) = Some (Some ln, sn) /\
    store sn !! ln = Some (mat W) /\
    forall i j, i < n -> j < n ->
      entry W i j = (entry A i j / sqrt (entry D i i * entry D j j))%float.
Proof.
  intros HP Hav.
  destruct (alloc_result_granted _ _ _ _ _ (sym_spec P n d X σ c HP)) as (la & Ha & _);
    [intros t Ht; apply Hav; lia |].
  destruct (alloc_result_granted _ _ _ _ _ (ddg_spec P n d X σ c HP)) as (ld & Hd & _);
    [intros t Ht; apply Hav; lia |].
  destruct (alloc_result_granted _ _ _ _ _ (norm_spec P n d X σ c HP)) as (ln & Hn & _);
    [intros t Ht; apply Hav; lia |].
  exists la, (similarity n d X), ld, (degree n d X), ln, (normalized n d X).
  do 3 eexists. split; [exact Ha |]. split; [apply lookup_insert_eq |].
  split; [exact Hd |]. split; [apply lookup_insert_eq |].
  split; [exact Hn |]. split; [apply lookup_insert_eq |].
  intros i j Hi Hj. unfold normalized, degree.
  rewrite !entry_tab2 by assumption. now rewrite !decide_True.
Qed.

Lemma dot_gram_sym n k X i j :
  i < n -> j < n ->
  dot k X (transpose n k X) i j = dot k X (transpose n k X) j i.
Proof.
  intros Hi Hj. unfold dot. generalize 0%float.
  assert (Hin : forall l, In l (seq 0 k) -> l < k) by (intros l Hl%in_seq; lia).
  induction (seq 0 k) as [|l ls IH]; intros acc; [reflexivity |].
  simpl. rewrite IH by (intros l' Hl'; apply Hin; now right).
  unfold transpose. rewrite !entry_tab2 by (try apply Hin; auto; now left).
  now rewrite fmul_comm.
Qed.

(** X12: the product [H·Hᵗ] that [update_H] forms by [transpose_matrix]
    followed by [matrix_multiply] is exactly symmetric, whatever the
    doubles in [H] are: the two entries are the same sum of the same
    products, taken in the same order. *)
Theorem gram_matrix_symmetric H n k XH σ c :
  holds σ H n k XH ->
  (forall t, c <= t < c + S k + S n -> avail t = true) ->
  exists lt lg,
    transpose_matrix avail junk H n k (State σ c) =
      Some (Some lt, State (<[lt := mat (transpose n k XH)]> σ) (c + S k)) /\
    matrix_multiply avail H lt n k n
      (State (<[lt := mat (transpose n k XH)]> σ) (c + S k)) =
      Some (Some lg,
            State (<[lg := mat (mmul n k n XH (transpose n k XH))]>
                     (<[lt := mat (transpose n k XH)]> σ)) (c + S k + S n)) /\
    forall i j, i < n -> j < n ->
      entry (mmul n k n XH (transpose n k XH)) i j =
      entry (mmul n k n XH (transpose n k XH)) j i.
Proof.
  intros HH Hav.
  destruct (alloc_result_granted _ _ _ _ _ (transpose_matrix_spec H n k XH σ c HH))
    as (lt & Hrun1 & Hlt); [intros t Ht; apply Hav; lia |].
  assert (HH' : holds (<[lt := mat (transpose n k XH)]> σ) H n k XH).
  { apply holds_insert_ne; [| exact HH]. eapply holds_fresh; eassumption. }
  assert (Ht' : holds (<[lt := mat (transpose n k XH)]> σ) lt k n (transpose n k XH))
    by apply holds_new.
  destruct (alloc_result_granted _ _ _ _ _
              (matrix_multiply_spec H lt n k n _ _ _ (c + S k) HH' Ht'))
    as (lg & Hrun2 & Hlg); [intros t Ht; apply Hav; lia |].
  exists lt, lg. split; [exact Hrun1 |]. split; [exact Hrun2 |].
  intros i j Hi Hj. unfold mmul. rewrite !entry_tab2 by assumption.
  now apply dot_gram_sym.
Qed.

(** ** The factorization loop, continued *)

Lemma update_rule_nan n k W H i j :
  i < n -> j < k -> is_nan (entry H i j) = true ->
  is_nan (entry (update_rule n k W H) i j) = true.
Proof.
  intros Hi Hj Hnan. rewrite update_rule_zero by assumption. now apply fmul_nan_l.
Qed.

Lemma iterate_nan n k W H0 i j s t :
  i < n -> j < k -> s <= t ->
  is_nan (entry (iterate n k W H0 s) i j) = true ->
  is_nan (entry (iterate n k W H0 t) i j) = true.
Proof.
  intros Hi Hj Hst Hnan. induction Hst as [|t Hst IH]; [exact Hnan |].
  rewrite iterate_S. now apply update_rule_nan.
Qed.

Lemma stops_at_nan n k W H0 t i j :
  stops_at n k W H0 t -> i < n -> j < k ->
  is_nan (entry (iterate n k W H0 t) i j) = true -> t = 300.
Proof.
  intros (Ht & _ & [Hconv | ->]) Hi Hj Hnan; [| reflexivity].
  unfold converged in Hconv. replace (S (t - 1)) with t in Hconv by lia.
  rewrite fltb_nan in Hconv; [discriminate |].
  now apply frob_nan with (i := i) (j := j).
Qed.

(** X13: a NaN never leaves [H], and [symnmf] never takes a matrix with a
    NaN for converged.  With every request granted, if an entry of [H] is
    NaN after [s] updates of the run, [s = 0] being the initial matrix,
    that entry is NaN in the matrix returned, and the run performed
    exactly 300 updates. *)
Theorem symnmf_nan_runs_to_cap W H n k XW XH σ c :
  holds σ W n n XW -> holds σ H n k XH ->
  (forall t, c <= t -> avail t = true) ->
  exists l t,
    symnmf avail junk W H n k (State σ c) =
      Some (Some l, State (<[l := mat (iterate n k XW XH t)]> σ)
                          (c + symnmf_ticks n k t)) /\
    1 <= t <= 300 /\
    (forall i j, i < n -> j < k ->
       is_nan (entry (iterate n k XW XH t) i j) = true -> t = 300) /\
    (forall s i j, s <= t -> i < n -> j < k ->
       is_nan (entry (iterate n k XW XH s) i j) = true ->
       is_nan (entry (iterate n k XW XH t) i j) = true /\ t = 300).
Proof.
  intros HW HH Hav.
  pose proof (symnmf_spec W H n k XW XH σ c HW HH) as Hspec.
  destruct (symnmf avail junk W H n k (State σ c)) as [[[l|] s']|].
  - destruct Hspec as (Hl & t & Hstop & -> & _).
    exists l, t. split; [reflexivity |]. split; [apply Hstop |]. split.
    + intros i j Hi Hj Hnan. now apply (stops_at_nan n k XW XH t i j).
    + intros s i j Hs Hi Hj Hnan.
      assert (Hnan' : is_nan (entry (iterate n k XW XH t) i j) = true)
        by now apply (iterate_nan n k XW XH i j s t).
      split; [exact Hnan' |]. now apply (stops_at_nan n k XW XH t i j).
  - destruct Hspec as (t & Ht & _ & Hno & _). rewrite Hav in Hno by lia. discriminate.
  - destruct Hspec as (_ & Hno & _). rewrite Hav in Hno by lia. discriminate.
Qed.

(** X14: [symnmf] always performs the first update, and returns after it
    when the matrices are empty ([n = 0] or [k = 0]) or the first update
    moved [H] by less than 1e-4 in squared Frobenius distance: the matrix
    returned is then the result of one update of the initial [H]. *)
Theorem symnmf_single_update W H n k XW XH σ c :
  holds σ W n n XW -> holds σ H n k XH ->
  (forall t, c <= t -> avail t = true) ->
  n = 0 \/ k = 0 \/ (frob n k (update_rule n k XW XH) XH <? 1e-4)%float = true ->
  exists l,
    symnmf avail junk W H n k (State σ c) =
      Some (Some l, State (<[l := mat (update_rule n k XW XH)]> σ)
                          (c + symnmf_ticks n k 1)) /\
    σ !! l = None.
Proof.
  intros HW HH Hav Hone.
  assert (Hconv : converged n k XW XH 0 = true).
  { unfold converged. change (iterate n k XW XH 1) with (update_rule n k XW XH).
    change (iterate n k XW XH 0) with XH.
    destruct Hone as [Hn | [Hk | Hc]]; [| | exact Hc];
      rewrite frob_empty by auto; reflexivity. }
  pose proof (symnmf_spec W H n k XW XH σ c HW HH) as Hspec.
  destruct (symnmf avail junk W H n k (State σ c)) as [[[l|] s']|].
  - destruct Hspec as (Hl & t & (Ht & Hbefore & _) & -> & _).
    assert (t = 1) as ->.
    { destruct (decide (t = 1)) as [E | Hne]; [exact E |].
      rewrite Hbefore in Hconv by lia. discriminate. }
    exists l. split; [reflexivity | exact Hl].
  - destruct Hspec as (t & Ht & _ & Hno & _). rewrite Hav in Hno by lia. discriminate.
  - destruct Hspec as (_ & Hno & _). rewrite Hav in Hno by lia. discriminate.
Qed.

Lemma stops_at_unique n k W H0 t1 t2 :
  stops_at n k W H0 t1 -> stops_at n k W H0 t2 -> t1 = t2.
Proof.
  intros (Hr1 & Hb1 & Hl1) (Hr2 & Hb2 & Hl2). unfold MAX_ITER in *.
  destruct (Nat.lt_trichotomy t1 t2) as [Hlt | [E | Hlt]]; [| exact E |].
  - destruct Hl1 as [Hc | ->]; [| lia].
    rewrite (Hb2 (t1 - 1)) in Hc by lia. discriminate.
  - destruct Hl2 as [Hc | ->]; [| lia].
    rewrite (Hb1 (t2 - 1)) in Hc by lia. discriminate.
Qed.

(** * The command-line program meets its description *)

(** ** [fgets] and [strtok] make progress *)

Lemma fgets_chars_app room : forall rest l r,
  fgets_chars room rest = (l, r) -> rest = l ++ r.
Proof.
  induction room as [|room IH]; intros rest l r; simpl.
  - intros [= <- <-]. reflexivity.
  - destruct rest as [|ch rest']; [intros [= <- <-]; reflexivity |].
    destruct (decide (ch = LF)); [intros [= <- <-]; reflexivity |].
    destruct (fgets_chars room rest') as [l' r'] eqn:E.
    intros [= <- <-]. simpl. f_equal. now apply IH.
Qed.

Lemma fgets_progress size rest l r :
  1 < size -> fgets size rest = Some (l, r) -> rest = l ++ r /\ 0 < length l.
Proof.
  unfold fgets. destruct rest as [|ch rest']; [discriminate |].
  intros Hs E.
  assert (E' : fgets_chars (size - 1) (ch :: rest') = (l, r)) by congruence.
  clear E. split; [now apply fgets_chars_app in E' |].
  destruct (size - 1) as [|room] eqn:Hroom; [lia |].
  cbn [fgets_chars] in E'. destruct (decide (ch = LF)).
  - injection E' as <- <-. simpl. lia.
  - destruct (fgets_chars room rest'). injection E' as <- <-. simpl. lia.
Qed.

Arguments fgets : simpl never.

Lemma fgets_length rest l r :
  fgets MAX_LINE_LENGTH rest = Some (l, r) -> length r < length rest.
Proof.
  intros E. apply fgets_progress in E as [-> Hl]; [| unfold MAX_LINE_LENGTH; lia].
  rewrite length_app. lia.
Qed.

Lemma lines_of_fuel fuel1 : forall fuel2 rest,
  length rest <= fuel1 -> length rest <= fuel2 ->
  lines_of fuel1 rest = lines_of fuel2 rest.
Proof.
  induction fuel1 as [|fuel1 IH]; intros fuel2 rest H1 H2.
  - destruct rest; [| simpl in H1; lia]. now destruct fuel2.
  - destruct fuel2 as [|fuel2].
    + destruct rest; [reflexivity | simpl in H2; lia].
    + simpl. destruct (fgets MAX_LINE_LENGTH rest) as [[l r]|] eqn:E; [| reflexivity].
      apply fgets_length in E. f_equal. apply IH; lia.
Qed.

Lemma file_lines_unfold rest :
  file_lines rest =
  match fgets MAX_LINE_LENGTH rest with
  | None => []
  | Some (line, rest') => line :: file_lines rest'
  end.
Proof.
  unfold file_lines. destruct rest as [|ch rest']; [reflexivity |].
  cbn [length lines_of].
  destruct (fgets MAX_LINE_LENGTH (ch :: rest')) as [[l r]|] eqn:E; [| reflexivity].
  apply fgets_length in E. simpl in E. f_equal. apply lines_of_fuel; lia.
Qed.

(** [reads rest ls]: successive calls of [fgets] on a stream whose unread
    part is [rest] deliver the lines [ls] and then the null pointer. *)
Inductive reads : text -> list text -> Prop :=
  | reads_end : reads [] []
  | reads_line rest line rest' ls :
      fgets MAX_LINE_LENGTH rest = Some (line, rest') ->
      reads rest' ls -> reads rest (line :: ls).

Lemma file_lines_reads content : reads content (file_lines content).
Proof.
  remember (length content) as m eqn:Hm.
  revert content Hm. induction m as [m IH] using lt_wf_ind. intros content ->.
  rewrite file_lines_unfold.
  destruct (fgets MAX_LINE_LENGTH content) as [[l r]|] eqn:E.
  - eapply reads_line; [exact E |].
    apply (IH (length r)); [now apply fgets_length in E | reflexivity].
  - destruct content; [constructor | discriminate].
Qed.

Lemma reads_drop rest ls i :
  reads rest ls -> i < length ls ->
  exists resti, reads resti (drop i ls) /\
    exists rest', fgets MAX_LINE_LENGTH resti = Some (nth i ls [], rest') /\
                  reads rest' (drop (S i) ls).
Proof.
  intros Hr. revert i. induction Hr as [|rest line rest' ls Hf Hr IH]; intros i Hi.
  - simpl in Hi. lia.
  - destruct i as [|i].
    + exists rest. split; [exact (reads_line _ _ _ _ Hf Hr) |].
      exists rest'. split; [exact Hf | exact Hr].
    + simpl in Hi. destruct (IH i) as (resti & H1 & H2); [lia |].
      exists resti. split; [exact H1 | exact H2].
Qed.

Lemma reads_inv_cons rest line ls :
  reads rest (line :: ls) ->
  exists rest', fgets MAX_LINE_LENGTH rest = Some (line, rest') /\ reads rest' ls.
Proof. inversion 1; subst. eauto. Qed.

Lemma skip_delims_length s : length (skip_delims s) <= length s.
Proof.
  induction s as [|ch s IH]; simpl; [lia |].
  destruct (decide (ch = COMMA)); simpl; lia.
Qed.

Lemma token_span_length s t r :
  token_span s = (t, r) -> s <> [] -> length r < length s.
Proof.
  revert t r. induction s as [|ch s IH]; intros t r E Hne; [contradiction |].
  simpl in E. destruct (decide (ch = COMMA)).
  - injection E as <- <-. simpl. lia.
  - destruct (token_span s) as [t' r'] eqn:E'. injection E as <- <-.
    destruct s as [|ch' s'].
    + simpl in E'. injection E' as <- <-. simpl. lia.
    + specialize (IH _ _ eq_refl). simpl in *. assert (ch' :: s' <> []) by discriminate.
      specialize (IH H). lia.
Qed.

Lemma strtok_length s t r : strtok s = Some (t, r) -> length r < length s.
Proof.
  unfold strtok. pose proof (skip_delims_length s) as Hs.
  destruct (skip_delims s) as [|ch s'] eqn:E; [discriminate |].
  intros E'. assert (E2 : token_span (ch :: s') = (t, r)) by congruence.
  apply token_span_length in E2; [| discriminate]. simpl in *. lia.
Qed.

Lemma tokens_of_fuel fuel1 : forall fuel2 s,
  length s <= fuel1 -> length s <= fuel2 -> tokens_of fuel1 s = tokens_of fuel2 s.
Proof.
  induction fuel1 as [|fuel1 IH]; intros fuel2 s H1 H2.
  - destruct s; [| simpl in H1; lia]. now destruct fuel2.
  - destruct fuel2 as [|fuel2].
    + destruct s; [reflexivity | simpl in H2; lia].
    + simpl. destruct (strtok s) as [[t r]|] eqn:E; [| reflexivity].
      apply strtok_length in E. f_equal. apply IH; lia.
Qed.

Lemma tokens_unfold s :
  tokens s =
  match strtok s with
  | None => []
  | Some (tok, saved) => tok :: tokens saved
  end.
Proof.
  unfold tokens. destruct s as [|ch s']; [reflexivity |].
  cbn [length tokens_of].
  destruct (strtok (ch :: s')) as [[t r]|] eqn:E; [| reflexivity].
  apply strtok_length in E. simpl in E. f_equal. apply tokens_of_fuel; lia.
Qed.

Lemma c_string_length buf : length (c_string buf) <= length buf.
Proof.
  induction buf as [|ch buf IH]; simpl; [lia |].
  destruct (decide (ch = NUL)); simpl; lia.
Qed.

(** ** The first pass *)

Lemma count_tokens_spec fuel : forall s d,
  count_tokens fuel (strtok s) d = d + length (tokens_of fuel s).
Proof.
  induction fuel as [|fuel IH]; intros s d; simpl.
  - destruct (strtok s) as [[t r]|]; lia.
  - destruct (strtok s) as [[t r]|]; [| simpl; lia]. rewrite IH. simpl. lia.
Qed.

Lemma count_tokens_fields line :
  count_tokens (length line) (strtok (c_string line)) 0 = length (fields line).
Proof.
  rewrite count_tokens_spec. unfold fields, tokens. simpl. f_equal.
  apply tokens_of_fuel; [apply c_string_length | lia].
Qed.

Lemma count_dimensions_spec fuel : forall rest n d,
  count_dimensions fuel rest n d =
  (n + length (lines_of fuel rest),
   fold_left (fun d line => if decide (d = 0) then length (fields line) else d)
             (lines_of fuel rest) d).
Proof.
  induction fuel as [|fuel IH]; intros rest n d; simpl.
  - f_equal. lia.
  - destruct (fgets MAX_LINE_LENGTH rest) as [[l r]|]; [| simpl; f_equal; lia].
    rewrite IH. simpl. f_equal; [lia |]. f_equal.
    destruct (decide (d = 0)) as [-> | Hd]; [| reflexivity].
    apply count_tokens_fields.
Qed.

Lemma count_dimensions_file content :
  count_dimensions (length content) content 0 0 =
  (length (file_lines content), columns (file_lines content)).
Proof. now rewrite count_dimensions_spec. Qed.

(** ** Loops with a local variable *)

Lemma wp_for_ret {A R} (I : nat -> A -> state -> Prop) (Q : R -> state -> Prop)
    body cnt : forall i (a : A) s,
  I i a s ->
  (forall j b s', i <= j < i + cnt -> I j b s' ->
     wp (body j b) s' (fun x s'' =>
       match x with
       | inl b' => I (S j) b' s''
       | inr r => Q r s''
       end)) ->
  wp (for_ret i cnt body a) s (fun x s' =>
    match x with
    | inl b => I (i + cnt) b s'
    | inr r => Q r s'
    end).
Proof.
  induction cnt as [|cnt IH]; intros i a s Hi Hbody; simpl.
  - apply wp_ret. now rewrite Nat.add_0_r.
  - apply wp_bind. eapply wp_wand; [apply Hbody; [lia | exact Hi] |].
    intros [b|r] s' Hs'; simpl in Hs'.
    + replace (i + S cnt) with (S i + cnt) by lia.
      apply IH; [exact Hs' |]. intros j b' s'' Hj; apply Hbody; lia.
    + apply wp_ret. exact Hs'.
Qed.

Lemma wp_undefined {A B} (m : M A) (k : A -> M B) s :
  wp m s (fun a s' => k a s' = None) -> (m ≫= k) s = None.
Proof.
  unfold wp, mbind, M_bind, bind. destruct (m s) as [[a s']|]; [auto | contradiction].
Qed.

Lemma for_acc_split {A} (body : nat -> A -> M A) a : forall b i x s,
  for_acc i (a + b) body x s =
  (x' ← for_acc i a body x; for_acc (i + a) b body x') s.
Proof.
  induction a as [|a IH]; intros b i x s.
  - simpl. now rewrite Nat.add_0_r.
  - simpl. unfold mbind, M_bind, bind.
    destruct (body i x s) as [[x' s']|]; [| reflexivity].
    rewrite IH. unfold mbind, M_bind, bind.
    now replace (i + S a) with (S i + a) by lia.
Qed.

Lemma for_ret_split {A R} (body : nat -> A -> M (A + R)) a : forall b i x s,
  for_ret i (a + b) body x s =
  (r ← for_ret i a body x;
   match r with
   | inl x' => for_ret (i + a) b body x'
   | inr v => ret (inr v)
   end) s.
Proof.
  induction a as [|a IH]; intros b i x s.
  - simpl. now rewrite Nat.add_0_r.
  - simpl. unfold mbind, M_bind, bind.
    destruct (body i x s) as [[[x'|v] s']|]; [| reflexivity | reflexivity].
    rewrite IH. unfold mbind, M_bind, bind.
    now replace (i + S a) with (S i + a) by lia.
Qed.

(** ** [print_matrix] *)

Lemma join_snoc (fs : list text) (f : text) :
  join (fs ++ [f]) = concat (map (fun g => g ++ [COMMA]) fs) ++ f.
Proof.
  induction fs as [|g fs IH]; [reflexivity |].
  change ((g :: fs) ++ [f]) with (g :: (fs ++ [f])).
  destruct (fs ++ [f]) as [|h t] eqn:E; [now destruct fs |].
  change (join (g :: h :: t)) with (g ++ COMMA :: join (h :: t)).
  rewrite IH. simpl. now rewrite <- !app_assoc.
Qed.

Lemma printed_tab n m X :
  shaped n m X ->
  printed X =
  concat (map (fun i => join (map (fun j => fmt (entry X i j)) (seq 0 m)) ++ [LF])
              (seq 0 n)).
Proof.
  intros HX. unfold printed, csv. rewrite <- (tab2_entry n m X HX) at 1.
  unfold tab2, tab. rewrite !map_map. f_equal. apply map_ext. intros i.
  unfold csv_line. now rewrite map_map.
Qed.

Lemma print_matrix_spec a n m X out σ c :
  holds σ a n m X ->
  wp (print_matrix fmt a n m out) (State σ c)
     (fun out' s' => out' = out ++ printed X /\ s' = State σ c).
Proof.
  intros Ha. unfold print_matrix.
  set (row := fun i => join (map (fun j => fmt (entry X i j)) (seq 0 m))).
  eapply wp_wand.
  - apply (wp_for_acc (fun i acc s' =>
      acc = out ++ concat (map (fun i => row i ++ [LF]) (seq 0 i)) /\ s' = State σ c)).
    + split; [now rewrite app_nil_r | reflexivity].
    + intros i acc s' Hi [-> ->]. simpl in Hi.
      set (out_i := out ++ concat (map (fun i => row i ++ [LF]) (seq 0 i))).
      apply wp_bind. eapply wp_wand.
      * apply (wp_for_acc (fun j acc s' =>
          acc = out_i ++
                (if decide (j < m)
                 then concat (map (fun l => fmt (entry X i l) ++ [COMMA]) (seq 0 j))
                 else row i) /\
          s' = State σ c)).
        -- split; [| reflexivity]. destruct (decide (0 < m)) as [Hm | Hm].
           ++ simpl. now rewrite app_nil_r.
           ++ unfold row. replace m with 0 by lia. simpl. now rewrite app_nil_r.
        -- intros j acc s' Hj [-> ->]. simpl in Hj.
           apply wp_bind. eapply wp_get2_holds; [exact Ha | lia | lia |].
           apply wp_ret. split; [| reflexivity].
           destruct (decide (j < m)) as [_ | ?]; [| lia].
           destruct (decide (j < m - 1)) as [Hlt | Hge].
           ++ destruct (decide (S j < m)) as [_ | ?]; [| lia].
              rewrite seq_S, map_app, concat_app. simpl.
              now rewrite !app_nil_r, <- !app_assoc.
           ++ destruct (decide (S j < m)) as [? | _]; [lia |].
              assert (m = S j) as -> by lia.
              unfold row. rewrite seq_S, map_app.
              change (map (fun j0 => fmt (entry X i j0)) [0 + j])
                with [fmt (entry X i j)].
              rewrite join_snoc, map_map. now rewrite <- app_assoc.
      * intros acc s' [-> ->]. cbv beta. apply wp_ret. split; [| reflexivity].
        rewrite Nat.add_0_l. destruct (decide (m < m)) as [? | _]; [lia |].
        rewrite seq_S, map_app, concat_app. simpl.
        unfold out_i. now rewrite !app_nil_r, <- !app_assoc.
  - intros acc s' [-> ->]. split; [| reflexivity]. f_equal.
    simpl. symmetry. apply printed_tab, Ha.
Qed.

(** ** [read_data_from_file] *)

Lemma read_data_unfold filename :
  read_data_from_file avail junk fopen atof filename =
  match fopen filename with
  | None => ret None
  | Some content =>
      let '(n, d) := count_dimensions (length content) content 0 0 in
      data ← malloc_table avail n;
      r ← for_ret 0 n (read_row data d) content;
      match r with
      | inr v => ret (Some (v, n, d))
      | inl _ => ret (Some (data, n, d))
      end
  end.
Proof. reflexivity. Qed.

Lemma tokens_drop sv toks j :
  tokens sv = drop j toks -> j < length toks ->
  exists saved, strtok sv = Some (nth j toks [], saved) /\
                tokens saved = drop (S j) toks.
Proof.
  intros Hsv Hj. rewrite tokens_unfold in Hsv.
  destruct (nth_lookup_or_length toks j []) as [Hl | ?]; [| lia].
  rewrite (drop_S toks _ j Hl) in Hsv.
  destruct (strtok sv) as [[t saved]|]; [| discriminate].
  injection Hsv as -> <-. eauto.
Qed.

Lemma tokens_end sv toks j :
  tokens sv = drop j toks -> length toks <= j -> strtok sv = None.
Proof.
  intros Hsv Hj. rewrite tokens_unfold, drop_ge in Hsv by exact Hj.
  destruct (strtok sv) as [[t saved]|]; [discriminate | reflexivity].
Qed.

(** The inner loop of the second pass, as far as the line has tokens. *)
Lemma wp_read_tokens a pre post r0 i m line σ c :
  length pre = i -> m <= length r0 -> m <= length (fields line) ->
  wp (for_acc 0 m (fun j token =>
        match token with
        | Some (tok, _) => set2 a i j (atof tok) ;; ret (strtok_next token)
        | None => undefined
        end) (strtok (c_string line)))
     (State (<[a := Table (pre ++ Row r0 :: post)]> σ) c)
     (fun token s' =>
        s' = State (<[a := Table (pre ++
                 Row (tab m (fun j => atof (nth j (fields line) [])) ++ drop m r0)
                 :: post)]> σ) c /\
        exists sv, token = strtok sv /\ tokens sv = drop m (fields line)).
Proof.
  intros Hpre Hm Hlen.
  set (f := fun j => atof (nth j (fields line) [])).
  apply (wp_for_acc (fun j token s' =>
    s' = State (<[a := Table (pre ++ Row (tab j f ++ drop j r0) :: post)]> σ) c /\
    exists sv, token = strtok sv /\ tokens sv = drop j (fields line))).
  - split; [reflexivity |]. exists (c_string line). split; reflexivity.
  - intros j token s' Hj (-> & sv & -> & Hsv). simpl in Hj.
    destruct (tokens_drop sv (fields line) j Hsv) as (saved & Hs & Hsaved); [lia |].
    rewrite Hs. apply wp_bind.
    apply wp_set2_cur; [exact Hpre | |].
    { rewrite length_app, length_tab, length_drop. lia. }
    apply wp_ret. split.
    + now rewrite <- (fill_step f r0 j) by lia.
    + exists saved. split; [reflexivity | exact Hsaved].
Qed.

Lemma read_row_good a pre post i d rest line rest' σ c :
  length pre = i -> avail c = true ->
  fgets MAX_LINE_LENGTH rest = Some (line, rest') ->
  d <= length (fields line) ->
  wp (read_row (Some a) d i rest)
     (State (<[a := Table (pre ++ Wild :: post)]> σ) c)
     (fun x s' =>
        x = inl rest' /\
        s' = State (<[a := Table (pre ++
                 Row (tab d (fun j => atof (nth j (fields line) []))) :: post)]> σ)
                   (S c)).
Proof.
  intros Hpre Hav Hf Hd. unfold read_row.
  apply wp_bind, wp_malloc_row; [exact Hpre | intros _ r0 Hr0 | congruence].
  simpl negb. cbv iota. rewrite Hf. apply wp_bind. eapply wp_wand.
  - apply (wp_read_tokens a pre post r0 i d line σ (S c)); [exact Hpre | lia | exact Hd].
  - intros token s' (-> & _). apply wp_ret. split; [reflexivity |].
    now rewrite drop_ge, app_nil_r by lia.
Qed.

Lemma read_row_refused a (X : matrix) post i d rest σ c :
  length X = i -> avail c = false ->
  wp (read_row (Some a) d i rest)
     (State (<[a := Table (map Row X ++ Wild :: post)]> σ) c)
     (fun x s' => x = inr None /\ s' = State (delete a σ) (S c)).
Proof.
  intros HX Hav. unfold read_row.
  apply wp_bind, wp_malloc_row;
    [now rewrite length_map | congruence | intros _].
  simpl negb. cbv iota. apply wp_bind.
  eapply wp_free_c_array; [apply lookup_insert_eq | apply rows_init; lia |].
  apply wp_ret. split; [reflexivity |]. now rewrite delete_insert_eq.
Qed.

Lemma read_row_short a pre post i d rest line rest' σ c :
  length pre = i -> avail c = true ->
  fgets MAX_LINE_LENGTH rest = Some (line, rest') ->
  length (fields line) < d ->
  read_row (Some a) d i rest (State (<[a := Table (pre ++ Wild :: post)]> σ) c) = None.
Proof.
  intros Hpre Hav Hf Hd. unfold read_row.
  apply wp_undefined, wp_malloc_row; [exact Hpre | intros _ r0 Hr0 | congruence].
  simpl negb. cbv iota. rewrite Hf. apply bind_undefined.
  replace d with (length (fields line) + S (d - S (length (fields line)))) by lia.
  rewrite for_acc_split. apply wp_undefined. eapply wp_wand.
  - apply (wp_read_tokens a pre post r0 i (length (fields line)) line σ (S c));
      [exact Hpre | lia | lia].
  - intros token s' (-> & sv & -> & Hsv). cbv beta.
    rewrite (tokens_end sv (fields line) _ Hsv) by lia.
    reflexivity.
Qed.

Lemma wp_read_rows a content ls d m σ c :
  σ !! a = None -> reads content ls -> m <= length ls ->
  (forall i, i < m ->
     (forall t, c <= t <= c + i -> avail t = true) ->
     d <= length (fields (nth i ls []))) ->
  wp (for_ret 0 m (read_row (Some a) d) content)
     (State (<[a := Table (replicate (length ls) Wild)]> σ) c)
     (fun x s' =>
        match x with
        | inl rest =>
            reads rest (drop m ls) /\
            s' = State (<[a := Table (map Row (tab m (fun i =>
                             tab d (fun j => atof (nth j (fields (nth i ls [])) []))))
                           ++ replicate (length ls - m) Wild)]> σ) (c + m) /\
            forall t, c <= t < c + m -> avail t = true
        | inr r =>
            r = None /\
            exists i, i < m /\ s' = State σ (S (c + i)) /\ avail (c + i) = false /\
                      forall t, c <= t < c + i -> avail t = true
        end).
Proof.
  intros Ha Hreads Hm Hlong.
  set (g := fun i => tab d (fun j => atof (nth j (fields (nth i ls [])) []))).
  apply (wp_for_ret
    (fun i rest s' =>
       reads rest (drop i ls) /\
       s' = State (<[a := Table (map Row (tab i g) ++ replicate (length ls - i) Wild)]> σ)
                  (c + i) /\
       forall t, c <= t < c + i -> avail t = true)
    (fun r s' =>
       r = None /\
       exists i, i < m /\ s' = State σ (S (c + i)) /\ avail (c + i) = false /\
                 forall t, c <= t < c + i -> avail t = true)).
  - split; [exact Hreads |]. split; [| intros t Ht; lia].
    now rewrite Nat.sub_0_r, Nat.add_0_r.
  - intros i rest s' Hi (Hr & -> & Hav). simpl in Hi.
    replace (length ls - i) with (S (length ls - S i)) by lia. simpl replicate.
    destruct (avail (c + i)) eqn:Hc.
    + destruct (nth_lookup_or_length ls i []) as [Hl | ?]; [| lia].
      rewrite (drop_S ls _ i Hl) in Hr.
      apply reads_inv_cons in Hr as (rest' & Hf & Hr').
      eapply wp_wand.
      * apply (read_row_good a (map Row (tab i g)) _ i d rest (nth i ls []) rest' σ (c + i));
          [now rewrite length_map, length_tab | exact Hc | exact Hf |].
        apply Hlong; [lia |]. intros t Ht.
        destruct (decide (t = c + i)) as [-> | ?]; [exact Hc | apply Hav; lia].
      * intros x s' (-> & ->). split; [exact Hr' |]. split.
        -- rewrite tab_S, map_app, <- app_assoc, Nat.add_succ_r. reflexivity.
        -- intros t Ht. destruct (decide (t = c + i)) as [-> | ?];
             [exact Hc | apply Hav; lia].
    + eapply wp_wand.
      * apply (read_row_refused a (tab i g) _ i d rest σ (c + i));
          [apply length_tab | exact Hc].
      * intros x s' (-> & ->). split; [reflexivity |].
        exists i. rewrite delete_id by exact Ha.
        repeat split; [lia | exact Hc | exact Hav].
Qed.

Lemma read_data_from_file_spec filename content σ c :
  fopen filename = Some content ->
  (avail c = false -> file_lines content = []) ->
  (forall i, i < length (file_lines content) ->
     (forall t, c <= t <= S c + i -> avail t = true) ->
     columns (file_lines content) <= length (fields (nth i (file_lines content) []))) ->
  wp (read_data_from_file avail junk fopen atof filename) (State σ c)
     (read_result σ c (file_lines content)).
Proof.
  intros Hopen Htable Hlong. rewrite read_data_unfold, Hopen, count_dimensions_file.
  set (ls := file_lines content) in *.
  apply wp_bind, wp_malloc_table; [intros Hc a Ha | intros Hc].
  - apply wp_bind. eapply wp_wand.
    + apply (wp_read_rows a content ls (columns ls) (length ls) σ (S c));
        [exact Ha | apply file_lines_reads | lia |].
      intros i Hi Hav. apply Hlong; [exact Hi |]. intros t Ht.
      destruct (decide (t = c)) as [-> | ?]; [exact Hc | apply Hav; lia].
    + intros [rest | r] s'.
      * intros (_ & -> & Hav). apply wp_ret. unfold read_result.
        split; [reflexivity |]. split; [reflexivity |]. split; [exact Ha |].
        rewrite Nat.sub_diag, app_nil_r. split; [f_equal; lia |]. split.
        -- intros t Ht. destruct (decide (t = c)) as [-> | ?]; [exact Hc | apply Hav; lia].
        -- intros i Hi. apply Hlong; [exact Hi |]. intros t Ht.
           destruct (decide (t = c)) as [-> | ?]; [exact Hc | apply Hav; lia].
      * intros (-> & i & Hi & -> & Hno & Hav). apply wp_ret. unfold read_result.
        split; [reflexivity |]. split; [reflexivity |].
        exists (S c + i). split; [lia |]. split; [reflexivity |]. split; [exact Hno |].
        split; [| split].
        -- intros u Hu. destruct (decide (u = c)) as [-> | ?]; [exact Hc | apply Hav; lia].
        -- lia.
        -- intros i' Hi'. apply Hlong; [lia |]. intros t Ht.
           destruct (decide (t = c)) as [-> | ?]; [exact Hc | apply Hav; lia].
  - rewrite (Htable Hc). simpl. apply wp_ret. unfold read_result. simpl.
    split; [reflexivity |]. split; [reflexivity |].
    exists c. split; [lia |]. split; [reflexivity |]. split; [exact Hc |].
    split; [intros u Hu; lia |]. split; [reflexivity |]. intros i Hi. lia.
Qed.

Lemma read_data_undefined_table filename content σ c :
  fopen filename = Some content -> avail c = false -> file_lines content <> [] ->
  read_data_from_file avail junk fopen atof filename (State σ c) = None.
Proof.
  intros Hopen Hc Hne. rewrite read_data_unfold, Hopen, count_dimensions_file.
  destruct (file_lines content) as [|l ls] eqn:E; [contradiction |].
  apply wp_undefined, wp_malloc_table; [congruence | intros _].
  apply bind_undefined. simpl. reflexivity.
Qed.

Lemma read_data_undefined_row filename content σ c i :
  fopen filename = Some content ->
  i < length (file_lines content) ->
  (forall t, c <= t <= S c + i -> avail t = true) ->
  (forall i', i' < i ->
     columns (file_lines content) <= length (fields (nth i' (file_lines content) []))) ->
  length (fields (nth i (file_lines content) [])) < columns (file_lines content) ->
  read_data_from_file avail junk fopen atof filename (State σ c) = None.
Proof.
  intros Hopen Hi Hav Hlong Hshort.
  rewrite read_data_unfold, Hopen, count_dimensions_file.
  set (ls := file_lines content) in *.
  apply wp_undefined, wp_malloc_table; [intros _ a Ha | intros Hc].
  2: { rewrite Hav in Hc by lia. discriminate. }
  apply bind_undefined.
  replace (length ls) with (i + S (length ls - S i)) at 1 by lia.
  rewrite for_ret_split. apply wp_undefined. eapply wp_wand.
  - apply (wp_read_rows a content ls (columns ls) i σ (S c));
      [exact Ha | apply file_lines_reads | lia |].
    intros i' Hi' _. now apply Hlong.
  - intros [rest | r] s'.
    + intros (Hr & -> & _). cbv beta iota.
      replace (length ls - i) with (S (length ls - S i)) by lia. simpl replicate.
      destruct (nth_lookup_or_length ls i []) as [Hl | ?]; [| lia].
      rewrite (drop_S ls _ i Hl) in Hr.
      apply reads_inv_cons in Hr as (rest' & Hf & _).
      simpl for_ret. apply bind_undefined.
      apply (read_row_short _ _ _ i _ _ (nth i ls []) rest');
        [now rewrite length_map, length_tab | apply Hav; lia | exact Hf | exact Hshort].
    + intros (_ & i' & Hi' & _ & Hno & _). rewrite Hav in Hno by lia. discriminate.
Qed.

(** ** [main] *)




(** ** Files of comma-separated fields *)

Lemma fgets_chars_line (l : text) : forall room rest,
  LF ∉ l -> length l < room ->
  fgets_chars room (l ++ LF :: rest) = (l ++ [LF], rest).
Proof.
  induction l as [|ch l IH]; intros room rest Hl Hroom;
    (destruct room as [|room]; [simpl in Hroom; lia |]).
  - cbn [app fgets_chars]. now rewrite decide_True.
  - cbn [app fgets_chars length] in *.
    rewrite not_elem_of_cons in Hl. destruct Hl as [Hch Hl].
    rewrite decide_False by congruence.
    now rewrite IH by (auto; lia).
Qed.

Lemma fgets_line (l rest : text) :
  LF ∉ l -> length (l ++ [LF]) < MAX_LINE_LENGTH ->
  fgets MAX_LINE_LENGTH (l ++ LF :: rest) = Some (l ++ [LF], rest).
Proof.
  intros Hl Hlen. rewrite length_app in Hlen. simpl in Hlen.
  unfold fgets. destruct (l ++ LF :: rest) eqn:E; [now destruct l |].
  rewrite <- E. f_equal. apply fgets_chars_line; [exact Hl | lia].
Qed.

Lemma file_lines_csv (F : list (list text)) :
  Forall (fun row => (LF ∉ join row) /\ length (csv_line row) < MAX_LINE_LENGTH) F ->
  file_lines (csv F) = map csv_line F.
Proof.
  induction 1 as [|row F [Hlf Hlen] _ IH].
  - reflexivity.
  - rewrite file_lines_unfold. unfold csv. cbn [map concat]. fold (csv F).
    unfold csv_line at 1. rewrite <- app_assoc. cbn [app].
    rewrite fgets_line by assumption. now rewrite IH.
Qed.

Lemma c_string_clean (s : text) : NUL ∉ s -> c_string s = s.
Proof.
  induction s as [|ch s IH]; [reflexivity |].
  rewrite not_elem_of_cons. intros [Hch Hs]. cbn [c_string].
  rewrite decide_False by congruence. now rewrite IH.
Qed.

Lemma token_span_comma (f r : text) :
  COMMA ∉ f -> token_span (f ++ COMMA :: r) = (f, r).
Proof.
  induction f as [|ch f IH]; cbn [app token_span].
  - intros _. now rewrite decide_True.
  - rewrite not_elem_of_cons. intros [Hch Hf].
    rewrite decide_False by congruence. now rewrite IH.
Qed.

Lemma token_span_end (f : text) : COMMA ∉ f -> token_span f = (f, []).
Proof.
  induction f as [|ch f IH]; cbn [token_span]; [reflexivity |].
  rewrite not_elem_of_cons. intros [Hch Hf].
  rewrite decide_False by congruence. now rewrite IH.
Qed.

Lemma strtok_field (f r : text) :
  f <> [] -> COMMA ∉ f -> strtok (f ++ COMMA :: r) = Some (f, r).
Proof.
  intros Hne Hf. destruct f as [|ch f]; [contradiction |].
  unfold strtok. cbn [app skip_delims].
  rewrite decide_False by (intros ->; apply Hf; left).
  f_equal. apply (token_span_comma (ch :: f) r Hf).
Qed.

Lemma strtok_last (f : text) :
  f <> [] -> COMMA ∉ f -> strtok f = Some (f, []).
Proof.
  intros Hne Hf. destruct f as [|ch f]; [contradiction |].
  unfold strtok. cbn [skip_delims].
  rewrite decide_False by (intros ->; apply Hf; left).
  f_equal. apply (token_span_end (ch :: f) Hf).
Qed.

Lemma tokens_csv_line (row : list text) :
  row <> [] -> Forall clean row -> tokens (csv_line row) = line_fields row.
Proof.
  intros Hne Hrow. induction Hrow as [|f fs (Hf & Hc & Hl & _) Hfs IH]; [contradiction |].
  destruct fs as [|g fs].
  - unfold csv_line. cbn [join line_fields].
    rewrite tokens_unfold, strtok_last.
    + reflexivity.
    + now destruct f.
    + rewrite not_elem_of_app, not_elem_of_cons. split; [exact Hc |].
      split; [discriminate | apply not_elem_of_nil].
  - unfold csv_line. cbn [join line_fields]. rewrite <- app_assoc. cbn [app].
    rewrite tokens_unfold, strtok_field by assumption.
    f_equal. apply IH. discriminate.
Qed.

Lemma clean_join (row : list text) :
  Forall clean row -> (LF ∉ join row) /\ (NUL ∉ join row).
Proof.
  induction 1 as [|f fs (Hf & Hc & Hl & Hn) Hfs [IHl IHn]].
  - split; apply not_elem_of_nil.
  - destruct fs as [|g fs]; [now split |].
    cbn [join]. rewrite !not_elem_of_app, !not_elem_of_cons.
    repeat split; try assumption; discriminate.
Qed.

Lemma fields_csv_line (row : list text) :
  row <> [] -> Forall clean row -> fields (csv_line row) = line_fields row.
Proof.
  intros Hne Hrow. unfold fields. rewrite c_string_clean.
  - now apply tokens_csv_line.
  - destruct (clean_join row Hrow) as [_ Hn]. unfold csv_line.
    rewrite not_elem_of_app, not_elem_of_cons.
    split; [exact Hn |]. split; [discriminate | apply not_elem_of_nil].
Qed.

Lemma length_line_fields (row : list text) : length (line_fields row) = length row.
Proof.
  induction row as [|f [|g fs] IH]; [reflexivity | reflexivity |].
  cbn [line_fields length] in *. now rewrite IH.
Qed.

Lemma nth_line_fields (row : list text) j :
  j < length row ->
  nth j (line_fields row) [] =
  if decide (S j = length row) then nth j row [] ++ [LF] else nth j row [].
Proof.
  revert j. induction row as [|f [|g fs] IH]; intros j Hj.
  - simpl in Hj. lia.
  - simpl in Hj. now replace j with 0 by lia.
  - cbn [line_fields]. destruct j as [|j].
    + cbn [nth length]. now rewrite decide_False by lia.
    + cbn [nth]. rewrite IH by (simpl in *; lia).
      cbn [length]. destruct (decide (S j = S (length fs))), (decide (S (S j) = S (S (length fs))));
        try reflexivity; lia.
Qed.

Lemma columns_const d (ls : list text) :
  0 < d -> Forall (fun l => length (fields l) = d) ls ->
  fold_left (fun d line => if decide (d = 0) then length (fields line) else d) ls d = d.
Proof.
  intros Hd. induction 1 as [|l ls Hl _ IH]; [reflexivity |].
  simpl. rewrite decide_False by lia. exact IH.
Qed.

Lemma tidy_lines d (F : list (list text)) :
  0 < d -> tidy d F ->
  file_lines (csv F) = map csv_line F /\
  Forall (fun l => length (fields l) = d) (map csv_line F) /\
  (F <> [] -> columns (map csv_line F) = d).
Proof.
  intros Hd HF. split; [| split].
  - apply file_lines_csv. eapply Forall_impl; [exact HF |].
    intros row (_ & Hrow & Hlen). split; [apply clean_join, Hrow | exact Hlen].
  - apply Forall_map. eapply Forall_impl; [exact HF |].
    intros row (Hlen & Hrow & _). simpl.
    rewrite fields_csv_line, length_line_fields; [exact Hlen | | exact Hrow].
    intros ->. simpl in Hlen. lia.
  - intros Hne. destruct F as [|row F]; [contradiction |].
    apply Forall_cons in HF as [(Hlen & Hrow & _) HF].
    unfold columns. cbn [map fold_left]. rewrite decide_True by reflexivity.
    assert (Hf : length (fields (csv_line row)) = d).
    { rewrite fields_csv_line, length_line_fields; [exact Hlen | | exact Hrow].
      intros ->. simpl in Hlen. lia. }
    rewrite Hf. apply columns_const; [exact Hd |].
    apply Forall_map. eapply Forall_impl; [exact HF |].
    intros row' (Hlen' & Hrow' & _). simpl.
    rewrite fields_csv_line, length_line_fields; [exact Hlen' | | exact Hrow'].
    intros ->. simpl in Hlen'. lia.
Qed.

(** ** Properties of the command-line program *)

(** X17: [print_matrix] writes each row on a line of its own, the entries
    in the conversion ["%.4f"] separated by single commas, with no comma
    at the end of the line and a newline behind every row; it writes
    nothing for a matrix without rows, and leaves memory as it was. *)
Theorem print_matrix_writes matrix n m X out σ c :
  holds σ matrix n m X ->
  print_matrix fmt matrix n m out (State σ c) =
    Some (out ++ concat (map (fun row => join (map fmt row) ++ [LF]) X), State σ c).
Proof.
  intros Hm.
  pose proof (print_matrix_spec matrix n m X out σ c Hm) as Hwp.
  apply wp_run in Hwp as (out' & s' & Hrun & -> & ->). rewrite Hrun.
  unfold printed, csv. rewrite map_map. reflexivity.
Qed.


Lemma first_short (P : nat -> Prop) (Hdec : forall i, Decision (P i)) i :
  P i -> exists i0, i0 <= i /\ P i0 /\ forall i', i' < i0 -> ~ P i'.
Proof.
  assert (Hall : forall k,
            (forall i', i' < k -> ~ P i') \/
            exists i0, i0 < k /\ P i0 /\ forall i', i' < i0 -> ~ P i').
  { induction k as [|k [Hnone | (i0 & Hlt & H0 & Hmin)]].
    - left. intros i' Hi'. lia.
    - destruct (decide (P k)) as [Hk | Hk].
      + right. exists k. split; [lia |]. split; assumption.
      + left. intros i' Hi'. destruct (decide (i' = k)) as [-> | ?]; [exact Hk |].
        apply Hnone. lia.
    - right. exists i0. split; [lia |]. split; assumption. }
  intros Hi. destruct (Hall (S i)) as [Hnone | (i0 & Hlt & H0 & Hmin)].
  - exfalso. apply (Hnone i); [lia | exact Hi].
  - exists i0. split; [lia |]. split; assumption.
Qed.

(** X19: a line with fewer tokens than the first line makes
    [read_data_from_file] undefined: when every request is granted and
    some line has fewer tokens than [*d], the second pass passes a null
    token to [atof]. *)
Theorem read_data_from_file_short_line filename content σ c i :
  fopen filename = Some content ->
  i < length (file_lines content) ->
  length (fields (nth i (file_lines content) [])) < columns (file_lines content) ->
  (forall t, c <= t -> avail t = true) ->
  read_data_from_file avail junk fopen atof filename (State σ c) = None.
Proof.
  intros Hopen Hi Hshort Hav.
  set (ls := file_lines content) in *.
  destruct (first_short
              (fun i => i < length ls /\ length (fields (nth i ls [])) < columns ls)
              _ i (conj Hi Hshort)) as (i0 & Hle & [Hi0 Hs0] & Hmin).
  apply (read_data_undefined_row filename content σ c i0 Hopen Hi0).
  - intros t Ht. apply Hav. lia.
  - intros i' Hi'. fold ls.
    destruct (decide (columns ls <= length (fields (nth i' ls [])))) as [H | H];
      [exact H |].
    exfalso. apply (Hmin i' Hi'). split; lia.
  - exact Hs0.
Qed.

Lemma file_lines_nonempty content : content <> [] -> file_lines content <> [].
Proof.
  intros Hne. rewrite file_lines_unfold. unfold fgets.
  destruct content as [|ch rest]; [contradiction |].
  destruct (fgets_chars (MAX_LINE_LENGTH - 1) (ch :: rest)). discriminate.
Qed.

(** X20: [read_data_from_file] does not test the pointer to the table of
    rows.  When the request for the table is refused, the call returns
    the null pointer for an empty file, and is undefined for any other
    file: the first row pointer is stored through the null pointer. *)
Theorem read_data_from_file_table_unchecked filename content σ c :
  fopen filename = Some content -> avail c = false ->
  (content = [] ->
   read_data_from_file avail junk fopen atof filename (State σ c) =
     Some (Some (None, 0, 0), State σ (S c))) /\
  (content <> [] ->
   read_data_from_file avail junk fopen atof filename (State σ c) = None).
Proof.
  intros Hopen Hc. split.
  - intros ->. rewrite read_data_unfold, Hopen. simpl.
    unfold mbind, M_bind, bind, malloc_table. simpl. now rewrite Hc.
  - intros Hne. apply (read_data_undefined_table filename content σ c Hopen Hc).
    now apply file_lines_nonempty.
Qed.

Lemma read_data_csv_parsed filename F d σ c :
  fopen filename = Some (csv F) ->
  0 < d -> F <> [] -> tidy d F ->
  (forall t, c <= t < c + S (length F) -> avail t = true) ->
  exists data,
    read_data_from_file avail junk fopen atof filename (State σ c) =
      Some (Some (Some data, length F, d),
            State (<[data := mat (parsed (map csv_line F) d)]> σ) (c + S (length F))) /\
    σ !! data = None.
Proof.
  intros Hopen Hd Hne HF Hav.
  destruct (tidy_lines d F Hd HF) as (Hlines & Hfields & Hcols).
  specialize (Hcols Hne).
  assert (Htable : avail c = false -> file_lines (csv F) = []).
  { intros Hc. rewrite Hav in Hc by lia. discriminate. }
  assert (Hlong : forall i, i < length (file_lines (csv F)) ->
            (forall t, c <= t <= S c + i -> avail t = true) ->
            columns (file_lines (csv F)) <=
            length (fields (nth i (file_lines (csv F)) []))).
  { rewrite Hlines, Hcols. intros i Hi _. rewrite length_map in Hi.
    rewrite Forall_forall in Hfields.
    rewrite (Hfields (nth i (map csv_line F) [])); [lia |].
    apply nth_elem_of. now rewrite length_map. }
  pose proof (read_data_from_file_spec filename (csv F) σ c Hopen Htable Hlong) as Hwp.
  apply wp_run in Hwp as (r & s' & Hrun & Hres).
  rewrite Hlines in Hres. unfold read_result in Hres.
  rewrite Hcols, length_map in Hres.
  destruct r as [[[[data|] n'] d']|]; [| | contradiction].
  - destruct Hres as (-> & -> & Hdata & -> & _). exists data. now split.
  - destruct Hres as (_ & _ & t & Ht & _ & Hno & _).
    rewrite Hav in Hno by lia. discriminate.
Qed.

Lemma parsed_csv_entry F d i j :
  tidy d F -> i < length F -> j < d ->
  entry (parsed (map csv_line F) d) i j =
  atof (if decide (S j = d)
        then nth j (nth i F []) [] ++ [LF]
        else nth j (nth i F []) []).
Proof.
  intros HF Hi Hj. unfold parsed.
  rewrite entry_tab2 by (rewrite ?length_map; assumption). f_equal.
  assert (Hrow : nth i (map csv_line F) [] = csv_line (nth i F [])).
  { rewrite (nth_indep _ [] (csv_line [])) by now rewrite length_map.
    apply map_nth. }
  rewrite Hrow. unfold tidy in HF. rewrite Forall_forall in HF.
  destruct (HF (nth i F [])) as (Hlen & Hclean & _); [apply nth_elem_of; exact Hi |].
  rewrite fields_csv_line;
    [| intros E; rewrite E in Hlen; simpl in Hlen; lia | exact Hclean].
  rewrite nth_line_fields by lia. now rewrite Hlen.
Qed.

(** X21: [read_data_from_file] reads a file of [n] lines of [d]
    comma-separated fields each as an n×d matrix, with every request
    granted: entry (i,j) is [atof] of field [j] of line [i], the last field
    of a line being handed to [atof] together with the newline that ends
    the line.  The fields are non-empty and free of commas, newlines and
    NUL, and each line, its newline included, has fewer than 1024
    characters. *)
Theorem read_data_from_file_csv filename F d σ c :
  fopen filename = Some (csv F) ->
  0 < d -> F <> [] -> tidy d F ->
  (forall t, c <= t < c + S (length F) -> avail t = true) ->
  exists data R,
    read_data_from_file avail junk fopen atof filename (State σ c) =
      Some (Some (Some data, length F, d),
            State (<[data := mat R]> σ) (c + S (length F))) /\
    σ !! data = None /\ shaped (length F) d R /\
    forall i j, i < length F -> j < d ->
      entry R i j =
      atof (if decide (S j = d)
            then nth j (nth i F []) [] ++ [LF]
            else nth j (nth i F []) []).
Proof.
  intros Hopen Hd Hne HF Hav.
  destruct (read_data_csv_parsed filename F d σ c Hopen Hd Hne HF Hav)
    as (data & Hrun & Hdata).
  exists data, (parsed (map csv_line F) d).
  split; [exact Hrun |]. split; [exact Hdata |]. split.
  - unfold parsed. rewrite length_map. apply shaped_tab2.
  - intros i j Hi Hj. now apply parsed_csv_entry.
Qed.

(** X22: what [print_matrix] writes, [read_data_from_file] reads back.
    For an n×m matrix with [n, m > 0], if the text written by
    [print_matrix] is the content of a file, reading that file with every
    request granted gives an n×m matrix whose entry (i,j) is [atof] of the
    text printed for entry (i,j), followed by the newline in the last
    column.  This holds when the conversion ["%.4f"] produces fields that
    are non-empty and free of commas, newlines and NUL, and no printed
    line reaches 1024 characters. *)
Theorem print_matrix_read_back matrix filename n m X σ c σ' c' :
  holds σ matrix n m X -> 0 < n -> 0 < m ->
  tidy m (map (map fmt) X) ->
  (forall t, c' <= t < c' + S n -> avail t = true) ->
  exists out,
    print_matrix fmt matrix n m [] (State σ c) = Some (out, State σ c) /\
    (fopen filename = Some out ->
     exists data R,
       read_data_from_file avail junk fopen atof filename (State σ' c') =
         Some (Some (Some data, n, m), State (<[data := mat R]> σ') (c' + S n)) /\
       σ' !! data = None /\ shaped n m R /\
       forall i j, i < n -> j < m ->
         entry R i j =
         atof (if decide (S j = m)
               then fmt (entry X i j) ++ [LF]
               else fmt (entry X i j))).
Proof.
  intros HX Hn Hm Htidy Hav.
  pose proof (print_matrix_spec matrix n m X [] σ c HX) as Hwp.
  apply wp_run in Hwp as (out & s' & Hrun & -> & ->).
  eexists. split; [exact Hrun |]. simpl. unfold printed. intros Hopen.
  assert (Hlen : length (map (map fmt) X) = n) by (rewrite length_map; apply HX).
  destruct (read_data_csv_parsed filename (map (map fmt) X) m σ' c' Hopen Hm)
    as (data & Hread & Hdata).
  - intros E. rewrite E in Hlen. simpl in Hlen. lia.
  - exact Htidy.
  - now rewrite Hlen.
  - rewrite Hlen in Hread.
    exists data, (parsed (map csv_line (map (map fmt) X)) m).
    split; [exact Hread |]. split; [exact Hdata |]. split.
    + unfold parsed. rewrite length_map, Hlen. apply shaped_tab2.
    + intros i j Hi Hj.
      rewrite (parsed_csv_entry (map (map fmt) X) m i j Htidy) by (rewrite ?Hlen; lia).
      assert (Hf : nth j (nth i (map (map fmt) X) []) [] = fmt (entry X i j)).
      { destruct HX as [_ [HXn HXm]].
        rewrite (nth_indep _ [] (map fmt [])) by (rewrite length_map; lia).
        rewrite (map_nth (map fmt)).
        rewrite (nth_indep _ [] (fmt 0%float)).
        - unfold entry. apply map_nth.
        - rewrite length_map.
          rewrite Forall_forall in HXm.
          rewrite (HXm (nth i X [])); [lia |].
          apply nth_elem_of. lia. }
      now rewrite Hf.
Qed.





(** * The extension module meets its description *)

(** ** Reading Python lists *)



Lemma PyList_GetItem_matrix X i ps :
  i < length X ->
  PyList_GetItem (Some (py_matrix X)) (Z.of_nat i) ps =
    ret (Some (py_row (nth i X [])), ps).
Proof.
  intros Hi. unfold PyList_GetItem, py_matrix. rewrite length_map.
  rewrite decide_True by lia. rewrite Nat2Z.id.
  rewrite (nth_indep _ None (Some (py_row []))) by now rewrite length_map.
  now rewrite (map_nth (fun row => Some (py_row row))).
Qed.

Lemma PyList_GetItem_row r j ps :
  PyList_GetItem (Some (py_row r)) (Z.of_nat j) ps =
    ret (if decide (j < length r)
         then (Some (PyFloat (nth j r (-1)%float)), ps)
         else (None, raised ps)).
Proof.
  unfold PyList_GetItem, py_row. rewrite length_map.
  destruct (decide (j < length r)) as [Hj | Hj].
  - rewrite decide_True by lia. rewrite Nat2Z.id.
    rewrite (nth_indep _ None (Some (PyFloat (-1)%float))) by now rewrite length_map.
    now rewrite (map_nth (fun v => Some (PyFloat v))).
  - now rewrite decide_False by lia.
Qed.

Lemma short_snoc d (X : matrix) r :
  short d (X ++ [r]) = short d X || (length r <? d).
Proof. unfold short. rewrite existsb_app. simpl. now rewrite orb_false_r. Qed.

Lemma wp_py_row a pre post r0 i d r ps σ c :
  length pre = i -> length r0 = d ->
  wp (for_acc 0 d (fun j ps =>
        '(item, ps) ← PyList_GetItem (Some (py_row r)) (Z.of_nat j) ps;
        let '(v, ps) := PyFloat_AsDouble long_as_double item ps in
        set2 a i j v ;; ret ps) ps)
     (State (<[a := Table (pre ++ Row r0 :: post)]> σ) c)
     (fun ps' s' =>
        s' = State (<[a := Table (pre ++
                 Row (tab d (fun j => nth j r (-1)%float)) :: post)]> σ) c /\
        ps' = PyState (pending ps || (length r <? d)) (py_clock ps)).
Proof.
  intros Hpre Hr0.
  set (f := fun j => nth j r (-1)%float).
  eapply wp_wand.
  - apply (wp_for_acc (fun j ps' s' =>
      s' = State (<[a := Table (pre ++ Row (tab j f ++ drop j r0) :: post)]> σ) c /\
      ps' = PyState (pending ps || (length r <? j)) (py_clock ps))).
    + split; [reflexivity |]. destruct ps as [p k]. simpl.
      now rewrite orb_false_r.
    + intros j ps' s' Hj (-> & ->). simpl in Hj.
      rewrite PyList_GetItem_row. apply wp_bind, wp_ret.
      destruct (decide (j < length r)) as [Hlt | Hge]; cbn [PyFloat_AsDouble].
      * apply wp_bind. apply wp_set2_cur; [exact Hpre | |].
        { rewrite length_app, length_tab, length_drop. lia. }
        apply wp_ret. split.
        -- now rewrite <- (fill_step f r0 j) by lia.
        -- f_equal. f_equal.
           destruct (Nat.ltb_spec (length r) j), (Nat.ltb_spec (length r) (S j));
             try reflexivity; lia.
      * apply wp_bind. apply wp_set2_cur; [exact Hpre | |].
        { rewrite length_app, length_tab, length_drop. lia. }
        apply wp_ret. split.
        -- rewrite <- (fill_step f r0 j) by lia. unfold f.
           now rewrite (nth_overflow r) by lia.
        -- unfold raised. simpl. f_equal.
           destruct (Nat.ltb_spec (length r) (S j)); [| lia].
           now rewrite orb_true_r.
  - intros ps' s' (-> & ->). split; [| reflexivity].
    now rewrite drop_ge, app_nil_r by lia.
Qed.

Lemma py_list_to_c_array_spec X d ps σ c :
  wp (py_list_to_c_array avail junk long_as_double (py_matrix X)
        (Z.of_nat (length X)) (Z.of_nat d) ps)
     (State σ c) (to_c_result σ c d X ps).
Proof.
  unfold py_list_to_c_array, malloc_table_int.
  rewrite decide_False by lia. rewrite !Nat2Z.id.
  set (g := fun i => tab d (fun j => nth j (nth i X []) (-1)%float)).
  apply wp_bind, wp_malloc_table; [intros Hc a Ha | intros Hc].
  2: { apply wp_ret. split; [reflexivity |]. simpl. exists c.
       repeat split; [lia | lia | exact Hc | intros u Hu; lia]. }
  apply wp_bind. eapply wp_wand.
  - apply (wp_for_ret
      (fun i ps' s' =>
         s' = State (<[a := Table (map Row (tab i g)
                                   ++ replicate (length X - i) Wild)]> σ)
                    (S c + i) /\
         (forall t, S c <= t < S c + i -> avail t = true) /\
         ps' = PyState (pending ps || short d (take i X)) (py_clock ps))
      (fun ps' s' =>
         py_clock ps' = py_clock ps /\
         exists i, i < length X /\ s' = State σ (S (S c + i)) /\
                   avail (S c + i) = false /\
                   forall t, S c <= t < S c + i -> avail t = true)).
    + split; [now rewrite Nat.sub_0_r, Nat.add_0_r |].
      split; [intros t Ht; lia |]. destruct ps as [p k]. simpl.
      now rewrite orb_false_r.
    + intros i ps' s' Hi (-> & Hav & ->). simpl in Hi.
      replace (length X - i) with (S (length X - S i)) by lia. simpl replicate.
      unfold malloc_row_int. rewrite decide_False by lia. rewrite Nat2Z.id.
      apply wp_bind, wp_malloc_row;
        [now rewrite length_map, length_tab | intros Hok r0 Hr0 | intros Hno];
        simpl negb; cbv iota.
      * rewrite PyList_GetItem_matrix by lia.
        apply wp_bind, wp_ret. cbv beta iota. apply wp_bind. eapply wp_wand.
        -- apply (wp_py_row a _ _ r0 i d (nth i X []));
             [now rewrite length_map, length_tab | exact Hr0].
        -- intros ps' s' (-> & ->). apply wp_ret. split; [| split].
           ++ rewrite tab_S, map_app, <- app_assoc, Nat.add_succ_r. reflexivity.
           ++ intros t Ht. destruct (decide (t = S c + i)) as [-> | ?];
                [exact Hok | apply Hav; lia].
           ++ simpl. f_equal.
              destruct (nth_lookup_or_length X i []) as [Hl | ?]; [| lia].
              rewrite (take_S_r X i _ Hl), short_snoc. now rewrite orb_assoc.
      * apply wp_bind. eapply wp_free_c_array;
          [apply lookup_insert_eq | apply rows_init; rewrite length_tab; lia |].
        apply wp_ret. split; [reflexivity |].
        exists i. rewrite delete_insert_id by exact Ha.
        repeat split; [lia | exact Hno | exact Hav].
  - intros [ps' | ps'] s'.
    + intros (-> & Hav & ->). apply wp_ret. split; [reflexivity |]. simpl.
      split; [exact Ha |]. rewrite Nat.sub_diag, app_nil_r, take_ge by lia.
      split; [f_equal; lia |]. split; [| reflexivity].
      intros t Ht. destruct (decide (t = c)) as [-> | ?]; [exact Hc | apply Hav; lia].
    + intros (Hclock & i & Hi & -> & Hno & Hav). apply wp_ret.
      split; [exact Hclock |]. simpl. exists (S c + i).
      repeat split; [lia | lia | exact Hno |].
      intros u Hu. destruct (decide (u = c)) as [-> | ?]; [exact Hc | apply Hav; lia].
Qed.

(** ** Building Python lists *)

Lemma PyList_New_eq n ps :
  PyList_New py_avail (Z.of_nat n) ps =
  if py_avail (py_clock ps)
  then (Some (PyList (replicate n None)), PyState (pending ps) (S (py_clock ps)))
  else (None, PyState true (S (py_clock ps))).
Proof.
  unfold PyList_New, py_alloc. rewrite decide_False by lia. rewrite Nat2Z.id.
  now destruct (py_avail (py_clock ps)).
Qed.

Lemma PyFloat_FromDouble_eq v ps :
  PyFloat_FromDouble py_avail v ps =
  if py_avail (py_clock ps)
  then (Some (PyFloat v), PyState (pending ps) (S (py_clock ps)))
  else (None, PyState true (S (py_clock ps))).
Proof.
  unfold PyFloat_FromDouble, py_alloc. now destruct (py_avail (py_clock ps)).
Qed.

Lemma set_item_cursor {A} (pre : list (option A)) k j x :
  length pre = j ->
  <[j := Some x]> (pre ++ replicate (S k) None) = (pre ++ [Some x]) ++ replicate k None.
Proof.
  intros Hj. simpl replicate.
  rewrite (cursor_insert pre (replicate k None) None (Some x) j Hj).
  now rewrite <- app_assoc.
Qed.

Lemma wp_py_floats a n d X i p k0 σ c :
  holds σ a n d X -> i < n ->
  wp (for_ret 0 d (fun j '(py_row, ps) =>
        v ← get2 a i j;
        let '(py_float, ps) := PyFloat_FromDouble py_avail v ps in
        match py_float with
        | None => ret (inr ps)
        | Some py_float => ret (inl (PyList_SET_ITEM py_row j py_float, ps))
        end) (PyList (replicate d None), PyState p k0))
     (State σ c)
     (fun x s' =>
        s' = State σ c /\
        match x with
        | inl acc =>
            acc = (py_row (nth i X []), PyState p (k0 + d)) /\
            forall t, k0 <= t < k0 + d -> py_avail t = true
        | inr ps' =>
            exists t, k0 <= t < k0 + d /\ ps' = PyState true (S t) /\
                      py_avail t = false /\ forall u, k0 <= u < t -> py_avail u = true
        end).
Proof.
  intros Ha Hi.
  assert (Hlen : length (nth i X []) = d) by (apply shaped_nth with (n := n); [apply Ha | exact Hi]).
  eapply wp_wand.
  - apply (wp_for_ret
      (fun j acc s' =>
         s' = State σ c /\
         acc = (PyList (map (fun v => Some (PyFloat v)) (take j (nth i X []))
                        ++ replicate (d - j) None),
                PyState p (k0 + j)) /\
         forall t, k0 <= t < k0 + j -> py_avail t = true)
      (fun ps' s' =>
         s' = State σ c /\
         exists t, k0 <= t < k0 + d /\ ps' = PyState true (S t) /\
                   py_avail t = false /\ forall u, k0 <= u < t -> py_avail u = true)).
    + split; [reflexivity |]. split; [| intros t Ht; lia].
      now rewrite take_0, Nat.sub_0_r, Nat.add_0_r.
    + intros j acc s' Hj (-> & -> & Hav). simpl in Hj. cbv beta iota.
      apply wp_bind. eapply wp_get2_holds; [exact Ha | exact Hi | lia |].
      rewrite PyFloat_FromDouble_eq. cbn [py_clock pending].
      destruct (py_avail (k0 + j)) eqn:E; apply wp_ret.
      * split; [reflexivity |]. split.
        -- f_equal; [| f_equal; lia]. unfold PyList_SET_ITEM. f_equal.
           replace (d - j) with (S (d - S j)) by lia.
           rewrite set_item_cursor by (rewrite length_map, length_take; lia).
           destruct (nth_lookup_or_length (nth i X []) j 0%float) as [Hl | ?]; [| lia].
           rewrite (take_S_r _ j _ Hl), map_app. reflexivity.
        -- intros t Ht. destruct (decide (t = k0 + j)) as [-> | ?];
             [exact E | apply Hav; lia].
      * split; [reflexivity |]. exists (k0 + j).
        repeat split; [lia | lia | exact E | exact Hav].
  - intros [acc | ps'] s'.
    + intros (-> & -> & Hav). split; [reflexivity |]. split; [| exact Hav].
      rewrite Nat.add_0_l, Nat.sub_diag, app_nil_r, take_ge by lia. reflexivity.
    + intros H. exact H.
Qed.

Lemma c_array_to_py_list_spec a n d X ps σ c :
  holds σ a n d X ->
  wp (c_array_to_py_list py_avail a (Z.of_nat n) (Z.of_nat d) ps) (State σ c)
     (to_py_result (State σ c) n d X ps).
Proof.
  intros Ha. unfold c_array_to_py_list. rewrite PyList_New_eq, !Nat2Z.id.
  destruct ps as [p k0]. cbn [py_clock pending].
  destruct (py_avail k0) eqn:E0.
  2: { apply wp_ret. split; [reflexivity |]. cbn [fst snd py_clock]. exists k0.
       unfold py_ticks. repeat split; [lia | lia | exact E0 | intros u Hu; lia]. }
  apply wp_bind. eapply wp_wand.
  - apply (wp_for_ret
      (fun i acc s' =>
         s' = State σ c /\
         acc = (PyList (map (fun row => Some (py_row row)) (take i X)
                        ++ replicate (n - i) None),
                PyState p (S k0 + i * (1 + d))) /\
         forall t, S k0 <= t < S k0 + i * (1 + d) -> py_avail t = true)
      (fun ps' s' =>
         s' = State σ c /\
         exists t, S k0 <= t < S k0 + n * (1 + d) /\ ps' = PyState true (S t) /\
                   py_avail t = false /\ forall u, S k0 <= u < t -> py_avail u = true)).
    + split; [reflexivity |]. split; [| intros t Ht; lia].
      now rewrite take_0, Nat.sub_0_r, Nat.mul_0_l, Nat.add_0_r.
    + intros i acc s' Hi (-> & -> & Hav). simpl in Hi. cbv beta iota.
      assert (Hrange : S k0 + i * (1 + d) + (1 + d) <= S k0 + n * (1 + d)) by nia.
      rewrite PyList_New_eq. cbn [py_clock pending].
      destruct (py_avail (S k0 + i * (1 + d))) eqn:E.
      * apply wp_bind. eapply wp_wand.
        -- apply (wp_py_floats a n d X i p (S (S k0 + i * (1 + d))) σ c Ha). lia.
        -- intros [acc | ps'] s' (-> & Hres).
           ++ destruct Hres as (-> & Hav'). cbv beta iota. apply wp_ret.
              split; [reflexivity |]. split.
              ** f_equal; [| f_equal; lia]. unfold PyList_SET_ITEM. f_equal.
                 replace (n - i) with (S (n - S i)) by lia.
                 rewrite set_item_cursor
                   by (rewrite length_map, length_take; destruct Ha as [_ [Hn _]]; lia).
                 destruct (nth_lookup_or_length X i []) as [Hl | ?];
                   [| destruct Ha as [_ [Hn _]]; lia].
                 rewrite (take_S_r _ i _ Hl), map_app. reflexivity.
              ** intros t Ht.
                 destruct (decide (t < S k0 + i * (1 + d))) as [Hlt | Hge];
                   [apply Hav; lia |].
                 destruct (decide (t = S k0 + i * (1 + d))) as [-> | Hne];
                   [exact E | apply Hav'; lia].
           ++ destruct Hres as (t & Ht & -> & Hno & Hav'). apply wp_ret.
              split; [reflexivity |].
              exists t. repeat split; [lia | lia | exact Hno |].
              intros u Hu.
              destruct (decide (u < S k0 + i * (1 + d))) as [Hlt | Hge];
                [apply Hav; lia |].
              destruct (decide (u = S k0 + i * (1 + d))) as [-> | Hne];
                [exact E | apply Hav'; lia].
      * apply wp_ret. split; [reflexivity |]. exists (S k0 + i * (1 + d)).
        repeat split; [lia | lia | exact E | exact Hav].
  - intros [acc | ps'] s'.
    + intros (-> & -> & Hav). apply wp_ret. split; [reflexivity |].
      cbn [fst snd py_clock pending].
      split; [| split].
      * rewrite Nat.add_0_l, Nat.sub_diag, app_nil_r, take_ge
          by (destruct Ha as [_ [Hn _]]; lia). reflexivity.
      * unfold py_ticks. f_equal. lia.
      * unfold py_ticks. intros t Ht.
        destruct (decide (t = k0)) as [-> | ?]; [exact E0 | apply Hav; lia].
    + intros (-> & t & Ht & -> & Hno & Hav). apply wp_ret. split; [reflexivity |].
      cbn [fst snd py_clock]. exists t. unfold py_ticks.
      repeat split; [lia | lia | exact Hno |].
      intros u Hu. destruct (decide (u = k0)) as [-> | ?]; [exact E0 | apply Hav; lia].
Qed.

(** ** The functions of the module *)




Lemma short_shaped n d X : shaped n d X -> short d X = false.
Proof.
  intros [_ HX]. unfold short. induction HX as [|r X Hr _ IH]; [reflexivity |].
  simpl. rewrite IH, orb_false_r. apply Nat.ltb_ge. lia.
Qed.

Lemma padded_shaped n d X : shaped n d X -> padded d X = X.
Proof.
  intros HX. unfold padded.
  transitivity (tab2 n d (entry X)); [| apply tab2_entry, HX].
  replace (length X) with n by (symmetry; apply HX).
  unfold tab2, tab. apply map_ext_in. intros i Hi%in_seq.
  apply map_ext_in. intros j Hj%in_seq. unfold entry.
  apply nth_indep. rewrite (shaped_nth n d X i HX); lia.
Qed.






(** ** Properties of the extension module *)


(** X26: [c_array_to_py_list] on an n×d matrix reads the matrix and
    leaves memory as it was.  It returns the list of the [n] rows, each a
    list of [d] floats with the doubles of the row, when the interpreter
    grants the [1 + n * (1 + d)] objects; it returns the null pointer,
    with an exception pending, as soon as an object is refused. *)
Theorem c_array_to_py_list_builds array n d X ps σ c :
  holds σ array n d X ->
  exists r ps',
    c_array_to_py_list py_avail array (Z.of_nat n) (Z.of_nat d) ps (State σ c) =
      Some ((r, ps'), State σ c) /\
    match r with
    | Some v =>
        v = PyList (map (fun row => Some (PyList (map (fun x => Some (PyFloat x)) row))) X) /\
        ps' = PyState (pending ps) (py_clock ps + (1 + n * (1 + d))) /\
        forall t, py_clock ps <= t < py_clock ps + (1 + n * (1 + d)) -> py_avail t = true
    | None =>
        pending ps' = true /\
        exists t, py_clock ps <= t < py_clock ps + (1 + n * (1 + d)) /\
                  py_clock ps' = S t /\ py_avail t = false
    end.
Proof.
  intros Ha.
  pose proof (c_array_to_py_list_spec array n d X ps σ c Ha) as Hwp.
  apply wp_run in Hwp as ([r ps'] & s' & Hrun & -> & Hres).
  exists r, ps'. split; [exact Hrun |]. cbn [fst snd] in Hres.
  destruct r as [v|].
  - destruct Hres as (-> & -> & Hav). split; [reflexivity |]. split; [reflexivity |].
    exact Hav.
  - destruct Hres as (t & Ht & -> & Hno & _). split; [reflexivity |].
    exists t. split; [exact Ht |]. split; [reflexivity | exact Hno].
Qed.

(** X27: a list of [n] lists of [d] floats each, converted by
    [py_list_to_c_array] and back by [c_array_to_py_list], comes out as it
    was, when the requests of both calls are granted; no exception is
    raised on the way. *)
Theorem py_list_round_trip X n d ps σ c :
  shaped n d X ->
  (forall t, c <= t < c + S n -> avail t = true) ->
  (forall t, py_clock ps <= t < py_clock ps + py_ticks n d -> py_avail t = true) ->
  exists a s1,
    py_list_to_c_array avail junk long_as_double (py_matrix X)
      (Z.of_nat n) (Z.of_nat d) ps (State σ c) = Some ((Some a, ps), s1) /\
    c_array_to_py_list py_avail a (Z.of_nat n) (Z.of_nat d) ps s1 =
      Some ((Some (py_matrix X), PyState (pending ps) (py_clock ps + py_ticks n d)), s1).
Proof.
  intros HX Hav Hpy.
  assert (Hlen : length X = n) by apply HX.
  pose proof (py_list_to_c_array_spec X d ps σ c) as Hwp. rewrite Hlen in Hwp.
  apply wp_run in Hwp as ([r ps'] & s1 & Hrun & Hclock & Hres).
  cbn [fst snd] in *. destruct r as [a|].
  2: { destruct Hres as (t & Ht & _ & Hno & _).
       rewrite Hav in Hno by lia. discriminate. }
  destruct Hres as (Ha & -> & _ & Hpend).
  rewrite (short_shaped n d X HX), orb_false_r in Hpend.
  rewrite (padded_shaped n d X HX) in *.
  assert (ps' = ps) as -> by (destruct ps, ps'; simpl in *; congruence).
  exists a. eexists. split; [exact Hrun |].
  pose proof (c_array_to_py_list_spec a n d X ps (<[a := mat X]> σ) (c + S (length X)))
    as Hwp.
  apply wp_run in Hwp as ([r ps'] & s2 & Hrun2 & -> & Hres);
    [| split; [apply lookup_insert_eq | exact HX]].
  cbn [fst snd] in Hres. rewrite Hrun2. destruct r as [v|].
  - destruct Hres as (-> & -> & _). reflexivity.
  - destruct Hres as (t & Ht & _ & Hno & _). rewrite Hpy in Hno by lia. discriminate.
Qed.


(** X29: [py_sym], [py_ddg] and [py_norm] take the number of columns from
    the first item of their argument without looking at what
    [PyList_GetItem] returned.  Called with the empty list, or with an
    object that is not a list, they pass a null pointer to [PyList_Size]:
    the call has undefined behaviour. *)
Theorem py_graph_undefined py_points ps s :
  (forall items, py_points = PyList items -> items = []) ->
  py_sym avail junk exp py_avail long_as_double [py_points] ps s = None /\
  py_ddg avail junk exp py_avail long_as_double [py_points] ps s = None /\
  py_norm avail junk exp py_avail long_as_double [py_points] ps s = None.
Proof.
  intros Hempty. destruct py_points as [v | z | items |];
    [| | rewrite (Hempty items eq_refl) |]; repeat split; reflexivity.
Qed.


End Specs.

(** * The claims at concrete inputs *)

Lemma store_ex_W : holds store_ex 1 2 2 W_ex.
Proof. split; [reflexivity |]. split; [reflexivity | repeat constructor]. Qed.

Lemma store_ex_H : holds store_ex 2 2 2 H_ex.
Proof. split; [reflexivity |]. split; [reflexivity | repeat constructor]. Qed.

(** C7: evaluation at the failing input.  [symnmf] on a 2×2 problem, when
    the request for the table of [H_prev] is granted and the request for
    the table of [result] is refused, passes two uninitialised row
    pointers to [free]: the call has undefined behaviour instead of
    returning the null pointer. *)
Theorem symnmf_refused_result_table :
  holds store_ex 1 2 2 W_ex /\ holds store_ex 2 2 2 H_ex /\
  refused_at 1 0 = true /\ refused_at 1 1 = false /\
  symnmf (refused_at 1) stale 1 2 2 2 (State store_ex 0) = None.
Proof.
  split; [exact store_ex_W |]. split; [exact store_ex_H |].
  split; [reflexivity |]. split; [reflexivity |].
  apply symnmf_undefined; [reflexivity | reflexivity | lia].
Qed.

Lemma points_store_holds : holds points_store 1 3 2 points_ex.
Proof. split; [reflexivity |]. split; [reflexivity | repeat constructor]. Qed.

Lemma points_ex_finite i k :
  i < 3 -> k < 2 -> is_finite (entry points_ex i k) = true.
Proof.
  intros Hi Hk.
  destruct i as [|[|[|i]]]; [| | | lia]; destruct k as [|[|k]]; try lia; reflexivity.
Qed.

Lemma step_exp_range x :
  (x <=? 0)%float = true ->
  (0 <=? step_exp x)%float = true /\ (step_exp x <=? 1)%float = true.
Proof.
  intros Hx. unfold step_exp. rewrite Hx.
  destruct (is_zero x); [split; reflexivity |].
  destruct (is_infinity x); split; reflexivity.
Qed.

(** C1 at the regression input: one update of [H = [[1,0],[0,1]]] under
    [W = [[0,1],[1,0]]] leaves [H[0][0] = 1 * (0.5 + 0.5 * (0 / 1)) = 0.5]. *)
Lemma update_H_step_witness :
  exists XH',
    update_H granted stale 1 2 2 2 (State store_ex 0) =
      Some (true, State (<[2%positive := mat XH']> store_ex) 12) /\
    entry XH' 0 0 = (1 * (0.5 + 0.5 * (0 / 1)))%float /\
    entry XH' 0 0 = 0.5%float.
Proof.
  destruct (update_H_step granted stale 1 2 2 2 W_ex H_ex store_ex 0
              store_ex_W store_ex_H (fun _ _ => eq_refl))
    as (XH' & Hrun & _ & Hent & _).
  exists XH'. split; [exact Hrun |].
  rewrite (Hent 0 0) by lia. split; reflexivity.
Defined.

(** C2 at the regression input. *)
Lemma symnmf_terminates_witness :
  exists l t,
    symnmf granted stale 1 2 2 2 (State store_ex 0) =
      Some (Some l, State (<[l := mat (iterate 2 2 W_ex H_ex t)]> store_ex)
                          (symnmf_ticks 2 2 t)) /\
    1 <= t <= 300.
Proof.
  destruct (symnmf_terminates granted stale 1 2 2 2 W_ex H_ex store_ex 0
              store_ex_W store_ex_H (fun _ _ => eq_refl))
    as (l & t & Hrun & _ & Ht & _).
  exists l, t. split; [exact Hrun | exact Ht].
Defined.

(** C3 at the end-to-end scenario. *)
Lemma sym_symmetric_zero_diagonal_witness :
  exists l A,
    sym granted stale step_exp 1 3 2 (State points_store 0) =
      Some (Some l, State (<[l := mat A]> points_store) 4) /\
    entry A 0 2 = entry A 2 0 /\ entry A 1 1 = 0%float.
Proof.
  destruct (sym_symmetric_zero_diagonal granted stale step_exp 1 3 2 points_ex
              points_store 0 points_store_holds (fun _ _ => eq_refl))
    as (l & A & Hrun & _ & _ & _ & Hsym & _ & Hdiag & _).
  exists l, A. split; [exact Hrun |]. split; [apply Hsym; lia | apply Hdiag; lia].
Defined.

(** C4 at the end-to-end scenario. *)
Lemma norm_entries_witness :
  exists l W,
    norm granted stale step_exp 1 3 2 (State points_store 0) =
      Some (Some l, State (<[l := mat W]> points_store) 9) /\
    entry W 0 2 = entry W 2 0.
Proof.
  destruct (norm_entries granted stale step_exp 1 3 2 points_ex
              points_store 0 points_store_holds (fun _ _ => eq_refl))
    as (l & W & Hrun & _ & _ & _ & Hsym & _).
  exists l, W. split; [exact Hrun | apply Hsym; lia].
Defined.

(** C4 as stated fails for a single point: the degree is [0.0], and the
    diagonal entry [0.0 / sqrt(0.0 * 0.0)] of the matrix [norm] returns is
    NaN, not zero, whatever [exp] is. *)
Lemma norm_single_point_nan :
  holds point_store 1 1 1 [[0%float]] /\
  forall junk exp, exists l W,
    norm granted junk exp 1 1 1 (State point_store 0) =
      Some (Some l, State (<[l := mat W]> point_store) 5) /\
    is_nan (entry W 0 0) = true /\ is_zero (entry W 0 0) = false.
Proof.
  assert (Hholds : holds point_store 1 1 1 [[0%float]]).
  { split; [reflexivity |]. split; [reflexivity | repeat constructor]. }
  split; [exact Hholds |]. intros junk exp.
  destruct (alloc_result_granted granted _ _ _ _ _
              (norm_spec granted junk exp 1 1 1 _ point_store 0 Hholds)
              (fun _ _ => eq_refl)) as (l & Hrun & _).
  exists l, (normalized exp 1 1 [[0%float]]). split; [exact Hrun |].
  split; reflexivity.
Qed.

(** C5 at the end-to-end scenario. *)
Lemma ddg_diagonal_witness :
  exists l D,
    ddg granted stale step_exp 1 3 2 (State points_store 0) =
      Some (Some l, State (<[l := mat D]> points_store) 8) /\
    entry D 0 1 = 0%float.
Proof.
  destruct (ddg_diagonal granted stale step_exp 1 3 2 points_ex
              points_store 0 points_store_holds (fun _ _ => eq_refl))
    as (l & D & Hrun & _ & _ & Hoff & _).
  exists l, D. split; [exact Hrun | apply Hoff; lia].
Defined.

(** C6 at the end-to-end scenario: the entry of the two distinct points
    0 and 2 lies in [[0, 1]], the entry of the two equal points 0 and 1
    is 1. *)
Lemma sym_entries_unit_interval_witness :
  exists l A,
    sym granted stale step_exp 1 3 2 (State points_store 0) =
      Some (Some l, State (<[l := mat A]> points_store) 4) /\
    entry A 0 2 = step_exp (- sqdist 2 points_ex 0 2 / 2)%float /\
    (0 <=? entry A 0 2)%float = true /\ (entry A 0 2 <=? 1)%float = true /\
    entry A 0 1 = 1%float.
Proof.
  destruct (sym_entries_unit_interval granted stale step_exp 1 3 2 points_ex
              points_store 0 points_store_holds points_ex_finite
              (fun _ _ => eq_refl))
    as (l & A & Hrun & Hent).
  exists l, A. split; [exact Hrun |].
  destruct (Hent 0 2) as (Heq & _ & _ & Hrange & _); [lia | lia | lia |].
  destruct (Hrange step_exp_range) as [Hlo Hhi].
  destruct (Hent 0 1) as (_ & _ & _ & _ & Hsame); [lia | lia | lia |].
  split; [exact Heq |]. split; [exact Hlo |]. split; [exact Hhi |].
  apply Hsame; [| reflexivity].
  intros k Hk. destruct k as [|[|k]]; [reflexivity | reflexivity | lia].
Defined.

(** C6 as stated fails, for every [exp] with the values the C standard
    fixes at [-inf] and [-0.0]: two finite points at distance 1e200 have a
    squared distance that overflows to [+inf], so their similarity is
    [exp(-inf) = 0], outside (0, 1]; two distinct points at distance 1e-200
    have a squared distance that underflows to zero, so their similarity is
    [exp(-0.0) = 1] although they differ. *)
Lemma sym_entry_outside_open_interval :
  (holds far_store 1 2 1 far_points /\
   (forall i k, i < 2 -> k < 1 -> is_finite (entry far_points i k) = true) /\
   forall junk exp, exp neg_infinity = 0%float ->
     exists l A,
       sym granted junk exp 1 2 1 (State far_store 0) =
         Some (Some l, State (<[l := mat A]> far_store) 3) /\
       (0 <? entry A 0 1)%float = false) /\
  (holds near_store 1 2 1 near_points /\
   (forall i k, i < 2 -> k < 1 -> is_finite (entry near_points i k) = true) /\
   entry near_points 0 0 <> entry near_points 1 0 /\
   forall junk exp, exp (-0)%float = 1%float ->
     exists l A,
       sym granted junk exp 1 2 1 (State near_store 0) =
         Some (Some l, State (<[l := mat A]> near_store) 3) /\
       entry A 0 1 = 1%float).
Proof.
  assert (Hfar : holds far_store 1 2 1 far_points).
  { split; [reflexivity |]. split; [reflexivity | repeat constructor]. }
  assert (Hnear : holds near_store 1 2 1 near_points).
  { split; [reflexivity |]. split; [reflexivity | repeat constructor]. }
  split.
  - split; [exact Hfar |]. split.
    + intros [|[|i]] [|k] Hi Hk; try lia; reflexivity.
    + intros junk exp Hexp.
      destruct (alloc_result_granted granted _ _ _ _ _
                  (sym_spec granted junk exp 1 2 1 _ far_store 0 Hfar)
                  (fun _ _ => eq_refl)) as (l & Hrun & _).
      exists l, (similarity exp 2 1 far_points). split; [exact Hrun |].
      change (entry (similarity exp 2 1 far_points) 0 1) with (exp neg_infinity).
      rewrite Hexp. reflexivity.
  - split; [exact Hnear |]. split; [| split].
    + intros [|[|i]] [|k] Hi Hk; try lia; reflexivity.
    + intros E. apply (f_equal is_zero) in E. discriminate E.
    + intros junk exp Hexp.
      destruct (alloc_result_granted granted _ _ _ _ _
                  (sym_spec granted junk exp 1 2 1 _ near_store 0 Hnear)
                  (fun _ _ => eq_refl)) as (l & Hrun & _).
      exists l, (similarity exp 2 1 near_points). split; [exact Hrun |].
      change (entry (similarity exp 2 1 near_points) 0 1) with (exp (-0)%float).
      exact Hexp.
Qed.

(** C8 at the end-to-end scenario's size, on a matrix with a zero entry
    whose factor is finite: one update of [H = [[0,1],[1,1]]] under
    [W = [[0,1],[1,0]]]. *)
Lemma zero_entry_stays_zero_witness :
  exists XH',
    update_H granted stale 1 2 2 2
      (State (<[2%positive := mat [[0; 1]; [1; 1]]%float]> store_ex) 0) =
      Some (true, State (<[2%positive := mat XH']>
                           (<[2%positive := mat [[0; 1]; [1; 1]]%float]> store_ex)) 12) /\
    is_zero (entry XH' 0 0) = true.
Proof.
  destruct (zero_entry_stays_zero granted stale 1 2 2 2 W_ex [[0; 1]; [1; 1]]%float
              (<[2%positive := mat [[0; 1]; [1; 1]]%float]> store_ex) 0 0 0)
    as ((XH' & Hrun & Hfin & _) & _).
  - split; [reflexivity |]. split; [reflexivity | repeat constructor].
  - split; [reflexivity |]. split; [reflexivity | repeat constructor].
  - reflexivity.
  - lia.
  - lia.
  - reflexivity.
  - exists XH'. split; [exact Hrun |]. apply Hfin. reflexivity.
Defined.

(** C8 as stated fails at the regression input of C1: [H[0][1]] is zero
    before the update, its factor is [0.5 + 0.5 * (1 / 0) = inf], and the
    update leaves [0 * inf = NaN] in [H[0][1]]. *)
Lemma update_H_zero_entry_becomes_nan :
  holds store_ex 1 2 2 W_ex /\ holds store_ex 2 2 2 H_ex /\
  is_zero (entry H_ex 0 1) = true /\
  forall junk, exists XH',
    update_H granted junk 1 2 2 2 (State store_ex 0) =
      Some (true, State (<[2%positive := mat XH']> store_ex) 12) /\
    is_zero (entry XH' 0 1) = false /\ is_nan (entry XH' 0 1) = true.
Proof.
  split; [exact store_ex_W |]. split; [exact store_ex_H |]. split; [reflexivity |].
  intros junk. exists (update_rule 2 2 W_ex H_ex). split.
  - exact (update_H_granted granted junk 1 2 2 2 W_ex H_ex store_ex 0
             store_ex_W store_ex_H (fun _ _ => eq_refl)).
  - split; reflexivity.
Qed.

(** C9 at two inputs.  On the 2×1 problem [W_ones], [H_ones], when the
    request for the table of [H_prev] is granted and the request for the
    table of [result] is refused, the call has undefined behaviour.  At
    the regression input, in an environment that refuses the request
    numbered 9 (inside the first update), [symnmf] returns the null
    pointer and the caller's store is as it was. *)
Lemma symnmf_frame_witness :
  symnmf (refused_at 1) blank 1 2 2 1 (State ones_store 0) = None /\
  symnmf (refused_at 9) stale 1 2 2 2 (State store_ex 0) =
    Some (None, State store_ex 10) /\
  store_ex !! 1%positive = Some (mat W_ex) /\
  store_ex !! 2%positive = Some (mat H_ex).
Proof.
  split.
  - apply (symnmf_frame (refused_at 1) blank 1 2 2 1 W_ones H_ones ones_store 0).
    + split; [reflexivity |]. split; [reflexivity | repeat constructor].
    + split; [reflexivity |]. split; [reflexivity | repeat constructor].
    + split; [reflexivity |]. split; [reflexivity | lia].
  - destruct (symnmf_frame (refused_at 9) stale 1 2 2 2 W_ex H_ex store_ex 0
                store_ex_W store_ex_H) as [_ Hframe].
    destruct Hframe as (r & s' & Hrun' & _ & HW & HH & _).
    { intros (_ & Hno & _). vm_compute in Hno. discriminate Hno. }
    assert (Hrun : symnmf (refused_at 9) stale 1 2 2 2 (State store_ex 0) =
                   Some (None, State store_ex 10)) by (vm_compute; reflexivity).
    rewrite Hrun in Hrun'. injection Hrun' as <- <-.
    split; [exact Hrun |]. split; [exact HW | exact HH].
Defined.

(** C10 at the regression input, in an environment that refuses the
    request numbered 7 (a row of [HHt]): [update_H] returns 0 and the
    store is as it was. *)
Lemma update_H_failure_atomic_witness :
  exists s',
    update_H (refused_at 7) stale 1 2 2 2 (State store_ex 0) = Some (false, s') /\
    store s' = store_ex.
Proof.
  destruct (update_H_failure_atomic (refused_at 7) stale 1 2 2 2 W_ex H_ex store_ex 0
              store_ex_W store_ex_H) as (ok & s' & Hrun & Hfail & _).
  assert (Hok : ok = false).
  { assert (Hrun' : exists s'', update_H (refused_at 7) stale 1 2 2 2 (State store_ex 0) =
                                Some (false, s'')) by (vm_compute; eauto).
    destruct Hrun' as (s'' & Hrun'). congruence. }
  subst ok. exists s'. split; [exact Hrun |]. apply Hfail. reflexivity.
Defined.

(** X1 at the end-to-end scenario, in an environment that refuses the
    request numbered 2 (the second row of the similarity matrix). *)
Lemma graph_null_iff_refused_witness :
  exists r s',
    sym (refused_at 2) stale step_exp 1 3 2 (State points_store 0) = Some (r, s') /\
    (r = None <-> exists t, 0 <= t < clock s' /\ refused_at 2 t = false).
Proof.
  exact (graph_null_iff_refused (refused_at 2) stale step_exp 1 3 2 points_ex
           points_store 0 points_store_holds _ (or_introl eq_refl)).
Defined.

(** X2 at the regression input, in an environment that refuses the
    request numbered 9. *)
Lemma symnmf_null_iff_refused_witness :
  None = (None : option loc) <-> exists t, 0 <= t < 10 /\ refused_at 9 t = false.
Proof.
  pose proof (symnmf_null_iff_refused (refused_at 9) stale 1 2 2 2 W_ex H_ex store_ex 0
                store_ex_W store_ex_H) as Hiff.
  assert (Hrun : symnmf (refused_at 9) stale 1 2 2 2 (State store_ex 0) =
                 Some (None, State store_ex 10)) by (vm_compute; reflexivity).
  rewrite Hrun in Hiff. exact Hiff.
Defined.

(** X3 at the end-to-end scenario. *)
Lemma frobenius_self_zero_witness :
  calculate_frobenius_norm 1 1 3 2 (State points_store 0) =
    Some (0%float, State points_store 0).
Proof.
  exact (frobenius_self_zero 1 3 2 points_ex points_store 0
           points_store_holds points_ex_finite).
Defined.

(** X4 at the end-to-end scenario. *)
Lemma transpose_matrix_twice_witness :
  exists l1 l2 s1,
    transpose_matrix granted stale 1 3 2 (State points_store 0) = Some (Some l1, s1) /\
    exists s2, transpose_matrix granted stale l1 2 3 s1 = Some (Some l2, s2) /\
               store s2 !! l2 = Some (mat points_ex).
Proof.
  destruct (transpose_matrix_twice granted stale 1 3 2 points_ex points_store 0
              points_store_holds (fun _ _ => eq_refl)) as (l1 & l2 & Hrun1 & Hrun2).
  exists l1, l2. eexists. split; [exact Hrun1 |].
  eexists. split; [exact Hrun2 |]. apply lookup_insert_eq.
Defined.

(** * The contents of fresh memory are never read *)

Lemma alloc_result_same avail σ c ticks R (m1 m2 : M (option loc)) :
  wp m1 (State σ c) (alloc_result avail σ c ticks R) ->
  wp m2 (State σ c) (alloc_result avail σ c ticks R) ->
  same_outcome (m1 (State σ c)) (m2 (State σ c)).
Proof.
  intros H1 H2.
  apply wp_run in H1 as (r1 & s1 & -> & H1).
  apply wp_run in H2 as (r2 & s2 & -> & H2).
  destruct r1 as [l1|], r2 as [l2|]; simpl in *.
  - destruct H1 as (Hl1 & -> & _), H2 as (Hl2 & -> & _). simpl.
    split; [reflexivity |]. split; [now rewrite !lookup_insert_eq |].
    now rewrite !delete_insert_eq, !delete_id.
  - destruct H1 as (_ & _ & Hav), H2 as (t & Ht & _ & Hno & _).
    rewrite Hav in Hno by exact Ht. discriminate.
  - destruct H2 as (_ & _ & Hav), H1 as (t & Ht & _ & Hno & _).
    rewrite Hav in Hno by exact Ht. discriminate.
  - destruct H1 as (t1 & Ht1 & -> & Hno1 & Hb1), H2 as (t2 & Ht2 & -> & Hno2 & Hb2).
    destruct (Nat.lt_trichotomy t1 t2) as [Hlt | [-> | Hlt]]; [| reflexivity |].
    + rewrite Hb2 in Hno1 by lia. discriminate.
    + rewrite Hb1 in Hno2 by lia. discriminate.
Qed.

(** X15: what [transpose_matrix], [sym], [ddg] and [norm] return, and the
    memory they leave, do not depend on what the blocks handed out by
    [malloc] happen to contain: every double of a fresh row is written
    before it is read.  This holds in every environment, whichever
    requests are refused. *)
Theorem fresh_rows_never_read avail junk1 junk2 exp P n d X σ c :
  holds σ P n d X ->
  same_outcome (transpose_matrix avail junk1 P n d (State σ c))
               (transpose_matrix avail junk2 P n d (State σ c)) /\
  same_outcome (sym avail junk1 exp P n d (State σ c))
               (sym avail junk2 exp P n d (State σ c)) /\
  same_outcome (ddg avail junk1 exp P n d (State σ c))
               (ddg avail junk2 exp P n d (State σ c)) /\
  same_outcome (norm avail junk1 exp P n d (State σ c))
               (norm avail junk2 exp P n d (State σ c)).
Proof.
  intros HP. repeat split.
  - eapply alloc_result_same; apply transpose_matrix_spec, HP.
  - eapply alloc_result_same; apply sym_spec, HP.
  - eapply alloc_result_same; apply ddg_spec, HP.
  - eapply alloc_result_same; apply norm_spec, HP.
Qed.

(** X16: with every request granted, the matrix [symnmf] returns and the
    number of updates it performs do not depend on what the blocks handed
    out by [malloc] contain: the rows of [H_prev] and of [result] are
    filled by [copy_matrix] before anything reads them. *)
Theorem symnmf_fresh_rows_never_read avail junk1 junk2 W H n k XW XH σ c :
  holds σ W n n XW -> holds σ H n k XH ->
  (forall t, c <= t -> avail t = true) ->
  exists l1 l2 R t,
    symnmf avail junk1 W H n k (State σ c) =
      Some (Some l1, State (<[l1 := mat R]> σ) (c + symnmf_ticks n k t)) /\
    symnmf avail junk2 W H n k (State σ c) =
      Some (Some l2, State (<[l2 := mat R]> σ) (c + symnmf_ticks n k t)) /\
    shaped n k R.
Proof.
  intros HW HH Hav.
  pose proof (symnmf_spec avail junk1 W H n k XW XH σ c HW HH) as H1.
  pose proof (symnmf_spec avail junk2 W H n k XW XH σ c HW HH) as H2.
  destruct (symnmf avail junk1 W H n k (State σ c)) as [[[l1|] s1]|];
    [| destruct H1 as (t & Ht & _ & Hno & _); rewrite Hav in Hno by lia; discriminate
     | destruct H1 as (_ & Hno & _); rewrite Hav in Hno by lia; discriminate].
  destruct (symnmf avail junk2 W H n k (State σ c)) as [[[l2|] s2]|];
    [| destruct H2 as (t & Ht & _ & Hno & _); rewrite Hav in Hno by lia; discriminate
     | destruct H2 as (_ & Hno & _); rewrite Hav in Hno by lia; discriminate].
  destruct H1 as (_ & t1 & Hs1 & -> & _), H2 as (_ & t2 & Hs2 & -> & _).
  assert (t2 = t1) as -> by (eapply stops_at_unique; eassumption).
  exists l1, l2, (iterate n k XW XH t1), t1.
  split; [reflexivity |]. split; [reflexivity |].
  apply iterate_shaped, HH.
Qed.

(** * The further properties at concrete inputs *)

Lemma ones_store_W : holds ones_store 1 2 2 W_ones.
Proof. split; [reflexivity |]. split; [reflexivity | repeat constructor]. Qed.

Lemma ones_store_H : holds ones_store 2 2 1 H_ones.
Proof. split; [reflexivity |]. split; [reflexivity | repeat constructor]. Qed.

Lemma disk_points : disk (lit "points.txt") = Some (csv points_fields).
Proof. reflexivity. Qed.

Lemma disk_ragged : disk (lit "ragged.txt") = Some (csv ragged_fields).
Proof. reflexivity. Qed.

Lemma disk_w : disk (lit "w.txt") = Some (csv (map (map fmt_unit) W_ex)).
Proof. reflexivity. Qed.

Lemma points_fields_tidy : tidy 2 points_fields.
Proof.
  unfold tidy, points_fields, clean.
  repeat constructor; try discriminate; try (unfold MAX_LINE_LENGTH; simpl; lia);
    apply (bool_decide_unpack _); vm_compute; exact I.
Qed.

Lemma printed_W_ex_tidy : tidy 2 (map (map fmt_unit) W_ex).
Proof.
  unfold tidy, clean.
  repeat constructor; try discriminate; try (unfold MAX_LINE_LENGTH; simpl; lia);
    apply (bool_decide_unpack _); vm_compute; exact I.
Qed.




(** X7 at the regression input: [H] copied over [W]. *)
Lemma copy_matrix_copies_witness :
  copy_matrix 1 2 2 2 (State store_ex 0) =
    Some (tt, State (<[1%positive := mat H_ex]> store_ex) 0).
Proof.
  exact (proj1 (copy_matrix_copies 1 2 2 2 H_ex W_ex store_ex 0 store_ex_H store_ex_W)).
Defined.

(** X8 at the regression input. *)
Lemma frobenius_symmetric_nonneg_witness :
  exists v,
    calculate_frobenius_norm 1 2 2 2 (State store_ex 0) = Some (v, State store_ex 0) /\
    calculate_frobenius_norm 2 1 2 2 (State store_ex 0) = Some (v, State store_ex 0).
Proof.
  destruct (frobenius_symmetric_nonneg 1 2 2 2 W_ex H_ex store_ex 0
              store_ex_W store_ex_H) as (v & H1 & H2 & _).
  exists v. split; [exact H1 | exact H2].
Defined.



(** X11 at the end-to-end scenario. *)
Lemma norm_of_sym_and_ddg_witness :
  exists la A ld D ln W sa sd sn,
    sym granted stale step_exp 1 3 2 (State points_store 0) = Some (Some la, sa) /\
    store sa !! la = Some (mat A) /\
    ddg granted stale step_exp 1 3 2 (State points_store 0) = Some (Some ld, sd) /\
    store sd !! ld = Some (mat D) /\
    norm granted stale step_exp 1 3 2 (State points_store 0) = Some (Some ln, sn) /\
    store sn !! ln = Some (mat W) /\
    entry W 0 2 = (entry A 0 2 / sqrt (entry D 0 0 * entry D 2 2))%float.
Proof.
  destruct (norm_of_sym_and_ddg granted stale step_exp 1 3 2 points_ex points_store 0
              points_store_holds (fun _ _ => eq_refl))
    as (la & A & ld & D & ln & W & sa & sd & sn & H1 & H2 & H3 & H4 & H5 & H6 & Hent).
  exists la, A, ld, D, ln, W, sa, sd, sn.
  repeat (split; [assumption |]). apply Hent; lia.
Defined.

(** X12 at the regression input. *)
Lemma gram_matrix_symmetric_witness :
  exists lt lg,
    transpose_matrix granted stale 2 2 2 (State store_ex 0) =
      Some (Some lt, State (<[lt := mat (transpose 2 2 H_ex)]> store_ex) 3) /\
    matrix_multiply granted 2 lt 2 2 2
      (State (<[lt := mat (transpose 2 2 H_ex)]> store_ex) 3) =
      Some (Some lg,
            State (<[lg := mat (mmul 2 2 2 H_ex (transpose 2 2 H_ex))]>
                     (<[lt := mat (transpose 2 2 H_ex)]> store_ex)) 6).
Proof.
  destruct (gram_matrix_symmetric granted stale 2 2 2 H_ex store_ex 0
              store_ex_H (fun _ _ => eq_refl)) as (lt & lg & H1 & H2 & _).
  exists lt, lg. split; [exact H1 | exact H2].
Defined.

(** X13 at the regression input of the update rule: the first update
    leaves NaN in [H[0][1]], so the run goes on for 300 updates. *)
Lemma symnmf_nan_runs_to_cap_witness :
  exists l,
    symnmf granted stale 1 2 2 2 (State store_ex 0) =
      Some (Some l, State (<[l := mat (iterate 2 2 W_ex H_ex 300)]> store_ex)
                          (symnmf_ticks 2 2 300)).
Proof.
  destruct (symnmf_nan_runs_to_cap granted stale 1 2 2 2 W_ex H_ex store_ex 0
              store_ex_W store_ex_H (fun _ _ => eq_refl))
    as (l & t & Hrun & Ht & _ & Hnan).
  destruct (Hnan 1 0 1) as [_ ->]; [lia | lia | lia | reflexivity |].
  exists l. exact Hrun.
Defined.

(** X14 at a fixed point of the update rule. *)
Lemma symnmf_single_update_witness :
  exists l,
    symnmf granted stale 1 2 2 1 (State ones_store 0) =
      Some (Some l, State (<[l := mat (update_rule 2 1 W_ones H_ones)]> ones_store)
                          (symnmf_ticks 2 1 1)) /\
    update_rule 2 1 W_ones H_ones = H_ones.
Proof.
  destruct (symnmf_single_update granted stale 1 2 2 1 W_ones H_ones ones_store 0
              ones_store_W ones_store_H (fun _ _ => eq_refl))
    as (l & Hrun & _).
  - right. right. reflexivity.
  - exists l. split; [exact Hrun | reflexivity].
Defined.

(** X15 at the end-to-end scenario, for fresh memory full of NaN and
    fresh memory full of zeros. *)
Lemma fresh_rows_never_read_witness :
  same_outcome (norm (refused_at 7) stale step_exp 1 3 2 (State points_store 0))
               (norm (refused_at 7) blank step_exp 1 3 2 (State points_store 0)).
Proof.
  apply (fresh_rows_never_read (refused_at 7) stale blank step_exp 1 3 2 points_ex
           points_store 0 points_store_holds).
Defined.

(** X16 at the regression input. *)
Lemma symnmf_fresh_rows_never_read_witness :
  exists l1 l2 R t,
    symnmf granted stale 1 2 2 2 (State store_ex 0) =
      Some (Some l1, State (<[l1 := mat R]> store_ex) (symnmf_ticks 2 2 t)) /\
    symnmf granted blank 1 2 2 2 (State store_ex 0) =
      Some (Some l2, State (<[l2 := mat R]> store_ex) (symnmf_ticks 2 2 t)).
Proof.
  destruct (symnmf_fresh_rows_never_read granted stale blank 1 2 2 2 W_ex H_ex store_ex 0
              store_ex_W store_ex_H (fun _ _ => eq_refl))
    as (l1 & l2 & R & t & H1 & H2 & _).
  exists l1, l2, R, t. split; [exact H1 | exact H2].
Defined.

(** X17 at the regression input. *)
Lemma print_matrix_writes_witness :
  print_matrix fmt_unit 1 2 2 [] (State store_ex 0) =
    Some (csv [[lit "0.0000"; lit "1.0000"]; [lit "1.0000"; lit "0.0000"]],
          State store_ex 0).
Proof.
  rewrite (print_matrix_writes fmt_unit 1 2 2 W_ex [] store_ex 0 store_ex_W).
  reflexivity.
Defined.


(** X19 on the file whose second line is short. *)
Lemma read_data_from_file_short_line_witness :
  read_data_from_file granted stale disk atof_digit (lit "ragged.txt") (State ∅ 0) = None.
Proof.
  apply (read_data_from_file_short_line granted stale disk atof_digit
           (lit "ragged.txt") (csv ragged_fields) ∅ 0 1 disk_ragged).
  - vm_compute. lia.
  - vm_compute. lia.
  - reflexivity.
Defined.

(** X20 on the file of three points, the table being refused. *)
Lemma read_data_from_file_table_unchecked_witness :
  read_data_from_file (refused_at 0) stale disk atof_digit (lit "points.txt")
    (State ∅ 0) = None.
Proof.
  apply (read_data_from_file_table_unchecked (refused_at 0) stale disk atof_digit
           (lit "points.txt") (csv points_fields) ∅ 0 disk_points eq_refl).
  discriminate.
Defined.

(** X21 on the file of three points. *)
Lemma read_data_from_file_csv_witness :
  exists data R,
    read_data_from_file granted stale disk atof_digit (lit "points.txt") (State ∅ 0) =
      Some (Some (Some data, 3, 2), State (<[data := mat R]> ∅) 4) /\
    entry R 2 0 = 3%float /\ entry R 2 1 = 4%float.
Proof.
  destruct (read_data_from_file_csv granted stale disk atof_digit (lit "points.txt")
              points_fields 2 ∅ 0 disk_points) as (data & R & Hrun & _ & _ & Hent).
  - lia.
  - discriminate.
  - exact points_fields_tidy.
  - reflexivity.
  - exists data, R. split; [exact Hrun |].
    split; [rewrite (Hent 2 0) by (simpl; lia) | rewrite (Hent 2 1) by (simpl; lia)];
      reflexivity.
Defined.

(** X22 at the regression input: [W] printed, and read back. *)
Lemma print_matrix_read_back_witness :
  exists out,
    print_matrix fmt_unit 1 2 2 [] (State store_ex 0) = Some (out, State store_ex 0) /\
    disk (lit "w.txt") = Some out /\
    exists data R,
      read_data_from_file granted stale disk atof_digit (lit "w.txt") (State ∅ 0) =
        Some (Some (Some data, 2, 2), State (<[data := mat R]> ∅) 3) /\
      entry R 0 1 = 1%float.
Proof.
  destruct (print_matrix_read_back granted stale disk atof_digit fmt_unit
              1 (lit "w.txt") 2 2 W_ex store_ex 0 ∅ 0 store_ex_W)
    as (out & Hprint & Hread).
  - lia.
  - lia.
  - exact printed_W_ex_tidy.
  - reflexivity.
  - assert (Hout : out = csv (map (map fmt_unit) W_ex)).
    { pose proof (print_matrix_spec fmt_unit 1 2 2 W_ex [] store_ex 0 store_ex_W) as Hwp.
      apply wp_run in Hwp as (out' & s' & Hrun & -> & _).
      rewrite Hrun in Hprint. now injection Hprint as <-. }
    exists out. split; [exact Hprint |].
    assert (Hdisk : disk (lit "w.txt") = Some out) by (rewrite Hout; exact disk_w).
    split; [exact Hdisk |].
    destruct (Hread Hdisk) as (data & R & Hrun & _ & _ & Hent).
    exists data, R. split; [exact Hrun |].
    rewrite (Hent 0 1) by lia. reflexivity.
Defined.



(** X26 at the three points. *)
Lemma c_array_to_py_list_builds_witness :
  exists r ps',
    c_array_to_py_list granted 1 3 2 py_start (State points_store 0) =
      Some ((r, ps'), State points_store 0) /\
    match r with
    | Some v =>
        v = PyList (map (fun row => Some (PyList (map (fun x => Some (PyFloat x)) row)))
                        points_ex) /\
        ps' = PyState false 10 /\
        forall t, 0 <= t < 10 -> granted t = true
    | None =>
        pending ps' = true /\
        exists t, 0 <= t < 10 /\ py_clock ps' = S t /\ granted t = false
    end.
Proof.
  exact (c_array_to_py_list_builds granted 1 3 2 points_ex py_start points_store 0
           points_store_holds).
Defined.

(** X27 at the three points. *)
Lemma py_list_round_trip_witness :
  exists a s1,
    py_list_to_c_array granted stale no_longs (py_matrix points_ex) 3 2 py_start
      (State ∅ 0) = Some ((Some a, py_start), s1) /\
    c_array_to_py_list granted a 3 2 py_start s1 =
      Some ((Some (py_matrix points_ex), PyState false 10), s1).
Proof.
  exact (py_list_round_trip granted stale granted no_longs points_ex 3 2 py_start ∅ 0
           (proj2 points_store_holds) (fun _ _ => eq_refl) (fun _ _ => eq_refl)).
Defined.


(** X29 at the empty list. *)
Lemma py_graph_undefined_witness :
  py_sym granted stale step_exp granted no_longs [PyList []] py_start (State ∅ 0) = None /\
  py_ddg granted stale step_exp granted no_longs [PyList []] py_start (State ∅ 0) = None /\
  py_norm granted stale step_exp granted no_longs [PyList []] py_start (State ∅ 0) = None.
Proof.
  exact (py_graph_undefined granted stale step_exp granted no_longs (PyList []) py_start
           (State ∅ 0)
           (fun items E =>
              eq_sym (f_equal (fun o => match o with PyList l => l | _ => [] end) E))).
Defined.

